(** * Block summarizer: segmentation, content hashing, summary cache,
      orchestration and prompt truncation.

    Shallow embedding of the two hosts of the extension:
    - [Browser]: src/index.js  (IndexedDB backed cache, SHA-256 block hash);
    - [Server]:  src/script.js (file backed cache, MD5 block hash).

    JavaScript strings are modelled by [string]; one character stands for
    one UTF-16 code unit, so [String.length] is the source's [.length].
    A field that may be absent in the host's message object ([name], [mes])
    is modelled by the empty string: the source only ever tests such a field
    for truthiness before using it, and both [undefined] and [''] are falsy. *)

From Stdlib Require Import String Ascii ZArith List Lia DecimalString.
From stdpp Require Import base tactics option list gmap strings.
Import ListNotations.

Local Open Scope string_scope.
Local Open Scope nat_scope.
Local Open Scope list_scope.

(** ** Data model *)

(** A message as the host application stores it. *)
Record Message := mkMessage {
  name : string;
  is_user : bool;
  mes : string;
  is_system : bool
}.

(** The standardized structure pushed into a block:
    [{ name: message.name, is_user: message.is_user, mes: message.mes }]. *)
Record BlockMsg := mkBlockMsg {
  b_name : string;
  b_is_user : bool;
  b_mes : string
}.

(** [{ hash: blockHash, details: [...currentBlock] }] *)
Record Block := mkBlock {
  hash : string;
  details : list BlockMsg
}.

Definition toBlockMsg (message : Message) : BlockMsg :=
  {| b_name := name message; b_is_user := is_user message; b_mes := mes message |}.

(** JavaScript truthiness of a string value. *)
Definition truthy (s : string) : bool :=
  match s with EmptyString => false | String _ _ => true end.

(** [message.mes ? message.mes.length : 0] *)
Definition messageLength (message : Message) : nat :=
  if truthy (mes message) then String.length (mes message) else 0.

(** [x || y] on values that are [null] or a string. *)
Definition js_or (x : option string) (y : string) : string :=
  match x with
  | Some s => if truthy s then s else y
  | None => y
  end.

(** [`${n}`] for a non-negative integer. *)
Definition showNat (n : nat) : string := NilZero.string_of_uint (Nat.to_uint n).

(** [s.startsWith(p)] *)
Definition startsWith (p s : string) : bool := String.prefix p s.

(** ** Block hashing *)

(** [`${msg.is_user ? 'U' : 'C'}:${msg.mes}`] *)
Definition encodeMsg (msg : BlockMsg) : string :=
  (if b_is_user msg then "U" else "C") +:+ ":" +:+ b_mes msg.

(** [blockDetails.map(...).join('|')] *)
Definition contentString (blockDetails : list BlockMsg) : string :=
  String.concat "|" (map encodeMsg blockDetails).

(** The role/text pairs a block hash may depend on. *)
Definition fingerprint (blockDetails : list BlockMsg) : list (bool * string) :=
  map (fun msg => (b_is_user msg, b_mes msg)) blockDetails.

Definition sumLengths (blockDetails : list BlockMsg) : nat :=
  list_sum (map (fun msg => String.length (b_mes msg)) blockDetails).

(** State of the segmentation loops: the three locals
    [blocks], [currentBlock], [currentBlockLength]. *)
Record SegState := mkSegState {
  blocks : list Block;
  currentBlock : list BlockMsg;
  currentBlockLength : nat
}.

Definition segInit : SegState :=
  {| blocks := []; currentBlock := []; currentBlockLength := 0 |}.

(** ** The two-layer summary cache *)

(** [blockCache] is the module-level [Map]; [durable] is the persistent
    store keyed by hash (the IndexedDB object store, or the [<hash>.json]
    files of the cache directory), holding the [summary] field of each
    record. *)
Record Cache := mkCache {
  blockCache : gmap string string;
  durable : gmap string string
}.

Definition setMem (hash summary : string) (c : Cache) : Cache :=
  {| blockCache := <[hash := summary]> (blockCache c); durable := durable c |}.

(** Result of awaiting a promise: it resolves with a value or rejects. *)
Inductive Outcome (A : Type) : Type :=
| Returned (a : A)
| Thrown.
Arguments Returned {A} a.
Arguments Thrown {A}.

(** An [async] function over the cache. *)
Definition Async (A : Type) : Type := Cache -> Outcome A * Cache.

Definition ret {A} (a : A) : Async A := fun c => (Returned a, c).

Definition bind {A B} (m : Async A) (k : A -> Async B) : Async B :=
  fun c =>
    match m c with
    | (Returned a, c') => k a c'
    | (Thrown, c') => (Thrown, c')
    end.

Notation "'await' x := m 'in' k" := (bind m (fun x => k))
  (at level 10, x name, m at level 200, k at level 200).

(** What the summarization endpoint does with one request. *)
Inductive HttpReply :=
| FetchFails                          (* fetch, text() or json() throws *)
| NotOk (status : nat)                (* [!response.ok] *)
| OkBody (summary : option string).   (* parsed body; its [summary] field *)

(** The two locals of the summary loops. *)
Record SumState := mkSumState {
  blockSummaries : list string;
  hasError : bool
}.

Definition sumInit : SumState := {| blockSummaries := []; hasError := false |}.

(** ** src/index.js *)
Module Browser.
Section WithDigest.

(** [digestMessage]: hex of the SHA-256 digest of the UTF-8 encoding,
    computed by the platform's Web Crypto. *)
Variable digestMessage : string -> string.

Definition getBlockHash (blockDetails : list BlockMsg) : string :=
  digestMessage (contentString blockDetails).

Definition closeBlock (st : SegState) : list Block :=
  blocks st ++ [ {| hash := getBlockHash (currentBlock st);
                    details := currentBlock st |} ].

(** One iteration of [for (const message of chatHistory)] in
    [generateBlocks]. *)
Definition segStep (blockSize : nat) (st : SegState) (message : Message)
  : SegState :=
  if is_system message then st
  else
    let messageLength := messageLength message in
    if bool_decide (messageLength = 0) then st
    else
      let blockMsg := toBlockMsg message in
      if bool_decide (0 < length (currentBlock st))
         && bool_decide (blockSize < currentBlockLength st + messageLength)
      then {| blocks := closeBlock st;
              currentBlock := [blockMsg];
              currentBlockLength := messageLength |}
      else {| blocks := blocks st;
              currentBlock := currentBlock st ++ [blockMsg];
              currentBlockLength := currentBlockLength st + messageLength |}.

Definition generateBlocks (blockSize : nat) (chatHistory : list Message)
  : list Block :=
  let st := fold_left (segStep blockSize) chatHistory segInit in
  if bool_decide (0 < length (currentBlock st)) then closeBlock st
  else blocks st.

(** *** IndexedDB helpers *)

(** How one IndexedDB operation goes: [openDB] may reject (caught by the
    helper's [try]), or the request may fire [onerror] (the promise the
    helper returns without awaiting then rejects, outside its [try]). *)
Inductive DbFault := DbOk | DbOpenFails | DbRequestFails.

Definition getItemFromDB (f : DbFault) (hash : string)
    (db : gmap string string) : Outcome (option string) :=
  match f with
  | DbOk => Returned (db !! hash)
  | DbOpenFails => Returned None
  | DbRequestFails => Thrown
  end.

Definition setItemInDB (f : DbFault) (hash summary : string)
    (db : gmap string string) : Outcome bool * gmap string string :=
  match f with
  | DbOk => (Returned true, <[hash := summary]> db)
  | DbOpenFails => (Returned false, db)
  | DbRequestFails => (Thrown, db)
  end.

Definition clearDBStore (f : DbFault) (db : gmap string string)
  : Outcome bool * gmap string string :=
  match f with
  | DbOk => (Returned true, ∅)
  | DbOpenFails => (Returned false, db)
  | DbRequestFails => (Thrown, db)
  end.

(** *** Cache handling *)

Definition getSummaryFromCache (f : DbFault) (hash : string)
  : Async (option string) :=
  fun c =>
    match blockCache c !! hash with
    | Some summary => (Returned (Some summary), c)
    | None =>
        match getItemFromDB f hash (durable c) with
        | Returned (Some summaryFromDB) =>
            (Returned (Some summaryFromDB), setMem hash summaryFromDB c)
        | Returned None => (Returned None, c)
        | Thrown => (Thrown, c)
        end
    end.

(** The function has no [return]: it resolves with [undefined]. *)
Definition saveSummaryToCache (f : DbFault) (hash summary : string)
  : Async unit :=
  fun c =>
    let c1 := setMem hash summary c in
    match setItemInDB f hash summary (durable c1) with
    | (Returned _, db) =>
        (Returned tt, {| blockCache := blockCache c1; durable := db |})
    | (Thrown, db) =>
        (Thrown, {| blockCache := blockCache c1; durable := db |})
    end.

Definition clearSummaryCache (f : DbFault) : Async bool :=
  fun c =>
    match clearDBStore f (durable c) with
    | (Returned success, db) =>
        (Returned success, {| blockCache := ∅; durable := db |})
    | (Thrown, db) => (Thrown, {| blockCache := ∅; durable := db |})
    end.

(** *** API call *)

Definition callSummarizationApi (apiUrl : string) (r : HttpReply)
  : option string :=
  if negb (truthy apiUrl) then None
  else
    match r with
    | FetchFails => Some "[Error: Network/Fetch failed]"
    | NotOk status => Some ("[Error: API response " +:+ showNat status +:+ "]")
    | OkBody (Some summary) => if truthy summary then Some summary else None
    | OkBody None => None
    end.

(** *** Core summarization logic *)

(** What the environment does during iteration [i] of
    [summarizeAllBlocks]: at most one cache read, one request and one
    cache write happen in an iteration. *)
Record Env := mkEnv {
  reply : nat -> HttpReply;
  getFault : nat -> DbFault;
  putFault : nat -> DbFault
}.

Definition failedPlaceholder (i : nat) : string :=
  "[Summary generation failed for block " +:+ showNat (i + 1) +:+ "]".

Definition push (summary : string) (acc : SumState) : SumState :=
  {| blockSummaries := blockSummaries acc ++ [summary];
     hasError := hasError acc |}.

(** Body of the [for] loop of [summarizeAllBlocks]. *)
Definition summarizeBlock (apiUrl : string) (r : HttpReply)
    (gf pf : DbFault) (i : nat) (block : Block) (acc : SumState)
  : Async SumState :=
  await cached := getSummaryFromCache gf (hash block) in
  match cached with
  | None =>
      let summary := callSummarizationApi apiUrl r in
      match summary with
      | Some s =>
          if negb (startsWith "[Error:" s)
          then await _ := saveSummaryToCache pf (hash block) s in
               ret (push s acc)
          else ret {| blockSummaries :=
                        blockSummaries acc ++ [js_or summary (failedPlaceholder i)];
                      hasError := true |}
      | None =>
          ret {| blockSummaries :=
                   blockSummaries acc ++ [js_or summary (failedPlaceholder i)];
                 hasError := true |}
      end
  | Some s => ret (push s acc)
  end.

Fixpoint summarizeLoop (apiUrl : string) (env : Env) (i : nat)
    (rest : list Block) (acc : SumState) : Async SumState :=
  match rest with
  | [] => ret acc
  | block :: rest' =>
      await acc' := summarizeBlock apiUrl (reply env i) (getFault env i)
                      (putFault env i) i block acc in
      summarizeLoop apiUrl env (S i) rest' acc'
  end.

Definition summarizeAllBlocks (apiUrl : string) (env : Env)
    (blocks : list Block) : Async SumState :=
  summarizeLoop apiUrl env 0 blocks sumInit.

(** *** Host integration: the trigger and the in-progress flag *)

(** [String.prototype.trim] and
    [settings.promptTemplate.replace('{{summary_content}}', text)] are
    the platform's. *)
Variable trim : string -> string.
Variable substitute : string -> string -> string.

Record Settings := mkSettings {
  enabled : bool;
  apiUrl : string;
  blockSize : nat;
  triggerThreshold : Z;
  promptTemplate : string
}.

(** The module-level variables, the prompt last handed to
    [setExtensionPrompt], and the [disabled] property of the
    "Summarize Now" button ([#histSumm_forceUpdate]). *)
Record Globals := mkGlobals {
  settings : Settings;
  cache : Cache;
  inApiCall : bool;
  lastMessageCount : nat;
  lastSummaryContent : string;
  extensionPrompt : string;
  forceUpdateDisabled : bool
}.

Definition setCache (c : Cache) (g : Globals) : Globals :=
  mkGlobals (settings g) c (inApiCall g) (lastMessageCount g)
            (lastSummaryContent g) (extensionPrompt g) (forceUpdateDisabled g).
Definition setInApiCall (b : bool) (g : Globals) : Globals :=
  mkGlobals (settings g) (cache g) b (lastMessageCount g)
            (lastSummaryContent g) (extensionPrompt g) (forceUpdateDisabled g).
Definition setLastMessageCount (n : nat) (g : Globals) : Globals :=
  mkGlobals (settings g) (cache g) (inApiCall g) n
            (lastSummaryContent g) (extensionPrompt g) (forceUpdateDisabled g).
Definition setLastSummaryContent (s : string) (g : Globals) : Globals :=
  mkGlobals (settings g) (cache g) (inApiCall g) (lastMessageCount g)
            s (extensionPrompt g) (forceUpdateDisabled g).
Definition setForceUpdateDisabled (b : bool) (g : Globals) : Globals :=
  mkGlobals (settings g) (cache g) (inApiCall g) (lastMessageCount g)
            (lastSummaryContent g) (extensionPrompt g) b.
Definition setSettings (st : Settings) (g : Globals) : Globals :=
  mkGlobals st (cache g) (inApiCall g) (lastMessageCount g)
            (lastSummaryContent g) (extensionPrompt g) (forceUpdateDisabled g).

Definition updatePromptWithSummary (summaryText : string) (g : Globals)
  : Globals :=
  let finalPrompt :=
    if truthy summaryText && negb (String.eqb (trim summaryText) "")
    then substitute (promptTemplate (settings g)) (trim summaryText)
    else "" in
  mkGlobals (settings g) (cache g) (inApiCall g) (lastMessageCount g)
            (lastSummaryContent g) finalPrompt (forceUpdateDisabled g).

(** Where a suspended invocation of [checkAndSummarize] stands: awaiting
    [generateBlocks], or inside the loop of [summarizeAllBlocks] about to
    run iteration [i]. *)
Inductive Phase :=
| Segmenting (historyToSummarize : list Message)
| Summarizing (blocks : list Block) (i : nat) (acc : SumState).

(** A summarization pass in flight, with its captured local. *)
Record Pass := mkPass {
  currentMessageCount : nat;
  phase : Phase
}.

Record World := mkWorld {
  globals : Globals;
  chat : list Message;
  inFlight : list Pass
}.

Definition countable (m : Message) : bool :=
  negb (is_system m) && truthy (mes m).

(** [checkAndSummarize] from its entry up to its first [await]. *)
Definition checkAndSummarize (w : World) : World :=
  let g := globals w in
  if negb (enabled (settings g)) || inApiCall g then w
  else
    let currentMessageCount := length (filter countable (chat w)) in
    let messagesSinceLastCheck :=
      (Z.of_nat currentMessageCount - Z.of_nat (lastMessageCount g))%Z in
    if bool_decide (triggerThreshold (settings g) ≤ messagesSinceLastCheck)%Z
    then
      {| globals := setForceUpdateDisabled true (setInApiCall true g);
         chat := chat w;
         inFlight := inFlight w ++
           [ {| currentMessageCount := currentMessageCount;
                phase := Segmenting (removelast (chat w)) |} ] |}
    else
      {| globals := updatePromptWithSummary (lastSummaryContent g) g;
         chat := chat w;
         inFlight := inFlight w |}.

(** [forceSummarize] *)
Definition forceSummarize (w : World) : World :=
  checkAndSummarize
    {| globals := setLastMessageCount 0 (globals w);
       chat := chat w; inFlight := inFlight w |}.

(** The [finally] clause. *)
Definition finallyClause (g : Globals) : Globals :=
  setForceUpdateDisabled false (setInApiCall false g).

(** The [catch] clause followed by [finally]. *)
Definition catchClause (g : Globals) : Globals :=
  finallyClause (updatePromptWithSummary "" g).

(** The rest of the [try] block once [summarizeAllBlocks] has returned. *)
Definition completePass (p : Pass) (acc : SumState) (g : Globals)
  : Globals :=
  let combinedSummary :=
    trim (String.concat (String "010" (String "010" "")) (blockSummaries acc)) in
  let g1 :=
    if truthy combinedSummary
    then updatePromptWithSummary combinedSummary
           (setLastSummaryContent combinedSummary g)
    else updatePromptWithSummary "" g in
  finallyClause (setLastMessageCount (currentMessageCount p) g1).

(** A pass in flight runs from one [await] to the next. It yields the
    new globals and the pass if it is still suspended afterwards. *)
Definition resume (r : HttpReply) (gf pf : DbFault) (p : Pass)
    (g : Globals) : Globals * option Pass :=
  match phase p with
  | Segmenting historyToSummarize =>
      let blocks := generateBlocks (blockSize (settings g)) historyToSummarize in
      if bool_decide (0 < length blocks)
      then (g, Some {| currentMessageCount := currentMessageCount p;
                       phase := Summarizing blocks 0 sumInit |})
      else (finallyClause
              (setLastMessageCount (currentMessageCount p)
                 (updatePromptWithSummary "" g)), None)
  | Summarizing blocks i acc =>
      match blocks !! i with
      | Some block =>
          match summarizeBlock (apiUrl (settings g)) r gf pf i block acc
                  (cache g) with
          | (Returned acc', c') =>
              (setCache c' g,
               Some {| currentMessageCount := currentMessageCount p;
                       phase := Summarizing blocks (S i) acc' |})
          | (Thrown, c') => (catchClause (setCache c' g), None)
          end
      | None => (completePass p acc g, None)
      end
  end.

Definition resumeAt (k : nat) (r : HttpReply) (gf pf : DbFault)
    (p : Pass) (w : World) : World :=
  match resume r gf pf p (globals w) with
  | (g', Some p') =>
      {| globals := g'; chat := chat w; inFlight := <[k := p']> (inFlight w) |}
  | (g', None) =>
      {| globals := g'; chat := chat w; inFlight := delete k (inFlight w) |}
  end.

(** What can happen between two turns of the event loop: a rendered
    message fires the trigger; a click on the "Summarize Now" button, which
    a disabled button does not deliver; a pass in flight resumes; the host
    changes the chat or the settings; a summary is edited by hand; the
    cache is cleared; the preview panel looks a block up; a handler
    re-applies a summary to the prompt ([onChatChanged], the settings and
    clear-cache handlers); the clear-cache handler forgets the last
    summary. *)
Inductive step : World -> World -> Prop :=
| step_trigger w :
    step w (checkAndSummarize w)
| step_force w :
    forceUpdateDisabled (globals w) = false ->
    step w (forceSummarize w)
| step_resume w k p r gf pf :
    inFlight w !! k = Some p ->
    step w (resumeAt k r gf pf p w)
| step_host w chat' settings' :
    step w {| globals := setSettings settings' (globals w);
              chat := chat'; inFlight := inFlight w |}
| step_edit w f hash newSummary :
    step w {| globals :=
                setCache (saveSummaryToCache f hash newSummary
                            (cache (globals w))).2 (globals w);
              chat := chat w; inFlight := inFlight w |}
| step_clear w f :
    step w {| globals :=
                setCache (clearSummaryCache f (cache (globals w))).2
                         (globals w);
              chat := chat w; inFlight := inFlight w |}
| step_preview w f hash :
    step w {| globals :=
                setCache (getSummaryFromCache f hash (cache (globals w))).2
                         (globals w);
              chat := chat w; inFlight := inFlight w |}
| step_prompt w summaryText :
    step w {| globals := updatePromptWithSummary summaryText (globals w);
              chat := chat w; inFlight := inFlight w |}
| step_forget w :
    step w {| globals := setLastSummaryContent "" (globals w);
              chat := chat w; inFlight := inFlight w |}.

Definition initWorld (st : Settings) (c : Cache) (chat0 : list Message)
  : World :=
  {| globals := {| settings := st; cache := c; inApiCall := false;
                   lastMessageCount := 0; lastSummaryContent := "";
                   extensionPrompt := ""; forceUpdateDisabled := false |};
     chat := chat0; inFlight := [] |}.

Inductive reachable (st : Settings) (c : Cache) (chat0 : list Message)
  : World -> Prop :=
| reach_init : reachable st c chat0 (initWorld st c chat0)
| reach_step w w' :
    reachable st c chat0 w -> step w w' -> reachable st c chat0 w'.

End WithDigest.
End Browser.

(** ** src/script.js *)
Module Server.
Section WithDigest.

(** [crypto.createHash('md5').update(s).digest('hex')] *)
Variable md5hex : string -> string.

Definition getBlockHash (blockDetails : list BlockMsg) : string :=
  md5hex (contentString blockDetails).

Definition closeBlock (st : SegState) : list Block :=
  blocks st ++ [ {| hash := getBlockHash (currentBlock st);
                    details := currentBlock st |} ].

(** The finalize test of [processHistoryForSummarization]. *)
Definition mustClose (blockSize : nat) (st : SegState) (messageLength : nat)
  : bool :=
  bool_decide (0 < length (currentBlock st))
  && (bool_decide (blockSize < currentBlockLength st + messageLength)
      || bool_decide (100 < length (currentBlock st))).

(** One iteration of the first loop of [processHistoryForSummarization]. *)
Definition segStep (blockSize : nat) (st : SegState) (message : Message)
  : SegState :=
  let messageLength := messageLength message in
  let st1 :=
    if mustClose blockSize st messageLength
    then {| blocks := closeBlock st; currentBlock := [];
            currentBlockLength := 0 |}
    else st in
  if bool_decide (0 < messageLength)
  then {| blocks := blocks st1;
          currentBlock := currentBlock st1 ++ [toBlockMsg message];
          currentBlockLength := currentBlockLength st1 + messageLength |}
  else st1.

(** The block list [processHistoryForSummarization] builds before it
    fetches summaries. *)
Definition segmentHistory (blockSize : nat) (chatHistory : list Message)
  : list Block :=
  let st := fold_left (segStep blockSize) chatHistory segInit in
  if bool_decide (0 < length (currentBlock st)) then closeBlock st
  else blocks st.

(** *** File cache *)

(** How one file-system operation goes; every error is caught by the
    [try] around it. *)
Inductive FsFault := FsOk | FsFails.

Definition getSummaryFromCache (f : FsFault) (hash : string) (c : Cache)
  : option string * Cache :=
  match blockCache c !! hash with
  | Some summary => (Some summary, c)
  | None =>
      match f, durable c !! hash with
      | FsOk, Some summary => (Some summary, setMem hash summary c)
      | _, _ => (None, c)
      end
  end.

Definition saveSummaryToCache (f : FsFault) (hash summary : string)
    (c : Cache) : unit * Cache :=
  let c1 := setMem hash summary c in
  match f with
  | FsOk => (tt, {| blockCache := blockCache c1;
                    durable := <[hash := summary]> (durable c1) |})
  | FsFails => (tt, c1)
  end.

(** *** API call *)

Definition callSummarizationApi (apiUrl : string) (r : HttpReply)
  : option string :=
  if negb (truthy apiUrl) then None
  else
    match r with
    | FetchFails => None
    | NotOk _ => None
    | OkBody (Some summary) => if truthy summary then Some summary else None
    | OkBody None => None       (* [result.summary.substring] throws *)
    end.

(** *** Summaries for all blocks *)

Record Env := mkEnv {
  reply : nat -> HttpReply;
  getFault : nat -> FsFault;
  putFault : nat -> FsFault
}.

Definition errorPlaceholder (i : nat) : string :=
  "[Error summarizing block " +:+ showNat (i + 1) +:+ "]".

(** Body of the second loop of [processHistoryForSummarization]. *)
Definition summarizeBlock (apiUrl : string) (r : HttpReply)
    (gf pf : FsFault) (i : nat) (block : Block)
    (blockSummaries : list string) (c : Cache) : list string * Cache :=
  let '(cached, c1) := getSummaryFromCache gf (hash block) c in
  match cached with
  | None =>
      match callSummarizationApi apiUrl r with
      | Some summary =>
          let '(_, c2) := saveSummaryToCache pf (hash block) summary c1 in
          (blockSummaries ++ [summary], c2)
      | None => (blockSummaries ++ [errorPlaceholder i], c1)
      end
  | Some summary => (blockSummaries ++ [summary], c1)
  end.

Fixpoint summarizeLoop (apiUrl : string) (env : Env) (i : nat)
    (rest : list Block) (blockSummaries : list string) (c : Cache)
  : list string * Cache :=
  match rest with
  | [] => (blockSummaries, c)
  | block :: rest' =>
      let '(acc', c') := summarizeBlock apiUrl (reply env i) (getFault env i)
                           (putFault env i) i block blockSummaries c in
      summarizeLoop apiUrl env (S i) rest' acc' c'
  end.

(** [processHistoryForSummarization]: returns [{ blocks, blockSummaries }]. *)
Definition processHistoryForSummarization (blockSize : nat)
    (apiUrl : string) (env : Env) (chatHistory : list Message) (c : Cache)
  : (list Block * list string) * Cache :=
  let blocks := segmentHistory blockSize chatHistory in
  let '(blockSummaries, c') := summarizeLoop apiUrl env 0 blocks [] c in
  ((blocks, blockSummaries), c').

End WithDigest.

(** *** Prompt truncation ([onPromptInput], step 4 and 5) *)

(** [(message.name ? message.name.length + 2 : 0) +
     (message.mes ? message.mes.length : 0)] *)
Definition msgChars (message : Message) : nat :=
  (if truthy (name message) then String.length (name message) + 2 else 0)
  + (if truthy (mes message) then String.length (mes message) else 0).

Definition remainingCharsForHistory (historySize : Z)
    (summaryPromptPart : string) : Z :=
  let templateChars := Z.of_nat (String.length summaryPromptPart) in
  let targetHistoryChars := (historySize * 4)%Z in
  Z.max 0 (targetHistoryChars - templateChars).

(** The backwards [for] loop; [newestFirst] are the messages still to
    visit, [chatHistory[i]] first. *)
Fixpoint truncateLoop (remaining : Z) (newestFirst : list Message)
    (truncatedHistory : list Message) (currentChars : nat)
  : list Message :=
  match newestFirst with
  | [] => truncatedHistory
  | message :: older =>
      let msgChars := msgChars message in
      if bool_decide (Z.of_nat (currentChars + msgChars) ≤ remaining)%Z
      then truncateLoop remaining older (message :: truncatedHistory)
             (currentChars + msgChars)
      else truncatedHistory
  end.

Definition truncateHistory (historySize : Z) (summaryPromptPart : string)
    (chatHistory : list Message) : list Message :=
  truncateLoop (remainingCharsForHistory historySize summaryPromptPart)
    (rev chatHistory) [] 0.

End Server.

(** The messages each host's segmentation loop puts into a block. *)
Definition keptBrowser (message : Message) : bool :=
  negb (is_system message) && truthy (mes message).

Definition keptServer (message : Message) : bool := truthy (mes message).

(** [blockDetails.map(msg => `${msg.name}: ${msg.mes}`).join('\n')], the
    text of a block as both hosts show it. *)
Definition renderBlock (blockDetails : list BlockMsg) : string :=
  String.concat (String "010" "")
    (map (fun msg => b_name msg +:+ ": " +:+ b_mes msg) blockDetails).

(** ** src/index.js: the preview panel *)
Module BrowserPanel.
Section WithDigest.

Variable digestMessage : string -> string.

(** [currentPreviewState] *)
Record PreviewState := mkPreviewState {
  blockIndex : Z;
  totalBlocks : nat;
  currentBlockHash : option string;
  allBlocks : list Block
}.

(** The elements of the panel that the preview functions write. *)
Record Panel := mkPanel {
  previewError : string;
  blockIndicator : string;
  prevBlockDisabled : bool;
  nextBlockDisabled : bool;
  blockContentPreview : string;
  summaryPreview : string;
  editStatus : string;
  saveSummaryEditDisabled : bool
}.

Definition notCachedText : string :=
  "[Summary not cached. Edit and save to create, or run summarization.]".

(** [loadPreview(blockIndex)] over the chat [context.chat.slice()]; the
    argument is called [index] here. *)
Definition loadPreview (blockSize : nat) (f : Browser.DbFault)
    (index : Z) (chat : list Message)
    (ps : PreviewState) (pn : Panel) (c : Cache)
  : Outcome unit * (PreviewState * Panel * Cache) :=
  if bool_decide (length chat = 0)
  then (Returned tt,
        (ps,
         mkPanel "No chat history available for preview."
           (blockIndicator pn) (prevBlockDisabled pn) (nextBlockDisabled pn)
           (blockContentPreview pn) (summaryPreview pn) (editStatus pn)
           (saveSummaryEditDisabled pn),
         c))
  else
    let ps1 :=
      if bool_decide (length (allBlocks ps) = 0)
      then
        let generated := Browser.generateBlocks digestMessage blockSize chat in
        mkPreviewState (blockIndex ps) (length generated)
          (currentBlockHash ps) generated
      else ps in
    let blocks := allBlocks ps1 in
    let totalBlocks := totalBlocks ps1 in
    if bool_decide (totalBlocks = 0) then (Returned tt, (ps1, pn, c))
    else
      let currentIdx := Z.max 0 (Z.min index (Z.of_nat totalBlocks - 1)) in
      let ps2 := mkPreviewState currentIdx totalBlocks (currentBlockHash ps1)
                   blocks in
      match blocks !! Z.to_nat currentIdx with
      | None => (Thrown, (ps2, pn, c))      (* [targetBlock.hash] on undefined *)
      | Some targetBlock =>
          let ps3 := mkPreviewState currentIdx totalBlocks
                       (Some (hash targetBlock)) blocks in
          let indicator :=
            "Block " +:+ showNat (Z.to_nat currentIdx + 1) +:+ " / "
            +:+ showNat totalBlocks in
          let pn1 :=
            mkPanel "" indicator
              (bool_decide (currentIdx = 0)%Z)
              (bool_decide (currentIdx = Z.of_nat totalBlocks - 1)%Z)
              (renderBlock (details targetBlock)) (summaryPreview pn)
              (editStatus pn) (saveSummaryEditDisabled pn) in
          match Browser.getSummaryFromCache f (hash targetBlock) c with
          | (Thrown, c1) => (Thrown, (ps3, pn1, c1))
          | (Returned cached, c1) =>
              let summary :=
                match cached with
                | None => notCachedText
                | Some s => s
                end in
              (Returned tt,
               (ps3,
                mkPanel (previewError pn1) (blockIndicator pn1)
                  (prevBlockDisabled pn1) (nextBlockDisabled pn1)
                  (blockContentPreview pn1) summary "" false,
                c1))
          end
      end.

(** [refreshPreview] *)
Definition refreshPreview (blockSize : nat) (f : Browser.DbFault)
    (chat : list Message) (ps : PreviewState) (pn : Panel) (c : Cache)
  : Outcome unit * (PreviewState * Panel * Cache) :=
  loadPreview blockSize f (blockIndex ps) chat
    (mkPreviewState (blockIndex ps) (totalBlocks ps) (currentBlockHash ps) [])
    pn c.

(** [saveEditedSummary]: the new text is read from the summary field. *)
Definition saveEditedSummary (f : Browser.DbFault)
    (ps : PreviewState) (pn : Panel) (c : Cache)
  : Outcome unit * (Panel * Cache) :=
  let newSummary := summaryPreview pn in
  let setStatus (s : string) :=
    mkPanel (previewError pn) (blockIndicator pn) (prevBlockDisabled pn)
      (nextBlockDisabled pn) (blockContentPreview pn) (summaryPreview pn)
      s (saveSummaryEditDisabled pn) in
  match currentBlockHash ps with
  | None => (Returned tt, (pn, c))
  | Some hash =>
      if negb (truthy hash) then (Returned tt, (pn, c))
      else
        match Browser.saveSummaryToCache f hash newSummary c with
        | (Returned _, c1) => (Returned tt, (setStatus "Saved!", c1))
        | (Thrown, c1) => (Thrown, (setStatus "Saving...", c1))
        end
  end.

End WithDigest.
End BrowserPanel.

(** ** src/script.js: prompt assembly and the message handlers *)
Module ServerHost.
Section WithDigest.

Variable md5hex : string -> string.

(** [settings.promptTemplate.replace('{{summary_content}}', text)] is the
    platform's. *)
Variable substitute : string -> string -> string.

Record Settings := mkSettings {
  apiUrl : string;
  blockSize : nat;
  summarySize : nat;
  historySize : Z;
  promptTemplate : string;
  enabled : bool
}.

(** A message of [context.chat]: the host's fields and the extension's own
    [is_summary_prompt] mark. *)
Record ContextMessage := mkContextMessage {
  cm_message : Message;
  is_summary_prompt : bool
}.

Definition notSystem (msg : ContextMessage) : bool :=
  negb (is_system (cm_message msg)).

(** The backwards loop of step 5 over the objects of [context.chat]. *)
Fixpoint truncateLoop (remaining : Z) (newestFirst : list ContextMessage)
    (truncatedHistory : list ContextMessage) (currentChars : nat)
  : list ContextMessage :=
  match newestFirst with
  | [] => truncatedHistory
  | message :: older =>
      let msgChars := Server.msgChars (cm_message message) in
      if bool_decide (Z.of_nat (currentChars + msgChars) ≤ remaining)%Z
      then truncateLoop remaining older (message :: truncatedHistory)
             (currentChars + msgChars)
      else truncatedHistory
  end.

(** [{ is_system: true, mes: summaryPromptPart, name: "System",
      is_summary_prompt: true }] *)
Definition summarySystemPrompt (summaryPromptPart : string) : ContextMessage :=
  {| cm_message := mkMessage "System" false summaryPromptPart true;
     is_summary_prompt := true |}.

(** One iteration of the loop that rebuilds the system prompts; the state
    is [finalChat] and [firstSystemPromptFound]. *)
Definition injectStep (prompt : ContextMessage)
    (st : list ContextMessage * bool) (msg : ContextMessage)
  : list ContextMessage * bool :=
  let '(finalChat, firstSystemPromptFound) := st in
  if is_system (cm_message msg) && negb (is_summary_prompt msg)
  then
    if negb firstSystemPromptFound
    then ((finalChat ++ [msg]) ++ [prompt], true)
    else (finalChat ++ [msg], firstSystemPromptFound)
  else st.

(** [onPromptInput]: the new [context.chat]. *)
Definition onPromptInput (st : Settings) (env : Server.Env)
    (chat : list ContextMessage) (c : Cache)
  : list ContextMessage * Cache :=
  if negb (enabled st) || negb (truthy (apiUrl st)) then (chat, c)
  else
    let chatHistory := filter notSystem chat in
    if bool_decide (length chatHistory = 0) then (chat, c)
    else
      let '((blocks, blockSummaries), c') :=
        Server.processHistoryForSummarization md5hex (blockSize st) (apiUrl st)
          env (map cm_message chatHistory) c in
      if bool_decide (length blockSummaries = 0) then (chat, c')
      else
        let combinedSummary :=
          String.concat (String "010" (String "010" "")) blockSummaries in
        let summaryPromptPart :=
          substitute (promptTemplate st) combinedSummary in
        let remainingCharsForHistory :=
          Server.remainingCharsForHistory (historySize st) summaryPromptPart in
        let truncatedHistory :=
          truncateLoop remainingCharsForHistory (rev chatHistory) [] 0 in
        let prompt := summarySystemPrompt summaryPromptPart in
        let '(finalChat, firstSystemPromptFound) :=
          fold_left (injectStep prompt) chat ([], false) in
        let finalChat :=
          if negb firstSystemPromptFound then prompt :: finalChat
          else finalChat in
        (finalChat ++ truncatedHistory, c').

(** *** The [get_preview] handler *)

Inductive PreviewResponse :=
| PreviewError (error : string)
| PreviewData (blockIndex : Z) (totalBlocks : nat)
    (blockContent summaryContent blockHash : string).

(** [`${n}`] for an integer. *)
Definition showZ (z : Z) : string :=
  if bool_decide (z < 0)%Z then "-" +:+ showNat (Z.abs_nat z)
  else showNat (Z.to_nat z).

Definition notCachedText : string := "[Summary not yet cached or generated]".

(** [dataBlockIndex] is [data.blockIndex], [None] when it is absent. The
    handler's [try] turns an exception into the last error. *)
Definition getPreview (st : Settings) (env : Server.Env) (gf : Server.FsFault)
    (dataBlockIndex : option Z) (chat : list Message) (c : Cache)
  : PreviewResponse * Cache :=
  let chatHistory := filter (fun msg => negb (is_system msg)) chat in
  if bool_decide (length chatHistory = 0)
  then (PreviewError "No history to process.", c)
  else
    let '((blocks, _), c1) :=
      Server.processHistoryForSummarization md5hex (blockSize st) (apiUrl st)
        env chatHistory c in
    if bool_decide (length blocks = 0)
    then (PreviewError "Could not split history into blocks.", c1)
    else
      let blockIndex :=
        match dataBlockIndex with
        | Some z => if bool_decide (z = 0)%Z then 0%Z else z
        | None => 0%Z
        end in
      if bool_decide (blockIndex < 0)%Z
         || bool_decide (Z.of_nat (length blocks) ≤ blockIndex)%Z
      then (PreviewError
              ("Invalid block index " +:+ showZ blockIndex
               +:+ ". Max index is " +:+ showNat (length blocks - 1) +:+ "."),
            c1)
      else
        match blocks !! Z.to_nat blockIndex with
        | None => (PreviewError "Internal server error generating preview.", c1)
        | Some targetBlock =>
            let '(cached, c2) :=
              Server.getSummaryFromCache gf (hash targetBlock) c1 in
            let summary :=
              match cached with
              | None => notCachedText
              | Some s => s
              end in
            (PreviewData blockIndex (length blocks)
               (renderBlock (details targetBlock)) summary
               (hash targetBlock),
             c2)
        end.

(** *** The [update_summary] handler *)

Inductive UpdateResponse :=
| UpdateOk
| UpdateFailed (error : string).

(** [blockHash] and [newSummary] are the fields of [data]; [None] stands
    for an absent hash, and for a [newSummary] that is not a string. *)
Definition updateSummary (f : Server.FsFault) (blockHash : option string)
    (newSummary : option string) (c : Cache) : UpdateResponse * Cache :=
  match blockHash, newSummary with
  | Some h, Some s =>
      if truthy h
      then (UpdateOk, (Server.saveSummaryToCache f h s c).2)
      else (UpdateFailed "Invalid data for summary update.", c)
  | _, _ => (UpdateFailed "Invalid data for summary update.", c)
  end.

(** *** The [clear_cache] handler *)



End WithDigest.
End ServerHost.

(** ** Statements used by the theorems *)

(** A block respects the budget, or is a single over-budget message. *)
Definition withinBudget (blockSize : nat) (d : list BlockMsg) : Prop :=
  sumLengths d ≤ blockSize
  ∨ ∃ msg, d = [msg] ∧ blockSize < String.length (b_mes msg).

(** The closing rule of the specification's segmenter. *)
Definition closingRule (blockSize : nat) (st : SegState) (message : Message)
  : bool :=
  bool_decide (0 < length (currentBlock st))
  && bool_decide (blockSize < currentBlockLength st + messageLength message).

(** What holds of the segmentation locals after the messages [seen]. *)
Record SegInv (kept : Message -> bool) (blockSize : nat) (st : SegState)
    (seen : list Message) : Prop := mkSegInv {
  inv_length : currentBlockLength st = sumLengths (currentBlock st);
  inv_current : withinBudget blockSize (currentBlock st);
  inv_blocks :
    Forall (fun b => details b ≠ [] ∧ withinBudget blockSize (details b))
           (blocks st);
  inv_concat :
    concat (map details (blocks st)) ++ currentBlock st
    = map toBlockMsg (filter kept seen)
}.

(** The closing rule as the specification words it, for the loop body
    [segStep] of a host: a message that is added closes the current block
    exactly when the rule fires, and then opens the next block. *)
Definition closesOnlyByRule
    (segStep : nat -> SegState -> Message -> SegState) : Prop :=
  ∀ blockSize st message,
    is_system message = false -> truthy (mes message) = true ->
    let st' := segStep blockSize st message in
    (blocks st' ≠ blocks st ↔ closingRule blockSize st message = true)
    ∧ (closingRule blockSize st message = true ->
       currentBlock st' = [toBlockMsg message]).

(** The claim that put reports a failed durable write: its result then
    differs from the result of a put whose durable write succeeded. *)
Definition browserPutReportsFailure : Prop :=
  ∀ f hash summary c,
    f ≠ Browser.DbOk ->
    (Browser.saveSummaryToCache f hash summary c).1
    ≠ (Browser.saveSummaryToCache Browser.DbOk hash summary c).1.

Definition serverPutReportsFailure : Prop :=
  ∀ hash summary c,
    (Server.saveSummaryToCache Server.FsFails hash summary c).1
    ≠ (Server.saveSummaryToCache Server.FsOk hash summary c).1.

(** No IndexedDB request of the run fires [onerror]. *)
Definition noRequestFaults (env : Browser.Env) : Prop :=
  ∀ i, Browser.getFault env i ≠ Browser.DbRequestFails
       ∧ Browser.putFault env i ≠ Browser.DbRequestFails.

(** The cache the browser loop sees when it reaches block [i]. *)
Definition browserCacheAt (apiUrl : string) (env : Browser.Env)
    (blocks : list Block) (c : Cache) (i : nat) : Cache :=
  (Browser.summarizeLoop apiUrl env 0 (take i blocks) sumInit c).2.

Definition serverCacheAt (apiUrl : string) (env : Server.Env)
    (blocks : list Block) (c : Cache) (i : nat) : Cache :=
  (Server.summarizeLoop apiUrl env 0 (take i blocks) [] c).2.

(** The lookup of block [i] is a miss. *)
Definition browserMiss (gf : Browser.DbFault) (block : Block) (c : Cache)
  : Prop :=
  (Browser.getSummaryFromCache gf (hash block) c).1 = Returned None.

Definition serverMiss (gf : Server.FsFault) (block : Block) (c : Cache)
  : Prop :=
  (Server.getSummaryFromCache gf (hash block) c).1 = None.

(** The endpoint-level failures of a client call: no endpoint configured,
    network failure, error status, or a body without a usable summary. *)
Definition clientFails (apiUrl : string) (r : HttpReply) : Prop :=
  truthy apiUrl = false
  ∨ r = FetchFails
  ∨ (∃ status, r = NotOk status)
  ∨ r = OkBody None
  ∨ r = OkBody (Some "").

Definition isFailedPlaceholder (s : string) : Prop :=
  ∃ n, s = "[Summary generation failed for block " +:+ showNat n +:+ "]".

(** The claim that every failed client call of an uncached block leaves
    the placeholder "[Summary generation failed for block i]". *)
Definition browserPlaceholderClaim : Prop :=
  ∀ apiUrl env blocks c i block,
    noRequestFaults env ->
    blocks !! i = Some block ->
    browserMiss (Browser.getFault env i) block
      (browserCacheAt apiUrl env blocks c i) ->
    clientFails apiUrl (Browser.reply env i) ->
    ∃ res c' s,
      Browser.summarizeAllBlocks apiUrl env blocks c = (Returned res, c')
      ∧ blockSummaries res !! i = Some s
      ∧ isFailedPlaceholder s
      ∧ hasError res = true.

Definition serverPlaceholderClaim : Prop :=
  ∀ apiUrl env blocks c i block,
    blocks !! i = Some block ->
    serverMiss (Server.getFault env i) block
      (serverCacheAt apiUrl env blocks c i) ->
    clientFails apiUrl (Server.reply env i) ->
    ∃ s, (Server.summarizeLoop apiUrl env 0 blocks [] c).1 !! i = Some s
         ∧ isFailedPlaceholder s.

(** Neither layer of the cache holds an empty summary. *)
Definition noEmptyEntry (c : Cache) : Prop :=
  ∀ h, blockCache c !! h ≠ Some "" ∧ durable c !! h ≠ Some "".

(** The per-message cost in the specification's words:
    len(name) + 2 + len(text). *)
Definition msgCharsSpec (message : Message) : nat :=
  String.length (name message) + 2 + String.length (mes message).

(** The truncation in the specification's words: walk from the most
    recent message to the oldest, keep a message while the running total
    of [msgCharsSpec] stays within the budget, stop at the first that
    would overflow. *)
Fixpoint truncateLoopSpec (remainingBudget : Z) (newestFirst : list Message)
    (kept : list Message) (total : nat) : list Message :=
  match newestFirst with
  | [] => kept
  | message :: older =>
      if bool_decide (Z.of_nat (total + msgCharsSpec message) ≤ remainingBudget)%Z
      then truncateLoopSpec remainingBudget older (message :: kept)
             (total + msgCharsSpec message)
      else kept
  end.

Definition truncateSpec (historyBudgetChars : Z) (templateResult : string)
    (recentMessages : list Message) : list Message :=
  truncateLoopSpec
    (Z.max 0 (historyBudgetChars * 4 - Z.of_nat (String.length templateResult)))
    (rev recentMessages) [] 0.

Definition totalChars (l : list Message) : nat :=
  list_sum (map Server.msgChars l).

(** The flag is set, and the "Summarize Now" button disabled, exactly
    while one pass is in flight, and there is never more than one. *)
Definition singlePass (w : Browser.World) : Prop :=
  (Browser.inApiCall (Browser.globals w) = false
   ∧ Browser.forceUpdateDisabled (Browser.globals w) = false
   ∧ Browser.inFlight w = [])
  ∨ (Browser.inApiCall (Browser.globals w) = true
     ∧ Browser.forceUpdateDisabled (Browser.globals w) = true
     ∧ ∃ p, Browser.inFlight w = [p]).

(** How the server loop over the whole history ([full]) relates to the
    loop over the history without its empty messages ([lean]): the same
    locals, or [full] has already finalized a block that [lean] is bound
    to finalize at its next message. *)
Definition serverAhead (md5hex : string -> string) (blockSize : nat)
    (full lean : SegState) : Prop :=
  full = lean
  ∨ (currentBlock full = [] ∧ currentBlockLength full = 0
     ∧ blocks full = Server.closeBlock md5hex lean
     ∧ 0 < length (currentBlock lean)
     ∧ (blockSize < currentBlockLength lean
        ∨ 100 < length (currentBlock lean))).

(** The preview state shows block [b]: the index is in range, the stored
    hash is that block's, and the stored count is the number of blocks. *)
Definition showing (ps : BrowserPanel.PreviewState) (b : Block) : Prop :=
  BrowserPanel.totalBlocks ps = length (BrowserPanel.allBlocks ps)
  ∧ (0 ≤ BrowserPanel.blockIndex ps)%Z
  ∧ BrowserPanel.allBlocks ps !! Z.to_nat (BrowserPanel.blockIndex ps) = Some b
  ∧ BrowserPanel.currentBlockHash ps = Some (hash b).

(** The system prompts of the host, as opposed to a summary prompt that an
    earlier call injected. *)
Definition originalSystemPrompt (msg : ServerHost.ContextMessage) : bool :=
  is_system (ServerHost.cm_message msg)
  && negb (ServerHost.is_summary_prompt msg).

Definition injectedSummaryPrompt (msg : ServerHost.ContextMessage) : bool :=
  is_system (ServerHost.cm_message msg) && ServerHost.is_summary_prompt msg.

(** The system part of the new chat: the summary prompt right after the
    first original system prompt, or in front when there is none. *)
Definition withSummaryPrompt (prompt : ServerHost.ContextMessage)
    (originals : list ServerHost.ContextMessage)
  : list ServerHost.ContextMessage :=
  match originals with
  | [] => [prompt]
  | first :: rest => first :: prompt :: rest
  end.

(** * Theorems *)

(** ** Lists and loops *)

Lemma fold_left_invariant {A S : Type} (f : S -> A -> S)
    (Inv : S -> list A -> Prop) :
  (∀ st seen x, Inv st seen -> Inv (f st x) (seen ++ [x])) ->
  ∀ l st seen, Inv st seen -> Inv (fold_left f l st) (seen ++ l).
Proof.
  intros Hstep l. induction l as [|x l IH]; intros st seen Hinv; simpl.
  - by rewrite app_nil_r.
  - replace (seen ++ x :: l) with ((seen ++ [x]) ++ l)
      by (by rewrite <- app_assoc).
    apply IH, Hstep, Hinv.
Qed.

Lemma sumLengths_app d1 d2 :
  sumLengths (d1 ++ d2) = sumLengths d1 + sumLengths d2.
Proof. unfold sumLengths. by rewrite map_app, list_sum_app. Qed.

Lemma sumLengths_single msg : sumLengths [msg] = String.length (b_mes msg).
Proof. unfold sumLengths. simpl. lia. Qed.

Lemma truthy_length s : truthy s = true ↔ 0 < String.length s.
Proof. destruct s; simpl; split; (done || lia). Qed.

Lemma messageLength_eq message :
  messageLength message = String.length (mes message).
Proof. unfold messageLength. by destruct (mes message). Qed.

Lemma messageLength_pos message :
  0 < messageLength message ↔ truthy (mes message) = true.
Proof. rewrite messageLength_eq. symmetry. apply truthy_length. Qed.

Lemma withinBudget_single blockSize msg : withinBudget blockSize [msg].
Proof.
  unfold withinBudget. rewrite sumLengths_single.
  destruct (decide (String.length (b_mes msg) ≤ blockSize)); [by left|].
  right. exists msg. split; [done|lia].
Qed.

Lemma withinBudget_nil blockSize : withinBudget blockSize [].
Proof. left. unfold sumLengths. simpl. lia. Qed.

Lemma concat_details_snoc (bs : list Block) (b : Block) :
  concat (map details (bs ++ [b])) = concat (map details bs) ++ details b.
Proof. rewrite map_app, concat_app. simpl. by rewrite app_nil_r. Qed.

Lemma filter_snoc {A} (P : A -> bool) (l : list A) (x : A) :
  filter P (l ++ [x]) = filter P l ++ (if P x then [x] else []).
Proof.
  rewrite filter_app. f_equal.
  destruct (P x) eqn:E.
  - rewrite filter_cons_True; [done | rewrite E; exact I].
  - rewrite filter_cons_False; [done | rewrite E; exact id].
Qed.

(** ** Segmentation *)

Lemma browser_segStep_inv digest blockSize st seen message :
  SegInv keptBrowser blockSize st seen ->
  SegInv keptBrowser blockSize (Browser.segStep digest blockSize st message)
         (seen ++ [message]).
Proof.
  intros [Hlen Hcur Hbl Hcat].
  assert (Hskip : keptBrowser message = false ->
                  SegInv keptBrowser blockSize st (seen ++ [message])).
  { intros Hk. split; try done.
    by rewrite filter_snoc, Hk, app_nil_r. }
  unfold Browser.segStep.
  destruct (is_system message) eqn:Esys.
  { apply Hskip. unfold keptBrowser. by rewrite Esys. }
  case_bool_decide as Hzero.
  { apply Hskip. unfold keptBrowser.
    destruct (truthy (mes message)) eqn:E; [|by rewrite andb_false_r].
    apply messageLength_pos in E. lia. }
  assert (Hkept : keptBrowser message = true).
  { unfold keptBrowser. rewrite Esys. simpl. apply messageLength_pos. lia. }
  destruct (bool_decide (0 < length (currentBlock st))) eqn:Enon;
    destruct (bool_decide (blockSize < currentBlockLength st + messageLength message))
      eqn:Eover; simpl.
  2-4: split; simpl;
    [ rewrite sumLengths_app, sumLengths_single, Hlen, messageLength_eq; done
    | | done
    | by rewrite filter_snoc, Hkept, map_app, app_assoc, Hcat ].
  - (* close the current block, start a new one *)
    apply bool_decide_eq_true in Enon.
    split; simpl.
    + by rewrite sumLengths_single, messageLength_eq.
    + apply withinBudget_single.
    + unfold Browser.closeBlock. apply Forall_app. split; [done|].
      constructor; [|constructor]. simpl. split; [|done].
      intros E. rewrite E in Enon. simpl in Enon. lia.
    + unfold Browser.closeBlock.
      rewrite concat_details_snoc. simpl.
      by rewrite Hcat, filter_snoc, Hkept, map_app.
  - (* append within budget *)
    apply bool_decide_eq_false in Eover.
    left. rewrite sumLengths_app, sumLengths_single, <- Hlen.
    rewrite messageLength_eq in Eover. simpl. lia.
  - (* first message of an empty block *)
    apply bool_decide_eq_false in Enon.
    destruct (currentBlock st); [|simpl in Enon; lia].
    apply withinBudget_single.
  - apply bool_decide_eq_false in Enon.
    destruct (currentBlock st); [|simpl in Enon; lia].
    apply withinBudget_single.
Qed.

Lemma server_segStep_inv md5hex blockSize st seen message :
  SegInv keptServer blockSize st seen ->
  SegInv keptServer blockSize (Server.segStep md5hex blockSize st message)
         (seen ++ [message]).
Proof.
  intros [Hlen Hcur Hbl Hcat].
  unfold Server.segStep.
  destruct (Server.mustClose blockSize st (messageLength message)) eqn:Eclose.
  - (* the current block is finalized first *)
    unfold Server.mustClose in Eclose.
    apply andb_true_iff in Eclose as [Enon _].
    apply bool_decide_eq_true in Enon.
    assert (Hbl' : Forall (fun b => details b ≠ []
                            ∧ withinBudget blockSize (details b))
                     (Server.closeBlock md5hex st)).
    { unfold Server.closeBlock. apply Forall_app. split; [done|].
      constructor; [|constructor]. simpl. split; [|done].
      intros E. rewrite E in Enon. simpl in Enon. lia. }
    assert (Hcat' : concat (map details (Server.closeBlock md5hex st))
                    = map toBlockMsg (filter keptServer seen)).
    { unfold Server.closeBlock. rewrite concat_details_snoc. simpl. done. }
    case_bool_decide as Hpos; split; simpl; try done.
    + by rewrite sumLengths_single, messageLength_eq.
    + apply withinBudget_single.
    + assert (Hk : keptServer message = true).
      { unfold keptServer. by apply messageLength_pos. }
      by rewrite Hcat', filter_snoc, map_app, Hk.
    + apply withinBudget_nil.
    + assert (Hk : keptServer message = false).
      { unfold keptServer. destruct (truthy (mes message)) eqn:E; [|done].
        apply messageLength_pos in E. lia. }
      by rewrite Hcat', filter_snoc, map_app, Hk.
  - case_bool_decide as Hpos.
    + (* the message joins the current block *)
      assert (Hk : keptServer message = true).
      { unfold keptServer. by apply messageLength_pos. }
      split; simpl; try done.
      * by rewrite sumLengths_app, sumLengths_single, Hlen, messageLength_eq.
      * unfold Server.mustClose in Eclose.
        destruct (currentBlock st) as [|m0 cur] eqn:Ecur.
        { apply withinBudget_single. }
        apply andb_false_iff in Eclose as [E|E].
        { apply bool_decide_eq_false in E. simpl in E. lia. }
        apply orb_false_iff in E as [E _].
        apply bool_decide_eq_false in E.
        left. rewrite sumLengths_app, sumLengths_single, <- Hlen.
        rewrite messageLength_eq in E. simpl. lia.
      * by rewrite filter_snoc, Hk, map_app, app_assoc, Hcat.
    + (* an empty message leaves the locals alone *)
      assert (Hk : keptServer message = false).
      { unfold keptServer. destruct (truthy (mes message)) eqn:E; [|done].
        apply messageLength_pos in E. lia. }
      split; try done.
      by rewrite filter_snoc, Hk, app_nil_r.
Qed.

Lemma segInit_inv kept blockSize : SegInv kept blockSize segInit [].
Proof.
  split; simpl; try done. apply withinBudget_nil.
Qed.

(** What the invariant gives for the emitted block list. *)
Lemma emitted_blocks_ok kept blockSize st seen (close : SegState -> list Block) :
  (∀ st, ∃ h, close st = blocks st ++ [ {| hash := h; details := currentBlock st |} ]) ->
  SegInv kept blockSize st seen ->
  let out := if bool_decide (0 < length (currentBlock st))
             then close st else blocks st in
  Forall (fun b => withinBudget blockSize (details b)) out
  ∧ Forall (fun b => details b ≠ []) out
  ∧ concat (map details out) = map toBlockMsg (filter kept seen).
Proof.
  intros Hclose [Hlen Hcur Hbl Hcat]. simpl.
  case_bool_decide as Hnon.
  - destruct (Hclose st) as [h ->].
    repeat split.
    + apply Forall_app. split.
      * eapply Forall_impl; [exact Hbl|]. by intros b [_ ?].
      * by constructor.
    + apply Forall_app. split.
      * eapply Forall_impl; [exact Hbl|]. by intros b [? _].
      * constructor; [|constructor]. simpl.
        intros E. rewrite E in Hnon. simpl in Hnon. lia.
    + by rewrite concat_details_snoc.
  - assert (currentBlock st = []) as E.
    { destruct (currentBlock st); [done|]. simpl in Hnon. lia. }
    rewrite E, app_nil_r in Hcat.
    repeat split; try done.
    + eapply Forall_impl; [exact Hbl|]. by intros b [_ ?].
    + eapply Forall_impl; [exact Hbl|]. by intros b [? _].
Qed.

(** C2. For every message list and every positive block size, in both
    hosts: every produced block has summed text length at most the block
    size unless it consists of one message that alone exceeds it; no
    produced block is empty; and the blocks' messages, concatenated in
    output order, are the input with the empty-text messages (and, in the
    browser host, the system messages) removed. *)
Theorem segmentation_budget_and_coverage
    (digestMessage md5hex : string -> string) (blockSize : nat)
    (chatHistory : list Message) :
  0 < blockSize ->
  (let out := Browser.generateBlocks digestMessage blockSize chatHistory in
   Forall (fun b => withinBudget blockSize (details b)) out
   ∧ Forall (fun b => details b ≠ []) out
   ∧ concat (map details out)
     = map toBlockMsg (filter keptBrowser chatHistory))
  ∧
  (let out := Server.segmentHistory md5hex blockSize chatHistory in
   Forall (fun b => withinBudget blockSize (details b)) out
   ∧ Forall (fun b => details b ≠ []) out
   ∧ concat (map details out)
     = map toBlockMsg (filter keptServer chatHistory)).
Proof.
  intros _. split.
  - apply (emitted_blocks_ok keptBrowser blockSize _ chatHistory
             (Browser.closeBlock digestMessage)).
    + intros st. by eexists.
    + apply (fold_left_invariant (Browser.segStep digestMessage blockSize)
               (SegInv keptBrowser blockSize)
               (fun st seen x => browser_segStep_inv digestMessage blockSize st seen x)
               chatHistory segInit []).
      apply segInit_inv.
  - apply (emitted_blocks_ok keptServer blockSize _ chatHistory
             (Server.closeBlock md5hex)).
    + intros st. by eexists.
    + apply (fold_left_invariant (Server.segStep md5hex blockSize)
               (SegInv keptServer blockSize)
               (fun st seen x => server_segStep_inv md5hex blockSize st seen x)
               chatHistory segInit []).
      apply segInit_inv.
Qed.

Lemma segmentation_budget_and_coverage_witness :
  0 < 5
  ∧ (let chatHistory :=
       [ mkMessage "U" true "hi" false; mkMessage "A" false "hello" false;
         mkMessage "sys" false "note" true; mkMessage "U" true "xxxxxxxx" false ] in
     let out := Browser.generateBlocks (fun s => s) 5 chatHistory in
     Forall (fun b => withinBudget 5 (details b)) out
     ∧ Forall (fun b => details b ≠ []) out
     ∧ concat (map details out)
       = map toBlockMsg (filter keptBrowser chatHistory)).
Proof.
  split; [lia|].
  apply (segmentation_budget_and_coverage (fun s => s) (fun s => s) 5); lia.
Defined.

(** The end-to-end example of the specification, scaled down: with a block
    size of 10, "hi" and "hello" share a block and the 15-character
    message stays alone in the next one. *)
Example generateBlocks_example :
  map details
    (Browser.generateBlocks (fun s => s) 10
       [ mkMessage "U" true "hi" false; mkMessage "A" false "hello" false;
         mkMessage "U" true "xxxxxxxxxxxxxxx" false ])
  = [ [ mkBlockMsg "U" true "hi"; mkBlockMsg "A" false "hello" ];
      [ mkBlockMsg "U" true "xxxxxxxxxxxxxxx" ] ].
Proof. reflexivity. Qed.

(** *** The closing rule *)

Lemma closeBlock_changes_browser digest st :
  Browser.closeBlock digest st ≠ blocks st.
Proof.
  unfold Browser.closeBlock. intros E.
  apply (f_equal (@length Block)) in E. rewrite length_app in E. simpl in E. lia.
Qed.

Lemma closeBlock_changes_server md5hex st :
  Server.closeBlock md5hex st ≠ blocks st.
Proof.
  unfold Server.closeBlock. intros E.
  apply (f_equal (@length Block)) in E. rewrite length_app in E. simpl in E. lia.
Qed.

(** One hundred and one one-character messages, then a 102nd: the server
    host closes the block although 101 + 1 is far below the block size. *)
Example server_cap_closes :
  let message := mkMessage "A" false "a" false in
  let st := fold_left (Server.segStep (fun s => s) 1000)
              (repeat message 101) segInit in
  blocks st = []
  ∧ closingRule 1000 st message = false
  ∧ length (blocks (Server.segStep (fun s => s) 1000 st message)) = 1.
Proof. vm_compute. done. Qed.

Lemma server_not_closesOnlyByRule :
  ¬ closesOnlyByRule (Server.segStep (fun s => s)).
Proof.
  intros H.
  pose (message := mkMessage "A" false "a" false).
  destruct server_cap_closes as (Hb & Hrule & Hlen).
  destruct (H 1000 (fold_left (Server.segStep (fun s => s) 1000)
                      (repeat message 101) segInit) message eq_refl eq_refl)
    as [[Hclose _] _].
  fold message in Hrule, Hlen, Hb.
  rewrite Hrule in Hclose. discriminate Hclose.
  intros E. rewrite E, Hb in Hlen. discriminate Hlen.
Qed.

(** C5 (amended). For a message that is added (not a system message, text
    not empty): the browser host closes the current block exactly when the
    block is non-empty and currentLength + newMessageLength exceeds the
    block size; the server host closes it exactly when that rule fires or
    the block already holds more than 100 messages. In both hosts a closing
    emits the current block with its hash and starts a new block holding
    the pending message, and otherwise the message joins the current
    block. *)
Theorem closing_rule_per_host
    (digestMessage md5hex : string -> string) (blockSize : nat)
    (st : SegState) (message : Message) :
  is_system message = false ->
  truthy (mes message) = true ->
  (let st' := Browser.segStep digestMessage blockSize st message in
   (blocks st' ≠ blocks st ↔ closingRule blockSize st message = true)
   ∧ (closingRule blockSize st message = true ->
      blocks st' = Browser.closeBlock digestMessage st
      ∧ currentBlock st' = [toBlockMsg message])
   ∧ (closingRule blockSize st message = false ->
      blocks st' = blocks st
      ∧ currentBlock st' = currentBlock st ++ [toBlockMsg message]))
  ∧
  (let st' := Server.segStep md5hex blockSize st message in
   let fires := closingRule blockSize st message = true
                ∨ 100 < length (currentBlock st) in
   (blocks st' ≠ blocks st ↔ fires)
   ∧ (fires ->
      blocks st' = Server.closeBlock md5hex st
      ∧ currentBlock st' = [toBlockMsg message])
   ∧ (¬ fires ->
      blocks st' = blocks st
      ∧ currentBlock st' = currentBlock st ++ [toBlockMsg message])).
Proof.
  intros Hsys Htxt.
  assert (Hpos : 0 < messageLength message) by by apply messageLength_pos.
  split.
  - unfold Browser.segStep. rewrite Hsys.
    rewrite bool_decide_eq_false_2 by lia.
    fold (closingRule blockSize st message).
    destruct (closingRule blockSize st message) eqn:Erule; simpl.
    + repeat split; first [done | by intros _; apply closeBlock_changes_browser].
    + repeat split; first [done | by intros E; destruct E].
  - unfold Server.segStep.
    rewrite (bool_decide_eq_true_2 (0 < messageLength message)) by done.
    assert (Hm : Server.mustClose blockSize st (messageLength message) = true
                 ↔ closingRule blockSize st message = true
                   ∨ 100 < length (currentBlock st)).
    { unfold Server.mustClose, closingRule.
      rewrite !andb_true_iff, orb_true_iff, !bool_decide_eq_true. lia. }
    destruct (Server.mustClose blockSize st (messageLength message)) eqn:Eclose;
      simpl.
    + assert (closingRule blockSize st message = true
              ∨ 100 < length (currentBlock st)) as Hf by by apply Hm.
      repeat split; first [done | by intros _; apply closeBlock_changes_server].
    + assert (¬ (closingRule blockSize st message = true
                 ∨ 100 < length (currentBlock st))) as Hf.
      { intros Hf. apply Hm in Hf. discriminate Hf. }
      repeat split; first [done | by intros E; destruct E].
Qed.

Lemma closing_rule_per_host_witness :
  let message := mkMessage "A" false "hello" false in
  let st := {| blocks := []; currentBlock := [mkBlockMsg "U" true "hi"];
               currentBlockLength := 2 |} in
  is_system message = false
  ∧ truthy (mes message) = true
  ∧ currentBlock (Browser.segStep (fun s => s) 5 st message)
    = [toBlockMsg message]
  ∧ currentBlock (Server.segStep (fun s => s) 5 st message)
    = [toBlockMsg message].
Proof.
  intros message st.
  pose proof (closing_rule_per_host (fun s => s) (fun s => s) 5 st message
                eq_refl eq_refl) as [(_ & Hb & _) (_ & Hs & _)].
  split; [reflexivity|]. split; [reflexivity|]. split.
  - apply Hb. reflexivity.
  - apply Hs. left. reflexivity.
Defined.

(** ** Block hashing *)

Lemma contentString_fingerprint b1 b2 :
  fingerprint b1 = fingerprint b2 -> contentString b1 = contentString b2.
Proof.
  unfold contentString, fingerprint. intros Hfp. f_equal.
  revert b2 Hfp. induction b1 as [|m1 b1 IH]; intros [|m2 b2] Hfp;
    simpl in *; try done.
  injection Hfp as Hu Ht Hrest.
  f_equal; [|by apply IH].
  unfold encodeMsg. by rewrite Hu, Ht.
Qed.

(** C3. In both hosts the block hash is a function of the ordered
    (is_user, text) pairs only: two blocks that agree pairwise on role and
    text have the same hash whatever their speaker names, and the hash of a
    block is the same at every call. *)
Theorem hash_function_of_role_and_text
    (digestMessage md5hex : string -> string) (b1 b2 : list BlockMsg) :
  fingerprint b1 = fingerprint b2 ->
  Browser.getBlockHash digestMessage b1 = Browser.getBlockHash digestMessage b2
  ∧ Server.getBlockHash md5hex b1 = Server.getBlockHash md5hex b2.
Proof.
  intros Hfp. unfold Browser.getBlockHash, Server.getBlockHash.
  by rewrite (contentString_fingerprint b1 b2 Hfp).
Qed.

Lemma hash_function_of_role_and_text_witness :
  let b1 := [mkBlockMsg "Alice" true "hi"; mkBlockMsg "Bot" false "hello"] in
  let b2 := [mkBlockMsg "Bob" true "hi"; mkBlockMsg "Carol" false "hello"] in
  b1 ≠ b2
  ∧ fingerprint b1 = fingerprint b2
  ∧ Browser.getBlockHash (fun s => s) b1 = Browser.getBlockHash (fun s => s) b2
  ∧ Server.getBlockHash (fun s => s) b1 = Server.getBlockHash (fun s => s) b2.
Proof.
  intros b1 b2. split; [discriminate|]. split; [reflexivity|].
  apply (hash_function_of_role_and_text (fun s => s) (fun s => s) b1 b2).
  reflexivity.
Defined.

(** ** The summary cache *)

Lemma browser_put_sets_memory f hash summary c :
  blockCache (Browser.saveSummaryToCache f hash summary c).2 !! hash
  = Some summary.
Proof.
  unfold Browser.saveSummaryToCache, setMem.
  destruct f; simpl; apply lookup_insert_eq.
Qed.

Lemma server_put_sets_memory f hash summary c :
  blockCache (Server.saveSummaryToCache f hash summary c).2 !! hash
  = Some summary.
Proof.
  unfold Server.saveSummaryToCache, setMem.
  destruct f; simpl; apply lookup_insert_eq.
Qed.

Lemma browser_get_memory_hit f hash summary c :
  blockCache c !! hash = Some summary ->
  Browser.getSummaryFromCache f hash c = (Returned (Some summary), c).
Proof. intros H. unfold Browser.getSummaryFromCache. by rewrite H. Qed.

Lemma server_get_memory_hit f hash summary c :
  blockCache c !! hash = Some summary ->
  Server.getSummaryFromCache f hash c = (Some summary, c).
Proof. intros H. unfold Server.getSummaryFromCache. by rewrite H. Qed.

(** C9. The pre-hash encoding is not injective: the block holding the one
    user message "a|U:b" and the block holding the two user messages "a"
    and "b" are different blocks with different role/text sequences, yet
    they have the same content string; so every digest gives them the same
    hash in both hosts, and a summary saved for one is what the cache
    returns for the other. *)
Theorem encoding_not_injective :
  let b1 := [mkBlockMsg "U" true "a|U:b"] in
  let b2 := [mkBlockMsg "U" true "a"; mkBlockMsg "U" true "b"] in
  b1 ≠ b2
  ∧ fingerprint b1 ≠ fingerprint b2
  ∧ contentString b1 = contentString b2
  ∧ (∀ digestMessage : string -> string,
       Browser.getBlockHash digestMessage b1
       = Browser.getBlockHash digestMessage b2)
  ∧ (∀ md5hex : string -> string,
       Server.getBlockHash md5hex b1 = Server.getBlockHash md5hex b2)
  ∧ (∀ digestMessage fp fg summary c,
       (Browser.getSummaryFromCache fg (Browser.getBlockHash digestMessage b2)
          (Browser.saveSummaryToCache fp
             (Browser.getBlockHash digestMessage b1) summary c).2).1
       = Returned (Some summary))
  ∧ (∀ md5hex fp fg summary c,
       (Server.getSummaryFromCache fg (Server.getBlockHash md5hex b2)
          (Server.saveSummaryToCache fp
             (Server.getBlockHash md5hex b1) summary c).2).1
       = Some summary).
Proof.
  intros b1 b2.
  assert (Hcs : contentString b1 = contentString b2) by reflexivity.
  split; [discriminate|]. split; [discriminate|]. split; [exact Hcs|].
  split; [|split; [|split]].
  - intros d. unfold Browser.getBlockHash. by rewrite Hcs.
  - intros d. unfold Server.getBlockHash. by rewrite Hcs.
  - intros d fp fg summary c. unfold Browser.getBlockHash. rewrite Hcs.
    by rewrite (browser_get_memory_hit fg _ summary _
                  (browser_put_sets_memory fp _ summary c)).
  - intros d fp fg summary c. unfold Server.getBlockHash. rewrite Hcs.
    by rewrite (server_get_memory_hit fg _ summary _
                  (server_put_sets_memory fp _ summary c)).
Qed.

(** C4. In both hosts, for every hash and summary (in particular every
    non-empty one): a get after a put returns the summary, whatever the
    durable layer did; get answers from the in-memory layer when it holds
    the hash, leaving the cache as it was; on an in-memory miss it reads
    the durable store, and a durable hit is copied into the in-memory layer
    before it is returned, so the entry is in memory afterwards; a miss in
    both layers is absent. *)
Theorem cache_put_get_layers (c : Cache) (hash summary : string) :
  (∀ fp fg,
     let c' := (Browser.saveSummaryToCache fp hash summary c).2 in
     Browser.getSummaryFromCache fg hash c' = (Returned (Some summary), c'))
  ∧ (∀ fp fg,
     let c' := (Server.saveSummaryToCache fp hash summary c).2 in
     Server.getSummaryFromCache fg hash c' = (Some summary, c'))
  ∧ (blockCache c !! hash = Some summary ->
     ∀ fb fs,
       Browser.getSummaryFromCache fb hash c = (Returned (Some summary), c)
       ∧ Server.getSummaryFromCache fs hash c = (Some summary, c))
  ∧ (blockCache c !! hash = None -> durable c !! hash = Some summary ->
     Browser.getSummaryFromCache Browser.DbOk hash c
     = (Returned (Some summary), setMem hash summary c)
     ∧ Server.getSummaryFromCache Server.FsOk hash c
       = (Some summary, setMem hash summary c)
     ∧ blockCache (setMem hash summary c) !! hash = Some summary
     ∧ durable (setMem hash summary c) = durable c)
  ∧ (blockCache c !! hash = None -> durable c !! hash = None ->
     Browser.getSummaryFromCache Browser.DbOk hash c = (Returned None, c)
     ∧ Server.getSummaryFromCache Server.FsOk hash c = (None, c)).
Proof.
  split; [|split; [|split; [|split]]].
  - intros fp fg c'. apply browser_get_memory_hit, browser_put_sets_memory.
  - intros fp fg c'. apply server_get_memory_hit, server_put_sets_memory.
  - intros Hmem fb fs. split.
    + by apply browser_get_memory_hit.
    + by apply server_get_memory_hit.
  - intros Hmem Hdb.
    unfold Browser.getSummaryFromCache, Server.getSummaryFromCache.
    rewrite Hmem. simpl. rewrite Hdb.
    repeat split. unfold setMem. simpl. apply lookup_insert_eq.
  - intros Hmem Hdb.
    unfold Browser.getSummaryFromCache, Server.getSummaryFromCache.
    rewrite Hmem. simpl. by rewrite Hdb.
Qed.

Lemma cache_put_get_layers_witness :
  let c := {| blockCache := ∅; durable := {[ "h1" := "old summary" ]} |} in
  blockCache c !! "h1" = None
  ∧ durable c !! "h1" = Some "old summary"
  ∧ Browser.getSummaryFromCache Browser.DbOk "h1" c
    = (Returned (Some "old summary"), setMem "h1" "old summary" c)
  ∧ blockCache (setMem "h1" "old summary" c) !! "h1" = Some "old summary".
Proof.
  intros c.
  pose proof (cache_put_get_layers c "h1" "old summary")
    as (_ & _ & _ & Hdurable & _).
  assert (Hmem : blockCache c !! "h1" = None) by reflexivity.
  assert (Hdb : durable c !! "h1" = Some "old summary") by reflexivity.
  destruct (Hdurable Hmem Hdb) as (Hb & _ & Hin & _).
  split; [exact Hmem|]. split; [exact Hdb|]. split; [exact Hb|exact Hin].
Defined.

(** With an unreachable database (browser) or an unwritable cache file
    (server), put resolves exactly as it does on success, while nothing was
    written durably. *)
Lemma put_failure_not_reported :
  let c := {| blockCache := ∅; durable := ∅ |} in
  ¬ browserPutReportsFailure
  ∧ ¬ serverPutReportsFailure
  ∧ durable (Browser.saveSummaryToCache Browser.DbOpenFails "h" "s" c).2 !! "h"
    = None
  ∧ durable (Server.saveSummaryToCache Server.FsFails "h" "s" c).2 !! "h"
    = None.
Proof.
  intros c. split; [|split; [|split]].
  - intros H. by apply (H Browser.DbOpenFails "h" "s" c).
  - intros H. by apply (H "h" "s" c).
  - reflexivity.
  - reflexivity.
Qed.

(** C7 (amended). For every hash, summary and cache, in both hosts: put
    writes the in-memory layer first and unconditionally, then attempts the
    durable write; whatever the durable layer does, the in-memory entry
    written by the put is present afterwards and every other in-memory
    entry is as before. A durable write that fails where the storage helper
    catches it (the database cannot be opened; the cache file cannot be
    written) leaves the durable store unchanged and is not reported: put
    resolves with no value, exactly as on success. Only a failed IndexedDB
    request of the browser host makes put reject. *)
Theorem put_memory_first_failure_swallowed (hash summary : string) (c : Cache) :
  (∀ f, blockCache (Browser.saveSummaryToCache f hash summary c).2
        = <[hash := summary]> (blockCache c))
  ∧ (∀ f, blockCache (Server.saveSummaryToCache f hash summary c).2
          = <[hash := summary]> (blockCache c))
  ∧ Browser.saveSummaryToCache Browser.DbOk hash summary c
    = (Returned tt, {| blockCache := <[hash := summary]> (blockCache c);
                       durable := <[hash := summary]> (durable c) |})
  ∧ Browser.saveSummaryToCache Browser.DbOpenFails hash summary c
    = (Returned tt, setMem hash summary c)
  ∧ Browser.saveSummaryToCache Browser.DbRequestFails hash summary c
    = (Thrown, setMem hash summary c)
  ∧ Server.saveSummaryToCache Server.FsOk hash summary c
    = (tt, {| blockCache := <[hash := summary]> (blockCache c);
              durable := <[hash := summary]> (durable c) |})
  ∧ Server.saveSummaryToCache Server.FsFails hash summary c
    = (tt, setMem hash summary c).
Proof.
  repeat split; try (intros f; by destruct f).
Qed.

(** ** The orchestrator *)

Lemma browser_get_returns gf h c :
  gf ≠ Browser.DbRequestFails ->
  ∃ r c1, Browser.getSummaryFromCache gf h c = (Returned r, c1).
Proof.
  intros Hgf. unfold Browser.getSummaryFromCache.
  destruct (blockCache c !! h); [by eauto|].
  destruct gf; simpl; [|by eauto|done].
  destruct (durable c !! h); by eauto.
Qed.

Lemma browser_put_returns pf h s c :
  pf ≠ Browser.DbRequestFails ->
  Browser.saveSummaryToCache pf h s c
  = (Returned tt, (Browser.saveSummaryToCache pf h s c).2).
Proof. intros Hpf. by destruct pf. Qed.

Lemma browser_miss_keeps_cache gf h c c1 :
  Browser.getSummaryFromCache gf h c = (Returned None, c1) -> c1 = c.
Proof.
  unfold Browser.getSummaryFromCache.
  destruct (blockCache c !! h); [done|].
  destruct gf; simpl; try done; [|congruence].
  destruct (durable c !! h); [done|congruence].
Qed.

(** The four ways one iteration of the browser loop can go. *)
Lemma browser_block_cached apiUrl r gf pf i block acc c s c1 :
  Browser.getSummaryFromCache gf (hash block) c = (Returned (Some s), c1) ->
  Browser.summarizeBlock apiUrl r gf pf i block acc c
  = (Returned (Browser.push s acc), c1).
Proof. intros H. unfold Browser.summarizeBlock, bind. by rewrite H. Qed.

Lemma browser_block_null apiUrl r gf pf i block acc c :
  browserMiss gf block c ->
  Browser.callSummarizationApi apiUrl r = None ->
  Browser.summarizeBlock apiUrl r gf pf i block acc c
  = (Returned {| blockSummaries :=
                   blockSummaries acc ++ [Browser.failedPlaceholder i];
                 hasError := true |}, c).
Proof.
  unfold browserMiss. intros Hmiss Hapi.
  destruct (Browser.getSummaryFromCache gf (hash block) c) as [o c1] eqn:Eget.
  simpl in Hmiss. subst o.
  pose proof (browser_miss_keeps_cache _ _ _ _ Eget) as ->.
  unfold Browser.summarizeBlock, bind. by rewrite Eget, Hapi.
Qed.

Lemma browser_block_error apiUrl r gf pf i block acc c e :
  browserMiss gf block c ->
  Browser.callSummarizationApi apiUrl r = Some e ->
  startsWith "[Error:" e = true ->
  Browser.summarizeBlock apiUrl r gf pf i block acc c
  = (Returned {| blockSummaries := blockSummaries acc ++ [e];
                 hasError := true |}, c).
Proof.
  unfold browserMiss. intros Hmiss Hapi Hpre.
  destruct (Browser.getSummaryFromCache gf (hash block) c) as [o c1] eqn:Eget.
  simpl in Hmiss. subst o.
  pose proof (browser_miss_keeps_cache _ _ _ _ Eget) as ->.
  unfold Browser.summarizeBlock, bind. rewrite Eget, Hapi, Hpre. simpl.
  unfold ret. repeat f_equal.
  destruct e; [done|reflexivity].
Qed.

Lemma browser_block_fetched apiUrl r gf pf i block acc c s :
  browserMiss gf block c ->
  Browser.callSummarizationApi apiUrl r = Some s ->
  startsWith "[Error:" s = false ->
  pf ≠ Browser.DbRequestFails ->
  Browser.summarizeBlock apiUrl r gf pf i block acc c
  = (Returned (Browser.push s acc),
     (Browser.saveSummaryToCache pf (hash block) s c).2).
Proof.
  unfold browserMiss. intros Hmiss Hapi Hpre Hpf.
  destruct (Browser.getSummaryFromCache gf (hash block) c) as [o c1] eqn:Eget.
  simpl in Hmiss. subst o.
  pose proof (browser_miss_keeps_cache _ _ _ _ Eget) as ->.
  unfold Browser.summarizeBlock, bind. rewrite Eget, Hapi, Hpre. simpl.
  by rewrite (browser_put_returns pf _ _ _ Hpf).
Qed.

(** Whatever happens, an iteration that returns has appended one summary
    and has not reset the error flag. *)
Lemma browser_block_appends apiUrl r gf pf i block acc c res c' :
  Browser.summarizeBlock apiUrl r gf pf i block acc c = (Returned res, c') ->
  (∃ x, blockSummaries res = blockSummaries acc ++ [x])
  ∧ (hasError acc = true -> hasError res = true).
Proof.
  unfold Browser.summarizeBlock, bind, ret, Browser.push.
  destruct (Browser.getSummaryFromCache gf (hash block) c) as [[[s|]|] c1];
    [| |done].
  - intros [= <- <-]. simpl. by eauto.
  - destruct (Browser.callSummarizationApi apiUrl r) as [s|].
    + destruct (negb (startsWith "[Error:" s)).
      * destruct (Browser.saveSummaryToCache pf (hash block) s c1) as [[u|] c2];
          [|done].
        intros [= <- <-]. simpl. by eauto.
      * intros [= <- <-]. simpl. by eauto.
    + intros [= <- <-]. simpl. by eauto.
Qed.

Lemma browser_block_returns apiUrl r gf pf i block acc c :
  gf ≠ Browser.DbRequestFails -> pf ≠ Browser.DbRequestFails ->
  ∃ res c', Browser.summarizeBlock apiUrl r gf pf i block acc c
            = (Returned res, c').
Proof.
  intros Hgf Hpf.
  destruct (browser_get_returns gf (hash block) c Hgf) as (o & c1 & Eget).
  unfold Browser.summarizeBlock, bind, ret. rewrite Eget.
  destruct o as [s|]; [by eauto|].
  destruct (Browser.callSummarizationApi apiUrl r) as [s|]; [|by eauto].
  destruct (negb (startsWith "[Error:" s)); [|by eauto].
  rewrite (browser_put_returns pf _ _ _ Hpf). by eauto.
Qed.

Lemma browser_loop_app apiUrl env l1 : ∀ l2 i acc c,
  Browser.summarizeLoop apiUrl env i (l1 ++ l2) acc c
  = match Browser.summarizeLoop apiUrl env i l1 acc c with
    | (Returned acc', c') =>
        Browser.summarizeLoop apiUrl env (i + length l1) l2 acc' c'
    | (Thrown, c') => (Thrown, c')
    end.
Proof.
  induction l1 as [|b l1 IH]; intros l2 i acc c; simpl.
  - unfold ret. by rewrite Nat.add_0_r.
  - unfold bind.
    destruct (Browser.summarizeBlock apiUrl (Browser.reply env i)
                (Browser.getFault env i) (Browser.putFault env i) i b acc c)
      as [[acc'|] c']; [|done].
    rewrite IH. by replace (S i + length l1) with (i + S (length l1)) by lia.
Qed.

Lemma browser_loop_returns apiUrl env rest :
  noRequestFaults env ->
  ∀ i acc c, ∃ res c',
    Browser.summarizeLoop apiUrl env i rest acc c = (Returned res, c').
Proof.
  intros Hnf. induction rest as [|b rest IH]; intros i acc c; simpl.
  - unfold ret. by eauto.
  - destruct (Hnf i) as [Hgf Hpf].
    destruct (browser_block_returns apiUrl (Browser.reply env i) _ _ i b acc c
                Hgf Hpf) as (acc' & c' & E).
    unfold bind. rewrite E. apply IH.
Qed.

Lemma browser_loop_extends apiUrl env rest : ∀ i acc c res c',
  Browser.summarizeLoop apiUrl env i rest acc c = (Returned res, c') ->
  (∃ more, blockSummaries res = blockSummaries acc ++ more
           ∧ length more = length rest)
  ∧ (hasError acc = true -> hasError res = true).
Proof.
  induction rest as [|b rest IH]; intros i acc c res c'; simpl.
  - unfold ret. intros [= <- <-]. split; [|done].
    exists []. by rewrite app_nil_r.
  - unfold bind.
    destruct (Browser.summarizeBlock apiUrl (Browser.reply env i)
                (Browser.getFault env i) (Browser.putFault env i) i b acc c)
      as [[acc'|] c1] eqn:E; [|done].
    intros Hloop.
    destruct (browser_block_appends _ _ _ _ _ _ _ _ _ _ E) as [[x Hx] Herr].
    destruct (IH _ _ _ _ _ Hloop) as [(more & Hm & Hl) Herr'].
    split; [|by auto].
    exists (x :: more). split; [|simpl; lia].
    by rewrite Hm, Hx, <- app_assoc.
Qed.

Lemma server_miss_keeps_cache gf h c :
  (Server.getSummaryFromCache gf h c).1 = None ->
  Server.getSummaryFromCache gf h c = (None, c).
Proof.
  unfold Server.getSummaryFromCache.
  destruct (blockCache c !! h); [done|].
  destruct gf; [|done]. by destruct (durable c !! h).
Qed.

Lemma server_block_cached apiUrl r gf pf i block acc c s :
  (Server.getSummaryFromCache gf (hash block) c).1 = Some s ->
  Server.summarizeBlock apiUrl r gf pf i block acc c
  = (acc ++ [s], (Server.getSummaryFromCache gf (hash block) c).2).
Proof.
  intros H. unfold Server.summarizeBlock.
  destruct (Server.getSummaryFromCache gf (hash block) c) as [o c1].
  simpl in H. by subst o.
Qed.

Lemma server_block_failed apiUrl r gf pf i block acc c :
  serverMiss gf block c ->
  Server.callSummarizationApi apiUrl r = None ->
  Server.summarizeBlock apiUrl r gf pf i block acc c
  = (acc ++ [Server.errorPlaceholder i], c).
Proof.
  intros Hmiss Hapi. unfold Server.summarizeBlock.
  by rewrite (server_miss_keeps_cache _ _ _ Hmiss), Hapi.
Qed.

Lemma server_block_fetched apiUrl r gf pf i block acc c s :
  serverMiss gf block c ->
  Server.callSummarizationApi apiUrl r = Some s ->
  Server.summarizeBlock apiUrl r gf pf i block acc c
  = (acc ++ [s], (Server.saveSummaryToCache pf (hash block) s c).2).
Proof.
  intros Hmiss Hapi. unfold Server.summarizeBlock.
  rewrite (server_miss_keeps_cache _ _ _ Hmiss), Hapi.
  by destruct (Server.saveSummaryToCache pf (hash block) s c).
Qed.

Lemma server_block_appends apiUrl r gf pf i block acc c :
  ∃ x, (Server.summarizeBlock apiUrl r gf pf i block acc c).1 = acc ++ [x].
Proof.
  unfold Server.summarizeBlock.
  destruct (Server.getSummaryFromCache gf (hash block) c) as [[s|] c1];
    [by eauto|].
  destruct (Server.callSummarizationApi apiUrl r) as [s|]; [|by eauto].
  destruct (Server.saveSummaryToCache pf (hash block) s c1). by eauto.
Qed.

Lemma server_loop_app apiUrl env l1 : ∀ l2 i acc c,
  Server.summarizeLoop apiUrl env i (l1 ++ l2) acc c
  = Server.summarizeLoop apiUrl env (i + length l1) l2
      (Server.summarizeLoop apiUrl env i l1 acc c).1
      (Server.summarizeLoop apiUrl env i l1 acc c).2.
Proof.
  induction l1 as [|b l1 IH]; intros l2 i acc c; simpl.
  - by rewrite Nat.add_0_r.
  - destruct (Server.summarizeBlock apiUrl (Server.reply env i)
                (Server.getFault env i) (Server.putFault env i) i b acc c)
      as [acc' c'].
    rewrite IH. by replace (S i + length l1) with (i + S (length l1)) by lia.
Qed.

Lemma server_loop_extends apiUrl env rest : ∀ i acc c,
  ∃ more, (Server.summarizeLoop apiUrl env i rest acc c).1 = acc ++ more
          ∧ length more = length rest.
Proof.
  induction rest as [|b rest IH]; intros i acc c; simpl.
  - exists []. by rewrite app_nil_r.
  - destruct (server_block_appends apiUrl (Server.reply env i)
                (Server.getFault env i) (Server.putFault env i) i b acc c)
      as [x Hx].
    destruct (Server.summarizeBlock apiUrl (Server.reply env i)
                (Server.getFault env i) (Server.putFault env i) i b acc c)
      as [acc' c'].
    simpl in Hx. subst acc'.
    destruct (IH (S i) (acc ++ [x]) c') as (more & Hm & Hl).
    exists (x :: more). split; [|simpl; lia].
    by rewrite Hm, <- app_assoc.
Qed.

(** The browser run seen from block [i]: the prefix run reaches it with
    [i] summaries, its iteration returns, and what that iteration appends
    is the [i]-th entry of the final array. *)
Lemma browser_run_at apiUrl env blocks c i block :
  noRequestFaults env ->
  blocks !! i = Some block ->
  ∃ acci res c',
    Browser.summarizeLoop apiUrl env 0 (take i blocks) sumInit c
    = (Returned acci, browserCacheAt apiUrl env blocks c i)
    ∧ Browser.summarizeAllBlocks apiUrl env blocks c = (Returned res, c')
    ∧ ∀ next cnext,
        Browser.summarizeBlock apiUrl (Browser.reply env i)
          (Browser.getFault env i) (Browser.putFault env i) i block acci
          (browserCacheAt apiUrl env blocks c i) = (Returned next, cnext) ->
        (∀ x, blockSummaries next = blockSummaries acci ++ [x] ->
              blockSummaries res !! i = Some x)
        ∧ (hasError next = true -> hasError res = true).
Proof.
  intros Hnf Hi.
  destruct (browser_loop_returns apiUrl env (take i blocks) Hnf 0 sumInit c)
    as (acci & ci & Epre).
  destruct (browser_loop_returns apiUrl env blocks Hnf 0 sumInit c)
    as (res & c' & Eall).
  exists acci, res, c'.
  assert (Hci : browserCacheAt apiUrl env blocks c i = ci).
  { unfold browserCacheAt. by rewrite Epre. }
  rewrite Hci. split; [done|]. split; [done|].
  intros next cnext Hblock.
  destruct (browser_loop_extends _ _ _ _ _ _ _ _ Epre) as [(pre & Hpre & Hlen) _].
  simpl in Hpre.
  assert (Hleni : length (blockSummaries acci) = i).
  { rewrite Hpre, Hlen, length_take. apply lookup_lt_Some in Hi. lia. }
  pose proof Eall as Eall'.
  unfold Browser.summarizeAllBlocks in Eall'.
  rewrite <- (take_drop_middle blocks i block Hi) in Eall'.
  rewrite browser_loop_app, Epre in Eall'. simpl in Eall'.
  rewrite length_take in Eall'.
  replace (i `min` length blocks) with i in Eall'
    by (apply lookup_lt_Some in Hi; lia).
  unfold bind in Eall'. rewrite Hblock in Eall'.
  destruct (browser_loop_extends _ _ _ _ _ _ _ _ Eall') as [(more & Hm & _) Herr].
  split; [|done].
  intros x Hx. rewrite Hm, Hx, <- app_assoc. simpl.
  rewrite lookup_app_r by lia.
  by replace (i - length (blockSummaries acci)) with 0 by lia.
Qed.

Lemma browser_run_length apiUrl env blocks c res c' :
  Browser.summarizeAllBlocks apiUrl env blocks c = (Returned res, c') ->
  length (blockSummaries res) = length blocks.
Proof.
  intros E. destruct (browser_loop_extends _ _ _ _ _ _ _ _ E)
    as [(more & Hm & Hl) _].
  by rewrite Hm.
Qed.

Lemma server_run_at apiUrl env blocks c i block :
  blocks !! i = Some block ->
  let acci := (Server.summarizeLoop apiUrl env 0 (take i blocks) [] c).1 in
  ∀ x,
    (Server.summarizeBlock apiUrl (Server.reply env i)
       (Server.getFault env i) (Server.putFault env i) i block acci
       (serverCacheAt apiUrl env blocks c i)).1 = acci ++ [x] ->
    (Server.summarizeLoop apiUrl env 0 blocks [] c).1 !! i = Some x.
Proof.
  intros Hi acci x Hx.
  destruct (server_loop_extends apiUrl env (take i blocks) 0 [] c)
    as (pre & Hpre & Hlen).
  fold acci in Hpre. simpl in Hpre.
  assert (Hleni : length acci = i).
  { rewrite Hpre, Hlen, length_take. apply lookup_lt_Some in Hi. lia. }
  rewrite <- (take_drop_middle blocks i block Hi) at 1.
  rewrite server_loop_app. fold acci.
  fold (serverCacheAt apiUrl env blocks c i).
  rewrite length_take.
  replace (0 + i `min` length blocks) with i
    by (apply lookup_lt_Some in Hi; lia).
  simpl.
  destruct (Server.summarizeBlock apiUrl (Server.reply env i)
              (Server.getFault env i) (Server.putFault env i) i block acci
              (serverCacheAt apiUrl env blocks c i)) as [next cnext].
  simpl in Hx. subst next.
  destruct (server_loop_extends apiUrl env (drop (S i) blocks) (S i)
              (acci ++ [x]) cnext) as (more & Hm & _).
  rewrite Hm, <- app_assoc. simpl.
  rewrite lookup_app_r by lia.
  by replace (i - length acci) with 0 by lia.
Qed.

(** One uncached block and an endpoint answering with status 500: the
    browser host keeps the client's diagnostic, the server host writes its
    own placeholder; neither is "[Summary generation failed for block 1]". *)
Example status500_results :
  let blocks := [ {| hash := "h"; details := [mkBlockMsg "U" true "hi"] |} ] in
  let c := {| blockCache := ∅; durable := ∅ |} in
  Browser.summarizeAllBlocks "http://api"
    (Browser.mkEnv (fun _ => NotOk 500) (fun _ => Browser.DbOk)
                   (fun _ => Browser.DbOk)) blocks c
  = (Returned {| blockSummaries := ["[Error: API response 500]"];
                 hasError := true |}, c)
  ∧ Server.summarizeLoop "http://api"
      (Server.mkEnv (fun _ => NotOk 500) (fun _ => Server.FsOk)
                    (fun _ => Server.FsOk)) 0 blocks [] c
    = (["[Error summarizing block 1]"], c).
Proof. split; reflexivity. Qed.

Lemma failed_call_not_always_placeholder :
  ¬ browserPlaceholderClaim ∧ ¬ serverPlaceholderClaim.
Proof.
  destruct status500_results as [Hb Hs]. split.
  - intros H.
    destruct (H "http://api"
                (Browser.mkEnv (fun _ => NotOk 500) (fun _ => Browser.DbOk)
                               (fun _ => Browser.DbOk))
                [ {| hash := "h"; details := [mkBlockMsg "U" true "hi"] |} ]
                {| blockCache := ∅; durable := ∅ |} 0
                {| hash := "h"; details := [mkBlockMsg "U" true "hi"] |})
      as (res & c' & s & Hrun & Hs0 & [n Hn] & _).
    + intros i. split; discriminate.
    + reflexivity.
    + reflexivity.
    + right. right. left. by exists 500.
    + rewrite Hb in Hrun. injection Hrun as <- _.
      simpl in Hs0. injection Hs0 as <-. discriminate Hn.
  - intros H.
    destruct (H "http://api"
                (Server.mkEnv (fun _ => NotOk 500) (fun _ => Server.FsOk)
                              (fun _ => Server.FsOk))
                [ {| hash := "h"; details := [mkBlockMsg "U" true "hi"] |} ]
                {| blockCache := ∅; durable := ∅ |} 0
                {| hash := "h"; details := [mkBlockMsg "U" true "hi"] |})
      as (s & Hs0 & [n Hn]).
    + reflexivity.
    + reflexivity.
    + right. right. left. by exists 500.
    + rewrite Hs in Hs0. simpl in Hs0. injection Hs0 as <-. discriminate Hn.
Qed.

(** C1 (amended). Browser host, provided no IndexedDB request of the run
    raises: summarize-all returns a summaries array with the length and
    order of the blocks. For block i (counted from 0) whose lookup is a
    miss: if the client returns null, the i-th result is
    "[Summary generation failed for block i+1]" and hasError is true; if
    the client returns an "[Error:" diagnostic, the i-th result is that
    diagnostic and hasError is true; otherwise the i-th result is the
    fetched summary. A cached block keeps its cached summary. Processing
    never stops at a failed client call.
    Server host: the run always returns, one summary per block in order;
    a failed client call of an uncached block leaves
    "[Error summarizing block i+1]", there is no error flag, and every
    other block keeps its cached or fetched summary. *)
Theorem partial_failure_containment (apiUrl : string)
    (benv : Browser.Env) (senv : Server.Env) (blocks : list Block)
    (c : Cache) :
  noRequestFaults benv ->
  (∃ res c',
     Browser.summarizeAllBlocks apiUrl benv blocks c = (Returned res, c')
     ∧ length (blockSummaries res) = length blocks
     ∧ ∀ i block, blocks !! i = Some block ->
         let ci := browserCacheAt apiUrl benv blocks c i in
         let gf := Browser.getFault benv i in
         let fetched := Browser.callSummarizationApi apiUrl (Browser.reply benv i) in
         (∀ s, (Browser.getSummaryFromCache gf (hash block) ci).1
               = Returned (Some s) ->
               blockSummaries res !! i = Some s)
         ∧ (browserMiss gf block ci ->
            (fetched = None ->
             blockSummaries res !! i = Some (Browser.failedPlaceholder i)
             ∧ hasError res = true)
            ∧ (∀ e, fetched = Some e -> startsWith "[Error:" e = true ->
                    blockSummaries res !! i = Some e ∧ hasError res = true)
            ∧ (∀ s, fetched = Some s -> startsWith "[Error:" s = false ->
                    blockSummaries res !! i = Some s)))
  ∧
  (let out := (Server.summarizeLoop apiUrl senv 0 blocks [] c).1 in
   length out = length blocks
   ∧ ∀ i block, blocks !! i = Some block ->
       let ci := serverCacheAt apiUrl senv blocks c i in
       let gf := Server.getFault senv i in
       let fetched := Server.callSummarizationApi apiUrl (Server.reply senv i) in
       (∀ s, (Server.getSummaryFromCache gf (hash block) ci).1 = Some s ->
             out !! i = Some s)
       ∧ (serverMiss gf block ci ->
          (fetched = None -> out !! i = Some (Server.errorPlaceholder i))
          ∧ (∀ s, fetched = Some s -> out !! i = Some s))).
Proof.
  intros Hnf. split.
  - destruct (browser_loop_returns apiUrl benv blocks Hnf 0 sumInit c)
      as (res & c' & Eall).
    exists res, c'. split; [exact Eall|].
    split; [by eapply browser_run_length|].
    intros i block Hi ci gf fetched.
    destruct (browser_run_at apiUrl benv blocks c i block Hnf Hi)
      as (acci & res' & c'' & Epre & Eall' & Hat).
    unfold Browser.summarizeAllBlocks in Eall, Eall'.
    rewrite Eall in Eall'. injection Eall' as <- <-.
    fold ci in Hat, Epre. destruct (Hnf i) as [_ Hpf].
    split.
    + intros s Hhit.
      destruct (Browser.getSummaryFromCache gf (hash block) ci)
        as [o c1] eqn:Eget.
      simpl in Hhit. subst o.
      destruct (Hat _ _ (browser_block_cached apiUrl (Browser.reply benv i)
                           gf (Browser.putFault benv i) i block acci ci s c1
                           Eget)) as [Hx _].
      by apply Hx.
    + intros Hmiss. split; [|split].
      * intros Hnull.
        destruct (Hat _ _ (browser_block_null apiUrl (Browser.reply benv i)
                             gf (Browser.putFault benv i) i block acci ci
                             Hmiss Hnull)) as [Hx Herr].
        split; [by apply Hx | by apply Herr].
      * intros e He Hpre.
        destruct (Hat _ _ (browser_block_error apiUrl (Browser.reply benv i)
                             gf (Browser.putFault benv i) i block acci ci e
                             Hmiss He Hpre)) as [Hx Herr].
        split; [by apply Hx | by apply Herr].
      * intros s Hs Hpre.
        destruct (Hat _ _ (browser_block_fetched apiUrl (Browser.reply benv i)
                             gf (Browser.putFault benv i) i block acci ci s
                             Hmiss Hs Hpre Hpf)) as [Hx _].
        by apply Hx.
  - simpl. split.
    + destruct (server_loop_extends apiUrl senv blocks 0 [] c)
        as (more & Hm & Hl).
      by rewrite Hm.
    + intros i block Hi. split.
      * intros s Hhit.
        apply (server_run_at apiUrl senv blocks c i block Hi).
        by rewrite (server_block_cached _ _ _ _ _ _ _ _ s Hhit).
      * intros Hmiss. split.
        -- intros Hnull.
           apply (server_run_at apiUrl senv blocks c i block Hi).
           by rewrite (server_block_failed _ _ _ _ _ _ _ _ Hmiss Hnull).
        -- intros s Hs.
           apply (server_run_at apiUrl senv blocks c i block Hi).
           by rewrite (server_block_fetched _ _ _ _ _ _ _ _ s Hmiss Hs).
Qed.

(** Block 2 of 3 fails (the endpoint answers without a summary): three
    summaries, the second a placeholder, and the error flag. *)
Example block2_of_3_fails :
  let blocks := [ {| hash := "h1"; details := [mkBlockMsg "U" true "one"] |};
                  {| hash := "h2"; details := [mkBlockMsg "A" false "two"] |};
                  {| hash := "h3"; details := [mkBlockMsg "U" true "three"] |} ] in
  let env := Browser.mkEnv
               (fun i => if bool_decide (i = 1) then OkBody None
                         else OkBody (Some "genuine"))
               (fun _ => Browser.DbOk) (fun _ => Browser.DbOk) in
  (Browser.summarizeAllBlocks "http://api" env blocks
     {| blockCache := ∅; durable := ∅ |}).1
  = Returned {| blockSummaries :=
                  ["genuine"; "[Summary generation failed for block 2]";
                   "genuine"];
                hasError := true |}.
Proof. reflexivity. Qed.

Lemma partial_failure_containment_witness :
  let blocks := [ {| hash := "h1"; details := [mkBlockMsg "U" true "one"] |};
                  {| hash := "h2"; details := [mkBlockMsg "A" false "two"] |};
                  {| hash := "h3"; details := [mkBlockMsg "U" true "three"] |} ] in
  let benv := Browser.mkEnv
                (fun i => if bool_decide (i = 1) then OkBody None
                          else OkBody (Some "genuine"))
                (fun _ => Browser.DbOk) (fun _ => Browser.DbOk) in
  let c := {| blockCache := ∅; durable := ∅ |} in
  noRequestFaults benv
  ∧ ∃ res c',
      Browser.summarizeAllBlocks "http://api" benv blocks c = (Returned res, c')
      ∧ length (blockSummaries res) = 3
      ∧ blockSummaries res !! 1 = Some "[Summary generation failed for block 2]"
      ∧ hasError res = true.
Proof.
  intros blocks benv c.
  assert (Hnf : noRequestFaults benv) by (intros i; split; discriminate).
  split; [exact Hnf|].
  destruct (partial_failure_containment "http://api" benv
              (Server.mkEnv (fun _ => FetchFails) (fun _ => Server.FsOk)
                            (fun _ => Server.FsOk)) blocks c Hnf)
    as [(res & c' & Hrun & Hlen & Hat) _].
  exists res, c'. split; [exact Hrun|]. split; [exact Hlen|].
  destruct (Hat 1 {| hash := "h2"; details := [mkBlockMsg "A" false "two"] |}
              eq_refl) as [_ Hmiss].
  destruct (Hmiss eq_refl) as [Hnull _].
  exact (Hnull eq_refl).
Defined.

(** ** Empty summaries from the endpoint *)

Lemma browser_client_nonempty apiUrl r s :
  Browser.callSummarizationApi apiUrl r = Some s -> truthy s = true.
Proof.
  unfold Browser.callSummarizationApi.
  destruct (negb (truthy apiUrl)); [done|].
  destruct r as [|status|[summary|]]; try done.
  - by intros [= <-].
  - by intros [= <-].
  - destruct (truthy summary) eqn:E; [|done]. by intros [= <-].
Qed.

Lemma server_client_nonempty apiUrl r s :
  Server.callSummarizationApi apiUrl r = Some s -> truthy s = true.
Proof.
  unfold Server.callSummarizationApi.
  destruct (negb (truthy apiUrl)); [done|].
  destruct r as [|status|[summary|]]; try done.
  destruct (truthy summary) eqn:E; [|done]. by intros [= <-].
Qed.

Lemma noEmptyEntry_setMem h s c :
  s ≠ "" -> noEmptyEntry c -> noEmptyEntry (setMem h s c).
Proof.
  intros Hs Hc k. unfold setMem. simpl. split; [|apply Hc].
  destruct (decide (h = k)) as [->|Hne].
  - rewrite lookup_insert_eq. congruence.
  - rewrite lookup_insert_ne by done. apply Hc.
Qed.

Lemma noEmptyEntry_insert_both h s c :
  s ≠ "" -> noEmptyEntry c ->
  noEmptyEntry {| blockCache := <[h := s]> (blockCache c);
                  durable := <[h := s]> (durable c) |}.
Proof.
  intros Hs Hc k. simpl.
  destruct (decide (h = k)) as [->|Hne].
  - rewrite !lookup_insert_eq. split; congruence.
  - rewrite !lookup_insert_ne by done. apply Hc.
Qed.

Lemma truthy_nonempty s : truthy s = true -> s ≠ "".
Proof. by destruct s. Qed.

Lemma browser_get_noEmpty gf h c :
  noEmptyEntry c -> noEmptyEntry (Browser.getSummaryFromCache gf h c).2.
Proof.
  intros Hc. unfold Browser.getSummaryFromCache.
  destruct (blockCache c !! h); [done|].
  destruct gf; simpl; try done.
  destruct (durable c !! h) as [s|] eqn:E; [|done]. simpl.
  apply noEmptyEntry_setMem; [|done].
  intros ->. by destruct (Hc h).
Qed.

Lemma browser_put_noEmpty pf h s c :
  s ≠ "" -> noEmptyEntry c ->
  noEmptyEntry (Browser.saveSummaryToCache pf h s c).2.
Proof.
  intros Hs Hc. destruct pf; simpl.
  - by apply noEmptyEntry_insert_both.
  - by apply noEmptyEntry_setMem.
  - by apply noEmptyEntry_setMem.
Qed.

Lemma browser_block_noEmpty apiUrl r gf pf i block acc c :
  noEmptyEntry c ->
  noEmptyEntry (Browser.summarizeBlock apiUrl r gf pf i block acc c).2.
Proof.
  intros Hc. unfold Browser.summarizeBlock, bind, ret.
  pose proof (browser_get_noEmpty gf (hash block) c Hc) as Hget.
  destruct (Browser.getSummaryFromCache gf (hash block) c) as [[[s|]|] c1];
    simpl in *; try done.
  destruct (Browser.callSummarizationApi apiUrl r) as [s|] eqn:Eapi; [|done].
  destruct (negb (startsWith "[Error:" s)); [|done].
  pose proof (browser_put_noEmpty pf (hash block) s c1
                (truthy_nonempty s (browser_client_nonempty _ _ _ Eapi)) Hget)
    as Hput.
  by destruct (Browser.saveSummaryToCache pf (hash block) s c1) as [[u|] c2].
Qed.

Lemma browser_loop_noEmpty apiUrl env rest : ∀ i acc c,
  noEmptyEntry c ->
  noEmptyEntry (Browser.summarizeLoop apiUrl env i rest acc c).2.
Proof.
  induction rest as [|b rest IH]; intros i acc c Hc; simpl; [done|].
  unfold bind.
  pose proof (browser_block_noEmpty apiUrl (Browser.reply env i)
                (Browser.getFault env i) (Browser.putFault env i) i b acc c Hc)
    as Hb.
  destruct (Browser.summarizeBlock apiUrl (Browser.reply env i)
              (Browser.getFault env i) (Browser.putFault env i) i b acc c)
    as [[acc'|] c1]; simpl in *; [by apply IH | done].
Qed.

Lemma server_block_noEmpty apiUrl r gf pf i block acc c :
  noEmptyEntry c ->
  noEmptyEntry (Server.summarizeBlock apiUrl r gf pf i block acc c).2.
Proof.
  intros Hc. unfold Server.summarizeBlock, Server.getSummaryFromCache.
  destruct (blockCache c !! hash block) as [s|]; [done|].
  assert (Hsave : ∀ c1 s, noEmptyEntry c1 ->
            Server.callSummarizationApi apiUrl r = Some s ->
            noEmptyEntry (Server.saveSummaryToCache pf (hash block) s c1).2).
  { intros c1 s Hc1 Eapi.
    pose proof (truthy_nonempty s (server_client_nonempty _ _ _ Eapi)) as Hs.
    destruct pf; simpl.
    - by apply noEmptyEntry_insert_both.
    - by apply noEmptyEntry_setMem. }
  destruct gf.
  - destruct (durable c !! hash block) as [s|] eqn:E.
    + simpl. apply noEmptyEntry_setMem; [|done].
      intros ->. by destruct (Hc (hash block)).
    + destruct (Server.callSummarizationApi apiUrl r) as [s|] eqn:Eapi; [|done].
      specialize (Hsave c s Hc eq_refl).
      by destruct (Server.saveSummaryToCache pf (hash block) s c).
  - destruct (Server.callSummarizationApi apiUrl r) as [s|] eqn:Eapi; [|done].
    specialize (Hsave c s Hc eq_refl).
    by destruct (Server.saveSummaryToCache pf (hash block) s c).
Qed.

Lemma server_loop_noEmpty apiUrl env rest : ∀ i acc c,
  noEmptyEntry c ->
  noEmptyEntry (Server.summarizeLoop apiUrl env i rest acc c).2.
Proof.
  induction rest as [|b rest IH]; intros i acc c Hc; simpl; [done|].
  pose proof (server_block_noEmpty apiUrl (Server.reply env i)
                (Server.getFault env i) (Server.putFault env i) i b acc c Hc)
    as Hb.
  destruct (Server.summarizeBlock apiUrl (Server.reply env i)
              (Server.getFault env i) (Server.putFault env i) i b acc c)
    as [acc' c1]. simpl in Hb. by apply IH.
Qed.

Lemma browser_cacheAt_step apiUrl env blocks c i block :
  noRequestFaults env ->
  blocks !! i = Some block ->
  ∃ acci,
    Browser.summarizeLoop apiUrl env 0 (take i blocks) sumInit c
    = (Returned acci, browserCacheAt apiUrl env blocks c i)
    ∧ browserCacheAt apiUrl env blocks c (S i)
      = (Browser.summarizeBlock apiUrl (Browser.reply env i)
           (Browser.getFault env i) (Browser.putFault env i) i block acci
           (browserCacheAt apiUrl env blocks c i)).2.
Proof.
  intros Hnf Hi.
  destruct (browser_loop_returns apiUrl env (take i blocks) Hnf 0 sumInit c)
    as (acci & ci & Epre).
  exists acci.
  assert (Hci : browserCacheAt apiUrl env blocks c i = ci).
  { unfold browserCacheAt. by rewrite Epre. }
  rewrite Hci. split; [done|].
  unfold browserCacheAt.
  rewrite (take_S_r blocks i block Hi), browser_loop_app, Epre.
  rewrite length_take.
  replace (0 + i `min` length blocks) with i
    by (apply lookup_lt_Some in Hi; lia).
  simpl. unfold bind.
  destruct (Browser.summarizeBlock apiUrl (Browser.reply env i)
              (Browser.getFault env i) (Browser.putFault env i) i block acci ci)
    as [[next|] cnext]; done.
Qed.

(** C10. When the endpoint answers with HTTP success and a body whose
    summary is absent or the empty string, the client of either host
    returns null. In the browser host the iteration for an uncached block
    then appends the failure placeholder, sets the error flag and leaves
    both cache layers as they were; in a whole run the block's entry of the
    summaries array is that placeholder, the flag is set and the cache is
    not touched by that iteration. A run of either host never adds an
    empty summary to a cache that held none. *)
Theorem empty_summary_is_failure (apiUrl : string) (summary : option string) :
  summary = None ∨ summary = Some "" ->
  Browser.callSummarizationApi apiUrl (OkBody summary) = None
  ∧ Server.callSummarizationApi apiUrl (OkBody summary) = None
  ∧ (∀ gf pf i block acc c,
       browserMiss gf block c ->
       Browser.summarizeBlock apiUrl (OkBody summary) gf pf i block acc c
       = (Returned {| blockSummaries :=
                        blockSummaries acc ++ [Browser.failedPlaceholder i];
                      hasError := true |}, c))
  ∧ (∀ env blocks c i block,
       noRequestFaults env ->
       blocks !! i = Some block ->
       Browser.reply env i = OkBody summary ->
       browserMiss (Browser.getFault env i) block
         (browserCacheAt apiUrl env blocks c i) ->
       ∃ res c',
         Browser.summarizeAllBlocks apiUrl env blocks c = (Returned res, c')
         ∧ blockSummaries res !! i = Some (Browser.failedPlaceholder i)
         ∧ hasError res = true
         ∧ browserCacheAt apiUrl env blocks c (S i)
           = browserCacheAt apiUrl env blocks c i)
  ∧ (∀ env blocks c,
       noEmptyEntry c ->
       noEmptyEntry (Browser.summarizeAllBlocks apiUrl env blocks c).2)
  ∧ (∀ env blocks c,
       noEmptyEntry c ->
       noEmptyEntry (Server.summarizeLoop apiUrl env 0 blocks [] c).2).
Proof.
  intros Hsum.
  assert (Hb : Browser.callSummarizationApi apiUrl (OkBody summary) = None).
  { unfold Browser.callSummarizationApi.
    destruct (negb (truthy apiUrl)); [done|]. by destruct Hsum as [-> | ->]. }
  assert (Hs : Server.callSummarizationApi apiUrl (OkBody summary) = None).
  { unfold Server.callSummarizationApi.
    destruct (negb (truthy apiUrl)); [done|]. by destruct Hsum as [-> | ->]. }
  split; [exact Hb|]. split; [exact Hs|].
  split; [|split; [|split]].
  - intros gf pf i block acc c Hmiss. by apply browser_block_null.
  - intros env blocks c i block Hnf Hi Hreply Hmiss.
    destruct (browser_run_at apiUrl env blocks c i block Hnf Hi)
      as (acci & res & c' & Epre & Eall & Hat).
    exists res, c'. split; [exact Eall|].
    pose proof (browser_block_null apiUrl (Browser.reply env i)
                  (Browser.getFault env i) (Browser.putFault env i) i block
                  acci _ Hmiss) as Hblock.
    rewrite Hreply in Hblock. specialize (Hblock Hb).
    rewrite <- Hreply in Hblock.
    destruct (Hat _ _ Hblock) as [Hx Herr].
    split; [by apply Hx|]. split; [by apply Herr|].
    destruct (browser_cacheAt_step apiUrl env blocks c i block Hnf Hi)
      as (acci' & Epre' & Hnext).
    rewrite Epre in Epre'. injection Epre' as <-.
    by rewrite Hnext, Hblock.
  - intros env blocks c Hc. by apply browser_loop_noEmpty.
  - intros env blocks c Hc. by apply server_loop_noEmpty.
Qed.

Lemma empty_summary_is_failure_witness :
  (Some "" = None ∨ Some "" = Some "")
  ∧ Browser.callSummarizationApi "http://api" (OkBody (Some "")) = None
  ∧ Server.callSummarizationApi "http://api" (OkBody (Some "")) = None
  ∧ (Browser.summarizeAllBlocks "http://api"
       (Browser.mkEnv (fun _ => OkBody (Some "")) (fun _ => Browser.DbOk)
                      (fun _ => Browser.DbOk))
       [ {| hash := "h"; details := [mkBlockMsg "U" true "hi"] |} ]
       {| blockCache := ∅; durable := ∅ |})
    = (Returned {| blockSummaries := ["[Summary generation failed for block 1]"];
                   hasError := true |},
       {| blockCache := ∅; durable := ∅ |}).
Proof.
  assert (H : Some "" = None ∨ Some "" = Some "") by (by right).
  split; [exact H|].
  destruct (empty_summary_is_failure "http://api" (Some "") H)
    as (Hb & Hs & Hblock & _).
  split; [exact Hb|]. split; [exact Hs|].
  assert (Hmiss : browserMiss Browser.DbOk
                    {| hash := "h"; details := [mkBlockMsg "U" true "hi"] |}
                    {| blockCache := ∅; durable := ∅ |}) by reflexivity.
  unfold Browser.summarizeAllBlocks. simpl. unfold bind.
  rewrite (Hblock Browser.DbOk Browser.DbOk 0 _ sumInit _ Hmiss).
  reflexivity.
Defined.

(** ** Prompt truncation *)

(** A message without a speaker name: the source charges only its text, so
    with one character of budget left it is kept, where the formula
    len(name) + 2 + len(text) would drop it. *)
Lemma truncation_differs_from_formula :
  let message := mkMessage "" true "a" false in
  Server.remainingCharsForHistory 1 "abc" = 1%Z
  ∧ Server.truncateHistory 1 "abc" [message] = [message]
  ∧ truncateSpec 1 "abc" [message] = []
  ∧ ¬ (∀ historySize templateResult recentMessages,
         Server.truncateHistory historySize templateResult recentMessages
         = truncateSpec historySize templateResult recentMessages).
Proof.
  intros message. split; [reflexivity|]. split; [reflexivity|].
  split; [reflexivity|].
  intros H. specialize (H 1%Z "abc" [message]). discriminate H.
Qed.

Lemma msgChars_formula message :
  Server.msgChars message
  = (if truthy (name message) then String.length (name message) + 2 else 0)
    + String.length (mes message).
Proof. unfold Server.msgChars. by destruct (mes message). Qed.

Lemma msgChars_named message :
  truthy (name message) = true -> Server.msgChars message = msgCharsSpec message.
Proof.
  intros H. rewrite msgChars_formula. unfold msgCharsSpec. by rewrite H.
Qed.

Lemma truncateLoop_named remaining newestFirst :
  Forall (fun m => truthy (name m) = true) newestFirst ->
  ∀ kept total,
    Server.truncateLoop remaining newestFirst kept total
    = truncateLoopSpec remaining newestFirst kept total.
Proof.
  induction 1 as [|m l Hm Hl IH]; intros kept total; simpl; [done|].
  rewrite (msgChars_named m Hm).
  case_bool_decide; [apply IH | done].
Qed.

Lemma truncateLoop_suffix remaining newestFirst :
  ∀ truncated currentChars,
    currentChars = totalChars truncated ->
    (Z.of_nat currentChars ≤ remaining)%Z ->
    let kept := Server.truncateLoop remaining newestFirst truncated currentChars in
    ∃ dropped,
      rev newestFirst ++ truncated = dropped ++ kept
      ∧ (Z.of_nat (totalChars kept) ≤ remaining)%Z
      ∧ (∀ older m, dropped = older ++ [m] ->
           (remaining < Z.of_nat (totalChars kept + Server.msgChars m))%Z).
Proof.
  induction newestFirst as [|message older IH];
    intros truncated currentChars Hsum Hfit; simpl.
  - exists []. split; [done|]. split; [by rewrite <- Hsum|].
    intros o m E. by destruct o.
  - case_bool_decide as Hle.
    + destruct (IH (message :: truncated)
                  (currentChars + Server.msgChars message)) as (dropped & Hd & Hk & Hov).
      { unfold totalChars in *. simpl. lia. }
      { exact Hle. }
      exists dropped. split; [|by split].
      by rewrite <- app_assoc.
    + exists (rev older ++ [message]).
      split; [done|]. split; [by rewrite <- Hsum|].
      intros o m E. apply app_inj_tail in E as [_ <-].
      rewrite <- Hsum. lia.
Qed.

(** C6 (amended). For every template result and recent-message list the
    truncation computes remaining = max(0, historySize * 4 -
    len(templateResult)), then walks the recent messages from the most
    recent to the oldest, charging each message len(text), plus
    len(name) + 2 only when the name is non-empty, keeping a message while
    the running total stays within the remaining budget and stopping at the
    first that would overflow: the kept messages are a contiguous suffix of
    the input in chronological order, their total cost is within the
    budget, and the newest dropped message would not have fitted. When
    every message has a non-empty name this is the truncation with the
    cost len(name) + 2 + len(text). *)
Theorem truncation_keeps_fitting_suffix (historySize : Z)
    (templateResult : string) (recentMessages : list Message) :
  let remaining := Server.remainingCharsForHistory historySize templateResult in
  let kept := Server.truncateHistory historySize templateResult recentMessages in
  remaining
  = Z.max 0 (historySize * 4 - Z.of_nat (String.length templateResult))
  ∧ (∀ m, Server.msgChars m
          = (if truthy (name m) then String.length (name m) + 2 else 0)
            + String.length (mes m))
  ∧ (∃ dropped,
       recentMessages = dropped ++ kept
       ∧ (Z.of_nat (totalChars kept) ≤ remaining)%Z
       ∧ (∀ older m, dropped = older ++ [m] ->
            (remaining < Z.of_nat (totalChars kept + Server.msgChars m))%Z))
  ∧ (Forall (fun m => truthy (name m) = true) recentMessages ->
     kept = truncateSpec historySize templateResult recentMessages).
Proof.
  intros remaining kept.
  split; [reflexivity|]. split; [exact msgChars_formula|]. split.
  - destruct (truncateLoop_suffix remaining (rev recentMessages) [] 0)
      as (dropped & Hd & Hk & Hov).
    { reflexivity. }
    { unfold remaining, Server.remainingCharsForHistory. lia. }
    exists dropped. rewrite rev_involutive, app_nil_r in Hd.
    by split.
  - intros Hnamed. unfold kept, Server.truncateHistory, truncateSpec.
    apply truncateLoop_named. by apply Forall_rev.
Qed.

Lemma truncation_keeps_fitting_suffix_witness :
  let msgs := [ mkMessage "Al" true "aaaa" false;
                mkMessage "Bo" false "bbbb" false;
                mkMessage "Al" true "cccc" false ] in
  Forall (fun m => truthy (name m) = true) msgs
  ∧ Server.truncateHistory 5 "1234" msgs = truncateSpec 5 "1234" msgs
  ∧ Server.truncateHistory 5 "1234" msgs
    = [ mkMessage "Bo" false "bbbb" false; mkMessage "Al" true "cccc" false ].
Proof.
  intros msgs.
  assert (Hn : Forall (fun m => truthy (name m) = true) msgs).
  { repeat constructor. }
  split; [exact Hn|].
  destruct (truncation_keeps_fitting_suffix 5 "1234" msgs) as (_ & _ & _ & Hs).
  split; [exact (Hs Hn) | reflexivity].
Defined.

(** The budget of the specification's example: 100 tokens, a template
    result of 40 characters. *)
Example remaining_budget_example :
  Server.remainingCharsForHistory 100
    "0123456789012345678901234567890123456789" = 360%Z.
Proof. reflexivity. Qed.

(** ** The in-progress flag *)

Section Trigger.

Variable digestMessage : string -> string.
Variable trim : string -> string.
Variable substitute : string -> string -> string.

Abbreviation globals := Browser.globals.
Abbreviation inFlight := Browser.inFlight.
Abbreviation inApiCall := Browser.inApiCall.
Abbreviation checkAndSummarize := (Browser.checkAndSummarize trim substitute).
Abbreviation resume := (Browser.resume digestMessage trim substitute).
Abbreviation step := (Browser.step digestMessage trim substitute).
Abbreviation reachable := (Browser.reachable digestMessage trim substitute).

Lemma checkAndSummarize_noop w :
  inApiCall (globals w) = true -> checkAndSummarize w = w.
Proof.
  intros H. unfold Browser.checkAndSummarize.
  by rewrite H, orb_true_r.
Qed.

Lemma checkAndSummarize_single w :
  singlePass w -> singlePass (checkAndSummarize w).
Proof.
  intros Hw. unfold Browser.checkAndSummarize.
  destruct (negb (Browser.enabled (Browser.settings (globals w)))
            || inApiCall (globals w)) eqn:Egate; [done|].
  apply orb_false_iff in Egate as [_ Hflag].
  destruct Hw as [(_ & Hbtn & Hnone)|(Htrue & _)]; [|congruence].
  case_bool_decide.
  - right. simpl. split; [done|]. split; [done|]. rewrite Hnone. by eexists.
  - left. simpl. by repeat split.
Qed.

Lemma resume_finished r gf pf p g g' :
  resume r gf pf p g = (g', None) ->
  inApiCall g' = false ∧ Browser.forceUpdateDisabled g' = false.
Proof.
  unfold Browser.resume.
  destruct (Browser.phase p) as [hist|blocks i acc].
  - case_bool_decide; [done|]. by intros [= <-].
  - destruct (blocks !! i) as [block|].
    + destruct (Browser.summarizeBlock _ _ _ _ _ _ _ _) as [[acc'|] c'];
        [done|]. by intros [= <-].
    + by intros [= <-].
Qed.

Lemma resume_suspended r gf pf p g g' p' :
  resume r gf pf p g = (g', Some p') ->
  inApiCall g' = inApiCall g
  ∧ Browser.forceUpdateDisabled g' = Browser.forceUpdateDisabled g.
Proof.
  unfold Browser.resume.
  destruct (Browser.phase p) as [hist|blocks i acc].
  - case_bool_decide; [|done]. by intros [= <- _].
  - destruct (blocks !! i) as [block|]; [|done].
    destruct (Browser.summarizeBlock _ _ _ _ _ _ _ _) as [[acc'|] c'];
      [|done]. by intros [= <- _].
Qed.

(** Events that touch neither the flag, the button nor the passes. *)
Lemma singlePass_frame w w' :
  inApiCall (globals w') = inApiCall (globals w) ->
  Browser.forceUpdateDisabled (globals w')
  = Browser.forceUpdateDisabled (globals w) ->
  inFlight w' = inFlight w ->
  singlePass w -> singlePass w'.
Proof.
  unfold singlePass. intros -> -> ->. done.
Qed.

Lemma step_single w w' : step w w' -> singlePass w -> singlePass w'.
Proof.
  intros Hstep Hw.
  destruct Hstep as [w|w Hbtn|w k p r gf pf Hk|w chat' st'|w f h s|w f
                    |w f h|w s|w].
  - by apply checkAndSummarize_single.
  - apply checkAndSummarize_single. revert Hw. by apply singlePass_frame.
  - destruct Hw as [(_ & _ & Hnone)|(Htrue & Hdis & [p0 Hone])].
    { by rewrite Hnone in Hk. }
    rewrite Hone in Hk. destruct k; [|done]. simpl in Hk.
    unfold Browser.resumeAt.
    destruct (resume r gf pf p (globals w)) as [g' [p'|]] eqn:E.
    + destruct (resume_suspended _ _ _ _ _ _ _ E) as [Hf Hb].
      right. simpl. rewrite Hf, Hb, Hone. repeat split; try done. by eexists.
    + destruct (resume_finished _ _ _ _ _ _ E) as [Hf Hb].
      left. simpl. rewrite Hf, Hb, Hone. done.
  - revert Hw. by apply singlePass_frame.
  - revert Hw. by apply singlePass_frame.
  - revert Hw. by apply singlePass_frame.
  - revert Hw. by apply singlePass_frame.
  - revert Hw. by apply singlePass_frame.
  - revert Hw. by apply singlePass_frame.
Qed.

Lemma reachable_single st c chat0 w :
  reachable st c chat0 w -> singlePass w.
Proof.
  induction 1 as [|w w' _ IH Hstep].
  - by left.
  - by apply (step_single w w').
Qed.

End Trigger.

(** C8. While the in-progress flag is set, a trigger of the summarization
    entry point [checkAndSummarize] returns at once and leaves everything
    as it was: settings, cache, counters, prompt, chat and the set of
    passes in flight (it is not queued, nothing is segmented and no client
    call is made). In every reachable state at most one pass is in flight,
    the flag is set exactly when one is, and the "Summarize Now" button is
    disabled exactly then, so the forced trigger cannot fire during a pass.
    The flag stays set while the pass is suspended and is cleared when the
    pass ends, whether it completes or fails. *)
Theorem in_progress_flag_excludes_second_pass
    (digestMessage trim : string -> string)
    (substitute : string -> string -> string) :
  (∀ w, Browser.inApiCall (Browser.globals w) = true ->
        Browser.checkAndSummarize trim substitute w = w)
  ∧ (∀ st c chat0 w,
       Browser.reachable digestMessage trim substitute st c chat0 w ->
       length (Browser.inFlight w) ≤ 1
       ∧ (Browser.inApiCall (Browser.globals w) = true
          ↔ length (Browser.inFlight w) = 1)
       ∧ Browser.forceUpdateDisabled (Browser.globals w)
         = Browser.inApiCall (Browser.globals w))
  ∧ (∀ r gf pf p g g',
       Browser.resume digestMessage trim substitute r gf pf p g = (g', None) ->
       Browser.inApiCall g' = false)
  ∧ (∀ r gf pf p g g' p',
       Browser.resume digestMessage trim substitute r gf pf p g = (g', Some p') ->
       Browser.inApiCall g' = Browser.inApiCall g).
Proof.
  split; [|split; [|split]].
  - apply checkAndSummarize_noop.
  - intros st c chat0 w Hreach.
    destruct (reachable_single _ _ _ _ _ _ _ Hreach)
      as [(Hf & Hb & Hn)|(Ht & Hb & [p Hp])].
    + rewrite Hf, Hb, Hn. simpl. split; [lia|]. split; [|done].
      split; [done|lia].
    + rewrite Ht, Hb, Hp. simpl. split; [lia|done].
  - intros r gf pf p g g' E. by destruct (resume_finished _ _ _ _ _ _ _ _ _ E).
  - intros r gf pf p g g' p' E.
    by destruct (resume_suspended _ _ _ _ _ _ _ _ _ _ E).
Qed.

Lemma in_progress_flag_excludes_second_pass_witness :
  let st := Browser.mkSettings true "http://api" 10 1 "{{summary_content}}" in
  let w0 := Browser.initWorld st {| blockCache := ∅; durable := ∅ |}
              [ mkMessage "U" true "hi" false;
                mkMessage "A" false "hello" false ] in
  let w1 := Browser.checkAndSummarize (fun s => s) (fun _ s => s) w0 in
  Browser.inApiCall (Browser.globals w1) = true
  ∧ Browser.checkAndSummarize (fun s => s) (fun _ s => s) w1 = w1
  ∧ length (Browser.inFlight w1) = 1.
Proof.
  intros st w0 w1.
  destruct (in_progress_flag_excludes_second_pass
              (fun s => s) (fun s => s) (fun _ s => s)) as (Hnoop & Hinv & _).
  assert (Hflag : Browser.inApiCall (Browser.globals w1) = true)
    by reflexivity.
  split; [exact Hflag|]. split; [exact (Hnoop w1 Hflag)|].
  assert (Hreach : Browser.reachable (fun s => s) (fun s => s) (fun _ s => s)
                     st {| blockCache := ∅; durable := ∅ |}
                     [ mkMessage "U" true "hi" false;
                       mkMessage "A" false "hello" false ] w1).
  { eapply Browser.reach_step; [apply Browser.reach_init|].
    apply Browser.step_trigger. }
  destruct (Hinv _ _ _ _ Hreach) as (_ & Hiff & _).
  by apply Hiff.
Defined.

(** A whole pass over a two-message chat whose last message is still being
    written: the trigger starts the pass, a second trigger is dropped, and
    three resumptions later the summary is installed and the flag is
    clear. *)
Example pass_runs_to_completion :
  let st := Browser.mkSettings true "http://api" 10 1 "{{summary_content}}" in
  let run := Browser.resumeAt (fun s => s) (fun s => s) (fun _ s => s) 0
               (OkBody (Some "short")) Browser.DbOk Browser.DbOk in
  let w0 := Browser.initWorld st {| blockCache := ∅; durable := ∅ |}
              [ mkMessage "U" true "hi" false;
                mkMessage "A" false "hello" false ] in
  let w1 := Browser.checkAndSummarize (fun s => s) (fun _ s => s) w0 in
  ∃ p1 p2 p3 w2 w3 w4,
    Browser.inFlight w1 = [p1] ∧ w2 = run p1 w1
    ∧ Browser.inFlight w2 = [p2] ∧ w3 = run p2 w2
    ∧ Browser.inFlight w3 = [p3] ∧ w4 = run p3 w3
    ∧ Browser.inFlight w4 = []
    ∧ Browser.inApiCall (Browser.globals w4) = false
    ∧ Browser.lastSummaryContent (Browser.globals w4) = "short"
    ∧ Browser.lastMessageCount (Browser.globals w4) = 2
    ∧ blockCache (Browser.cache (Browser.globals w4)) !! "U:hi" = Some "short".
Proof.
  repeat eexists.
Qed.

(** * Further properties of the code *)

(** ** Segmentation: hashes, skipped messages, stability *)

Lemma browser_blocks_grow digest blockSize l : ∀ st,
  ∃ more, blocks (fold_left (Browser.segStep digest blockSize) l st)
          = blocks st ++ more.
Proof.
  induction l as [|m l IH]; intros st; simpl.
  - exists []. by rewrite app_nil_r.
  - destruct (IH (Browser.segStep digest blockSize st m)) as [more Hm].
    rewrite Hm. unfold Browser.segStep.
    destruct (is_system m); [by eauto|].
    case_bool_decide; [by eauto|].
    destruct (_ && _); simpl; [|by eauto].
    unfold Browser.closeBlock. rewrite <- app_assoc. by eauto.
Qed.

Lemma server_blocks_grow md5hex blockSize l : ∀ st,
  ∃ more, blocks (fold_left (Server.segStep md5hex blockSize) l st)
          = blocks st ++ more.
Proof.
  induction l as [|m l IH]; intros st; simpl.
  - exists []. by rewrite app_nil_r.
  - destruct (IH (Server.segStep md5hex blockSize st m)) as [more Hm].
    rewrite Hm. unfold Server.segStep.
    destruct (Server.mustClose blockSize st (messageLength m));
      case_bool_decide; simpl; try by eauto.
    all: unfold Server.closeBlock; rewrite <- app_assoc; by eauto.
Qed.

Lemma browser_hashes_inv digest blockSize l : ∀ st,
  Forall (fun b => hash b = Browser.getBlockHash digest (details b)) (blocks st) ->
  Forall (fun b => hash b = Browser.getBlockHash digest (details b))
         (blocks (fold_left (Browser.segStep digest blockSize) l st)).
Proof.
  induction l as [|m l IH]; intros st Hst; simpl; [done|].
  apply IH. unfold Browser.segStep.
  destruct (is_system m); [done|].
  case_bool_decide; [done|].
  destruct (_ && _); simpl; [|done].
  unfold Browser.closeBlock. apply Forall_app. split; [done|].
  by constructor.
Qed.

Lemma server_hashes_inv md5hex blockSize l : ∀ st,
  Forall (fun b => hash b = Server.getBlockHash md5hex (details b)) (blocks st) ->
  Forall (fun b => hash b = Server.getBlockHash md5hex (details b))
         (blocks (fold_left (Server.segStep md5hex blockSize) l st)).
Proof.
  induction l as [|m l IH]; intros st Hst; simpl; [done|].
  apply IH. unfold Server.segStep.
  assert (Hc : Forall (fun b => hash b = Server.getBlockHash md5hex (details b))
                 (Server.closeBlock md5hex st)).
  { unfold Server.closeBlock. apply Forall_app. split; [done|]. by constructor. }
  destruct (Server.mustClose blockSize st (messageLength m));
    case_bool_decide; simpl; done.
Qed.

(** X1. Every block either host emits carries the hash of its own
    messages; so two emitted blocks, from any two chats and block sizes,
    whose messages agree pairwise on role and text carry the same hash. *)
Theorem emitted_hash_is_content_hash
    (digestMessage md5hex : string -> string) (blockSize : nat)
    (chatHistory : list Message) :
  Forall (fun b => hash b = Browser.getBlockHash digestMessage (details b))
         (Browser.generateBlocks digestMessage blockSize chatHistory)
  ∧ Forall (fun b => hash b = Server.getBlockHash md5hex (details b))
           (Server.segmentHistory md5hex blockSize chatHistory)
  ∧ (∀ blockSize' chatHistory' b b',
       b ∈ Browser.generateBlocks digestMessage blockSize chatHistory ->
       b' ∈ Browser.generateBlocks digestMessage blockSize' chatHistory' ->
       fingerprint (details b) = fingerprint (details b') ->
       hash b = hash b').
Proof.
  assert (Hb : ∀ size l,
            Forall (fun b => hash b = Browser.getBlockHash digestMessage (details b))
                   (Browser.generateBlocks digestMessage size l)).
  { intros size l. unfold Browser.generateBlocks.
    pose proof (browser_hashes_inv digestMessage size l segInit
                  (List.Forall_nil _)) as H.
    case_bool_decide; [|done].
    unfold Browser.closeBlock. apply Forall_app. split; [done|].
    by constructor. }
  split; [apply Hb|]. split.
  - unfold Server.segmentHistory.
    pose proof (server_hashes_inv md5hex blockSize chatHistory segInit
                  (List.Forall_nil _)) as H.
    case_bool_decide; [|done].
    unfold Server.closeBlock. apply Forall_app. split; [done|].
    by constructor.
  - intros size' l' b b' Hin Hin' Hfp.
    pose proof (Hb blockSize chatHistory) as H1.
    pose proof (Hb size' l') as H2.
    rewrite Forall_forall in H1, H2.
    rewrite (H1 b Hin), (H2 b' Hin').
    unfold Browser.getBlockHash.
    by rewrite (contentString_fingerprint _ _ Hfp).
Qed.

Lemma emitted_hash_is_content_hash_witness :
  let b := {| hash := "U:hi"; details := [mkBlockMsg "Al" true "hi"] |} in
  let b' := {| hash := "U:hi"; details := [mkBlockMsg "Bo" true "hi"] |} in
  b ∈ Browser.generateBlocks (fun s => s) 10 [mkMessage "Al" true "hi" false]
  ∧ b' ∈ Browser.generateBlocks (fun s => s) 3
           [mkMessage "Zed" false "hello" false; mkMessage "Bo" true "hi" false]
  ∧ hash b = hash b'.
Proof.
  intros b b'.
  assert (H1 : b ∈ Browser.generateBlocks (fun s => s) 10
                     [mkMessage "Al" true "hi" false]).
  { apply list_elem_of_lookup. by exists 0. }
  assert (H2 : b' ∈ Browser.generateBlocks (fun s => s) 3
                      [mkMessage "Zed" false "hello" false;
                       mkMessage "Bo" true "hi" false]).
  { apply list_elem_of_lookup. by exists 1. }
  split; [exact H1|]. split; [exact H2|].
  destruct (emitted_hash_is_content_hash (fun s => s) (fun s => s) 10
              [mkMessage "Al" true "hi" false]) as (_ & _ & H).
  exact (H 3 _ b b' H1 H2 eq_refl).
Defined.

Lemma browser_segStep_skip digest blockSize st m :
  keptBrowser m = false -> Browser.segStep digest blockSize st m = st.
Proof.
  unfold keptBrowser, Browser.segStep. intros Hk.
  destruct (is_system m); [done|]. simpl in Hk.
  rewrite bool_decide_eq_true_2; [done|].
  rewrite messageLength_eq. by destruct (mes m).
Qed.

Lemma browser_fold_filter digest blockSize l : ∀ st,
  fold_left (Browser.segStep digest blockSize) (filter keptBrowser l) st
  = fold_left (Browser.segStep digest blockSize) l st.
Proof.
  induction l as [|m l IH]; intros st; [done|].
  destruct (keptBrowser m) eqn:Hk.
  - rewrite filter_cons_True by (rewrite Hk; exact I). simpl. apply IH.
  - rewrite filter_cons_False by (rewrite Hk; exact id). simpl.
    by rewrite (browser_segStep_skip _ _ _ _ Hk).
Qed.

Lemma server_fold_filter md5hex blockSize l : ∀ full lean,
  serverAhead md5hex blockSize full lean ->
  serverAhead md5hex blockSize
    (fold_left (Server.segStep md5hex blockSize) l full)
    (fold_left (Server.segStep md5hex blockSize) (filter keptServer l) lean).
Proof.
  induction l as [|m l IH]; intros full lean HR; [done|].
  destruct (keptServer m) eqn:Hk.
  - rewrite filter_cons_True by (rewrite Hk; exact I). simpl. apply IH.
    assert (Hpos : 0 < messageLength m) by by apply messageLength_pos.
    destruct HR as [->|(Hcur & Hlen & Hbl & Hnon & Hbig)]; [by left|].
    left. unfold Server.segStep.
    rewrite (bool_decide_eq_true_2 (0 < messageLength m)) by done.
    assert (Server.mustClose blockSize full (messageLength m) = false) as ->.
    { unfold Server.mustClose. by rewrite Hcur. }
    assert (Server.mustClose blockSize lean (messageLength m) = true) as ->.
    { unfold Server.mustClose.
      rewrite andb_true_iff, orb_true_iff, !bool_decide_eq_true. lia. }
    simpl. by rewrite Hcur, Hlen, Hbl.
  - rewrite filter_cons_False by (rewrite Hk; exact id). simpl. apply IH.
    assert (Hzero : messageLength m = 0).
    { unfold keptServer in Hk. unfold messageLength. by rewrite Hk. }
    unfold Server.segStep. rewrite Hzero.
    rewrite (bool_decide_eq_false_2 (0 < 0)) by lia.
    destruct HR as [->|(Hcur & Hlen & Hbl & Hnon & Hbig)].
    + destruct (Server.mustClose blockSize lean 0) eqn:Eclose; [|by left].
      right. simpl. unfold Server.mustClose in Eclose.
      rewrite andb_true_iff, orb_true_iff, !bool_decide_eq_true in Eclose.
      repeat split; try done; lia.
    + assert (Server.mustClose blockSize full 0 = false) as ->.
      { unfold Server.mustClose. by rewrite Hcur. }
      right. by repeat split.
Qed.

(** X2. Messages that are skipped (empty text; system messages in the
    browser host) never influence the result: segmenting a history gives
    the same blocks, hashes included, as segmenting it with those messages
    removed beforehand. In the server host this holds although an empty
    message can make the loop finalize the current block early. *)
Theorem skipped_messages_do_not_matter
    (digestMessage md5hex : string -> string) (blockSize : nat)
    (chatHistory : list Message) :
  Browser.generateBlocks digestMessage blockSize (filter keptBrowser chatHistory)
  = Browser.generateBlocks digestMessage blockSize chatHistory
  ∧ Server.segmentHistory md5hex blockSize (filter keptServer chatHistory)
    = Server.segmentHistory md5hex blockSize chatHistory.
Proof.
  split.
  - unfold Browser.generateBlocks. by rewrite browser_fold_filter.
  - unfold Server.segmentHistory.
    destruct (server_fold_filter md5hex blockSize chatHistory segInit segInit)
      as [->|(Hcur & Hlen & Hbl & Hnon & Hbig)]; [by left|done|].
    rewrite Hcur. simpl.
    by rewrite bool_decide_eq_true_2.
Qed.

(** An empty message after an over-budget one makes the server loop
    finalize the block at once; the blocks are the same as without it. *)
Example server_early_close :
  let big := mkMessage "U" true "xxxxxxxx" false in
  let empty := mkMessage "A" false "" false in
  let next := mkMessage "A" false "ok" false in
  blocks (fold_left (Server.segStep (fun s => s) 5) [big; empty] segInit)
  = [ {| hash := "U:xxxxxxxx"; details := [toBlockMsg big] |} ]
  ∧ blocks (fold_left (Server.segStep (fun s => s) 5) [big] segInit) = []
  ∧ Server.segmentHistory (fun s => s) 5 [big; empty; next]
    = Server.segmentHistory (fun s => s) 5 [big; next].
Proof. repeat split. Qed.

(** X3. Appending messages to a history never changes any block but the
    last: every block of the old segmentation except its last one is, in
    the same position and with the same hash, a block of the new one. *)
Theorem earlier_blocks_are_stable
    (digestMessage md5hex : string -> string) (blockSize : nat)
    (chatHistory newer : list Message) :
  removelast (Browser.generateBlocks digestMessage blockSize chatHistory)
    `prefix_of` Browser.generateBlocks digestMessage blockSize
                  (chatHistory ++ newer)
  ∧ removelast (Server.segmentHistory md5hex blockSize chatHistory)
      `prefix_of` Server.segmentHistory md5hex blockSize
                    (chatHistory ++ newer).
Proof.
  assert (Hgen : ∀ (B more : list Block) (x y : Block) (c1 c2 : bool),
            removelast (if c1 then B ++ [x] else B)
              `prefix_of` (if c2 then (B ++ more) ++ [y] else B ++ more)).
  { intros B more x y c1 c2.
    assert (HB : removelast (if c1 then B ++ [x] else B) `prefix_of` B).
    { destruct c1.
      - by rewrite removelast_last.
      - destruct B as [|b B] using rev_ind; [done|].
        rewrite removelast_last. by apply prefix_app_r. }
    etrans; [exact HB|].
    destruct c2.
    - rewrite <- app_assoc. by apply prefix_app_r.
    - by apply prefix_app_r. }
  split.
  - unfold Browser.generateBlocks. rewrite fold_left_app.
    set (st := fold_left (Browser.segStep digestMessage blockSize)
                 chatHistory segInit).
    destruct (browser_blocks_grow digestMessage blockSize newer st)
      as [more Hm].
    unfold Browser.closeBlock. rewrite Hm. apply Hgen.
  - unfold Server.segmentHistory. rewrite fold_left_app.
    set (st := fold_left (Server.segStep md5hex blockSize)
                 chatHistory segInit).
    destruct (server_blocks_grow md5hex blockSize newer st) as [more Hm].
    unfold Server.closeBlock. rewrite Hm. apply Hgen.
Qed.

Lemma browser_segmentation_facts digest blockSize l :
  let out := Browser.generateBlocks digest blockSize l in
  Forall (fun b => withinBudget blockSize (details b)) out
  ∧ Forall (fun b => details b ≠ []) out
  ∧ concat (map details out) = map toBlockMsg (filter keptBrowser l).
Proof.
  apply (emitted_blocks_ok keptBrowser blockSize _ l (Browser.closeBlock digest)).
  - intros st. by eexists.
  - apply (fold_left_invariant (Browser.segStep digest blockSize)
             (SegInv keptBrowser blockSize)
             (fun st seen x => browser_segStep_inv digest blockSize st seen x)
             l segInit []).
    apply segInit_inv.
Qed.

Lemma server_segmentation_facts md5hex blockSize l :
  let out := Server.segmentHistory md5hex blockSize l in
  Forall (fun b => withinBudget blockSize (details b)) out
  ∧ Forall (fun b => details b ≠ []) out
  ∧ concat (map details out) = map toBlockMsg (filter keptServer l).
Proof.
  apply (emitted_blocks_ok keptServer blockSize _ l (Server.closeBlock md5hex)).
  - intros st. by eexists.
  - apply (fold_left_invariant (Server.segStep md5hex blockSize)
             (SegInv keptServer blockSize)
             (fun st seen x => server_segStep_inv md5hex blockSize st seen x)
             l segInit []).
    apply segInit_inv.
Qed.

Lemma length_concat_nonempty {A} (ls : list (list A)) :
  Forall (fun l => l ≠ []) ls -> length ls ≤ length (concat ls).
Proof.
  induction 1 as [|l ls Hl _ IH]; simpl; [lia|].
  rewrite length_app. destruct l; [done|]. simpl. lia.
Qed.

Lemma block_count_facts (out : list Block) (keptMsgs : list Message) :
  Forall (fun b => details b ≠ []) out ->
  concat (map details out) = map toBlockMsg keptMsgs ->
  length out ≤ length keptMsgs ∧ (out = [] ↔ keptMsgs = []).
Proof.
  intros Hne Hcat.
  assert (Hlen : length out ≤ length keptMsgs).
  { rewrite <- (length_map toBlockMsg keptMsgs), <- Hcat.
    rewrite <- (length_map details out).
    apply length_concat_nonempty. by apply Forall_map. }
  split; [exact Hlen|]. split.
  - intros ->. simpl in Hcat. by destruct keptMsgs.
  - intros ->. destruct out; [done|]. simpl in Hlen. lia.
Qed.

(** X4. Either host yields at most one block per message it keeps, and no
    block at all exactly when it keeps no message (an empty history, or
    one made of system and empty messages only). *)
Theorem block_count_bounds
    (digestMessage md5hex : string -> string) (blockSize : nat)
    (chatHistory : list Message) :
  (length (Browser.generateBlocks digestMessage blockSize chatHistory)
   ≤ length (filter keptBrowser chatHistory)
   ∧ (Browser.generateBlocks digestMessage blockSize chatHistory = []
      ↔ filter keptBrowser chatHistory = []))
  ∧ (length (Server.segmentHistory md5hex blockSize chatHistory)
     ≤ length (filter keptServer chatHistory)
     ∧ (Server.segmentHistory md5hex blockSize chatHistory = []
        ↔ filter keptServer chatHistory = [])).
Proof.
  split.
  - destruct (browser_segmentation_facts digestMessage blockSize chatHistory)
      as (_ & Hne & Hcat).
    by apply block_count_facts.
  - destruct (server_segmentation_facts md5hex blockSize chatHistory)
      as (_ & Hne & Hcat).
    by apply block_count_facts.
Qed.

Lemma browser_no_close digest blockSize l : ∀ st,
  blocks st = [] ->
  currentBlockLength st + list_sum (map messageLength (filter keptBrowser l))
  ≤ blockSize ->
  blocks (fold_left (Browser.segStep digest blockSize) l st) = [].
Proof.
  induction l as [|m l IH]; intros st Hb Hfit; [done|]. simpl.
  destruct (keptBrowser m) eqn:Hk.
  - rewrite filter_cons_True in Hfit by (rewrite Hk; exact I).
    simpl in Hfit.
    unfold keptBrowser in Hk. apply andb_true_iff in Hk as [Hsys Htxt].
    apply negb_true_iff in Hsys.
    assert (Hpos : 0 < messageLength m) by by apply messageLength_pos.
    apply IH.
    + unfold Browser.segStep. rewrite Hsys.
      rewrite bool_decide_eq_false_2 by lia.
      rewrite (bool_decide_eq_false_2
                 (blockSize < currentBlockLength st + messageLength m)) by lia.
      by rewrite andb_false_r.
    + unfold Browser.segStep. rewrite Hsys.
      rewrite bool_decide_eq_false_2 by lia.
      rewrite (bool_decide_eq_false_2
                 (blockSize < currentBlockLength st + messageLength m)) by lia.
      rewrite andb_false_r. simpl. lia.
  - rewrite filter_cons_False in Hfit by (rewrite Hk; exact id).
    rewrite (browser_segStep_skip _ _ _ _ Hk). by apply IH.
Qed.

Lemma server_no_close md5hex blockSize l : ∀ st,
  Forall (fun m => keptServer m = true) l ->
  blocks st = [] ->
  currentBlockLength st + list_sum (map messageLength l) ≤ blockSize ->
  length (currentBlock st) + length l ≤ 101 ->
  blocks (fold_left (Server.segStep md5hex blockSize) l st) = [].
Proof.
  induction l as [|m l IH]; intros st Hall Hb Hfit Hcount; [done|]. simpl.
  apply Forall_cons in Hall as [Hk Hall]. simpl in Hfit, Hcount.
  assert (Hpos : 0 < messageLength m) by by apply messageLength_pos.
  assert (Hstep : Server.segStep md5hex blockSize st m
                  = {| blocks := blocks st;
                       currentBlock := currentBlock st ++ [toBlockMsg m];
                       currentBlockLength := currentBlockLength st + messageLength m |}).
  { unfold Server.segStep.
    assert (Server.mustClose blockSize st (messageLength m) = false) as ->.
    { unfold Server.mustClose.
      rewrite (bool_decide_eq_false_2
                 (blockSize < currentBlockLength st + messageLength m)) by lia.
      rewrite (bool_decide_eq_false_2 (100 < length (currentBlock st))) by lia.
      by rewrite andb_false_r. }
    by rewrite bool_decide_eq_true_2. }
  rewrite Hstep. apply IH; simpl; try done; [lia|].
  rewrite length_app. simpl. lia.
Qed.

Lemma server_segment_filter md5hex blockSize l :
  Server.segmentHistory md5hex blockSize (filter keptServer l)
  = Server.segmentHistory md5hex blockSize l.
Proof.
  unfold Server.segmentHistory.
  destruct (server_fold_filter md5hex blockSize l segInit segInit)
    as [->|(Hcur & Hlen & Hbl & Hnon & Hbig)]; [by left|done|].
  rewrite Hcur. simpl. by rewrite bool_decide_eq_true_2.
Qed.

Lemma browser_fold_inv digest blockSize l :
  SegInv keptBrowser blockSize
    (fold_left (Browser.segStep digest blockSize) l segInit) l.
Proof.
  apply (fold_left_invariant (Browser.segStep digest blockSize)
           (SegInv keptBrowser blockSize)
           (fun st seen x => browser_segStep_inv digest blockSize st seen x)
           l segInit []).
  apply segInit_inv.
Qed.

Lemma server_fold_inv md5hex blockSize l :
  SegInv keptServer blockSize
    (fold_left (Server.segStep md5hex blockSize) l segInit) l.
Proof.
  apply (fold_left_invariant (Server.segStep md5hex blockSize)
           (SegInv keptServer blockSize)
           (fun st seen x => server_segStep_inv md5hex blockSize st seen x)
           l segInit []).
  apply segInit_inv.
Qed.

(** X5. A history that fits the budget makes one block: if at least one
    message is kept and the kept texts total at most the block size (and,
    in the server host, there are at most 101 of them), the result is the
    single block of all kept messages in order, with their hash. *)
Theorem fitting_history_is_one_block
    (digestMessage md5hex : string -> string) (blockSize : nat)
    (chatHistory : list Message) :
  (let keptMsgs := filter keptBrowser chatHistory in
   keptMsgs ≠ [] ->
   list_sum (map messageLength keptMsgs) ≤ blockSize ->
   Browser.generateBlocks digestMessage blockSize chatHistory
   = [ {| hash := Browser.getBlockHash digestMessage (map toBlockMsg keptMsgs);
          details := map toBlockMsg keptMsgs |} ])
  ∧ (let keptMsgs := filter keptServer chatHistory in
     keptMsgs ≠ [] ->
     list_sum (map messageLength keptMsgs) ≤ blockSize ->
     length keptMsgs ≤ 101 ->
     Server.segmentHistory md5hex blockSize chatHistory
     = [ {| hash := Server.getBlockHash md5hex (map toBlockMsg keptMsgs);
            details := map toBlockMsg keptMsgs |} ]).
Proof.
  split.
  - intros keptMsgs Hne Hfit.
    pose proof (browser_no_close digestMessage blockSize chatHistory segInit
                  eq_refl Hfit) as Hb.
    destruct (browser_fold_inv digestMessage blockSize chatHistory)
      as [_ _ _ Hcat].
    rewrite Hb in Hcat. simpl in Hcat. fold keptMsgs in Hcat.
    unfold Browser.generateBlocks, Browser.closeBlock.
    rewrite Hb, Hcat. simpl.
    rewrite bool_decide_eq_true_2; [done|].
    rewrite length_map. destruct keptMsgs; [done|simpl; lia].
  - intros keptMsgs Hne Hfit Hcount.
    rewrite <- server_segment_filter. fold keptMsgs.
    assert (Hall : Forall (fun m => keptServer m = true) keptMsgs).
    { apply Forall_forall. intros m Hin.
      apply list_elem_of_filter in Hin as [Hk _].
      by apply Is_true_true. }
    assert (Hidem : filter keptServer keptMsgs = keptMsgs).
    { clear -Hall. induction Hall as [|m l Hm _ IH]; [done|].
      rewrite filter_cons_True by (rewrite Hm; exact I). by rewrite IH. }
    pose proof (server_no_close md5hex blockSize keptMsgs segInit Hall
                  eq_refl Hfit Hcount) as Hb.
    destruct (server_fold_inv md5hex blockSize keptMsgs) as [_ _ _ Hcat].
    rewrite Hb, Hidem in Hcat. simpl in Hcat.
    unfold Server.segmentHistory, Server.closeBlock.
    rewrite Hb, Hcat. simpl.
    rewrite bool_decide_eq_true_2; [done|].
    rewrite length_map. destruct keptMsgs; [done|simpl; lia].
Qed.

Lemma fitting_history_is_one_block_witness :
  let chatHistory := [ mkMessage "U" true "hi" false;
                       mkMessage "sys" false "note" true;
                       mkMessage "A" false "hello" false ] in
  filter keptBrowser chatHistory ≠ []
  ∧ list_sum (map messageLength (filter keptBrowser chatHistory)) ≤ 10
  ∧ Browser.generateBlocks (fun s => s) 10 chatHistory
    = [ {| hash := "U:hi|C:hello";
           details := [mkBlockMsg "U" true "hi"; mkBlockMsg "A" false "hello"] |} ].
Proof.
  intros chatHistory.
  assert (H1 : filter keptBrowser chatHistory ≠ []) by discriminate.
  assert (H2 : list_sum (map messageLength (filter keptBrowser chatHistory)) ≤ 10).
  { vm_compute. lia. }
  split; [exact H1|]. split; [exact H2|].
  destruct (fitting_history_is_one_block (fun s => s) (fun s => s) 10 chatHistory)
    as [Hb _].
  exact (Hb H1 H2).
Defined.

(** ** The cache: clearing, independence of hashes, stickiness *)

(** X6. Clearing the browser cache empties the in-memory layer whatever
    IndexedDB does. It reports success exactly when the store was cleared,
    and then every lookup that returns is a miss. When it reports failure
    or rejects, the durable store is untouched, so an entry that was
    stored durably is found again by the next lookup. *)
Theorem browser_clear_cache (f : Browser.DbFault) (c : Cache) :
  let r := Browser.clearSummaryCache f c in
  blockCache r.2 = ∅
  ∧ (r.1 = Returned true ↔ f = Browser.DbOk)
  ∧ (f = Browser.DbOk ->
     durable r.2 = ∅
     ∧ ∀ fg h, fg ≠ Browser.DbRequestFails ->
         Browser.getSummaryFromCache fg h r.2 = (Returned None, r.2))
  ∧ (f ≠ Browser.DbOk ->
     durable r.2 = durable c
     ∧ ∀ h s, durable c !! h = Some s ->
         (Browser.getSummaryFromCache Browser.DbOk h r.2).1
         = Returned (Some s)).
Proof.
  destruct f; simpl; (split; [done|]); (split; [done|]); split; try done.
  - intros _. split; [done|]. intros fg h Hfg.
    unfold Browser.getSummaryFromCache. simpl.
    rewrite !lookup_empty. by destruct fg.
  - intros _. split; [done|]. intros h s Hs.
    unfold Browser.getSummaryFromCache. simpl.
    by rewrite lookup_empty, Hs.
  - intros _. split; [done|]. intros h s Hs.
    unfold Browser.getSummaryFromCache. simpl.
    by rewrite lookup_empty, Hs.
Qed.

Lemma browser_clear_cache_witness :
  let c := {| blockCache := {[ "h" := "s" ]}; durable := {[ "h" := "s" ]} |} in
  Browser.DbOpenFails ≠ Browser.DbOk
  ∧ (Browser.clearSummaryCache Browser.DbOpenFails c).1 = Returned false
  ∧ (Browser.getSummaryFromCache Browser.DbOk "h"
       (Browser.clearSummaryCache Browser.DbOpenFails c).2).1
    = Returned (Some "s").
Proof.
  intros c.
  assert (Hne : Browser.DbOpenFails ≠ Browser.DbOk) by discriminate.
  split; [exact Hne|]. split; [reflexivity|].
  destruct (browser_clear_cache Browser.DbOpenFails c) as (_ & _ & _ & Hfail).
  destruct (Hfail Hne) as [_ Hfound].
  apply Hfound. reflexivity.
Defined.



Lemma browser_get_some f hash summary c c1 :
  Browser.getSummaryFromCache f hash c = (Returned (Some summary), c1) ->
  blockCache c1 !! hash = Some summary ∧ durable c1 = durable c.
Proof.
  unfold Browser.getSummaryFromCache. intros Hget.
  destruct (blockCache c !! hash) as [s|] eqn:E.
  - by injection Hget as <- <-.
  - destruct (Browser.getItemFromDB f hash (durable c)) as [[s|]|]; try done.
    injection Hget as <- <-. simpl. split; [|done]. apply lookup_insert_eq.
Qed.

Lemma server_get_some f hash summary c c1 :
  Server.getSummaryFromCache f hash c = (Some summary, c1) ->
  blockCache c1 !! hash = Some summary ∧ durable c1 = durable c.
Proof.
  unfold Server.getSummaryFromCache. intros Hget.
  destruct (blockCache c !! hash) as [s|] eqn:E.
  - by injection Hget as <- <-.
  - destruct f; [|done].
    destruct (durable c !! hash) as [s|]; [|done].
    injection Hget as <- <-. simpl. split; [|done]. apply lookup_insert_eq.
Qed.

(** X8. A summary that a lookup has returned stays available for the
    session: in either host, after a lookup returned a summary, every later
    lookup of that hash returns the same summary and leaves the cache
    alone, even when the durable layer has failed in the meantime; and a
    lookup never writes the durable store. *)
Theorem returned_summary_sticks (hash summary : string) (c : Cache) :
  (∀ f c1,
     Browser.getSummaryFromCache f hash c = (Returned (Some summary), c1) ->
     durable c1 = durable c
     ∧ ∀ f', Browser.getSummaryFromCache f' hash c1
             = (Returned (Some summary), c1))
  ∧ (∀ f c1,
       Server.getSummaryFromCache f hash c = (Some summary, c1) ->
       durable c1 = durable c
       ∧ ∀ f', Server.getSummaryFromCache f' hash c1 = (Some summary, c1)).
Proof.
  split.
  - intros f c1 Hget.
    destruct (browser_get_some _ _ _ _ _ Hget) as [Hmem Hd].
    split; [exact Hd|]. intros f'. by apply browser_get_memory_hit.
  - intros f c1 Hget.
    destruct (server_get_some _ _ _ _ _ Hget) as [Hmem Hd].
    split; [exact Hd|]. intros f'. by apply server_get_memory_hit.
Qed.

Lemma returned_summary_sticks_witness :
  let c := {| blockCache := ∅; durable := {[ "h" := "s" ]} |} in
  Browser.getSummaryFromCache Browser.DbOk "h" c
  = (Returned (Some "s"), setMem "h" "s" c)
  ∧ Browser.getSummaryFromCache Browser.DbRequestFails "h" (setMem "h" "s" c)
    = (Returned (Some "s"), setMem "h" "s" c).
Proof.
  intros c.
  assert (H : Browser.getSummaryFromCache Browser.DbOk "h" c
              = (Returned (Some "s"), setMem "h" "s" c)) by reflexivity.
  split; [exact H|].
  destruct (returned_summary_sticks "h" "s" c) as [Hb _].
  destruct (Hb Browser.DbOk _ H) as [_ Hagain].
  apply Hagain.
Defined.

(** ** Runs of the orchestrator and the cache *)

Lemma keys_grow_insert (m : gmap string string) h s :
  dom m ⊆ dom (<[h := s]> m).
Proof. rewrite dom_insert_L. set_solver. Qed.

Lemma browser_get_grows f h c :
  let r := Browser.getSummaryFromCache f h c in
  blockCache c ⊆ blockCache r.2
  ∧ durable r.2 = durable c
  ∧ (r.1 = Returned None -> blockCache c !! h = None ∧ r.2 = c).
Proof.
  unfold Browser.getSummaryFromCache.
  destruct (blockCache c !! h) as [s|] eqn:Emem; [done|].
  destruct f; simpl; try done.
  destruct (durable c !! h) as [s|]; simpl; [|done].
  split; [by apply insert_subseteq|done].
Qed.

Lemma browser_put_grows pf h s c :
  blockCache c !! h = None ->
  let c' := (Browser.saveSummaryToCache pf h s c).2 in
  blockCache c ⊆ blockCache c' ∧ dom (durable c) ⊆ dom (durable c').
Proof.
  intros Hmem. destruct pf; simpl; (split; [by apply insert_subseteq|]);
    try done. apply keys_grow_insert.
Qed.

Lemma browser_block_grows apiUrl r gf pf i block acc c :
  let c' := (Browser.summarizeBlock apiUrl r gf pf i block acc c).2 in
  blockCache c ⊆ blockCache c' ∧ dom (durable c) ⊆ dom (durable c').
Proof.
  unfold Browser.summarizeBlock, bind, ret.
  destruct (browser_get_grows gf (hash block) c) as (Hm & Hd & Hmiss).
  destruct (Browser.getSummaryFromCache gf (hash block) c) as [[[s|]|] c1];
    simpl in *; try (by rewrite Hd).
  destruct (Hmiss eq_refl) as [Hnone ->].
  destruct (Browser.callSummarizationApi apiUrl r) as [s|]; [|done].
  destruct (negb (startsWith "[Error:" s)); [|done].
  pose proof (browser_put_grows pf (hash block) s c Hnone) as Hput.
  by destruct (Browser.saveSummaryToCache pf (hash block) s c) as [[u|] c2].
Qed.

Lemma browser_loop_grows apiUrl env rest : ∀ i acc c,
  let c' := (Browser.summarizeLoop apiUrl env i rest acc c).2 in
  blockCache c ⊆ blockCache c' ∧ dom (durable c) ⊆ dom (durable c').
Proof.
  induction rest as [|b rest IH]; intros i acc c; simpl; [done|].
  unfold bind.
  pose proof (browser_block_grows apiUrl (Browser.reply env i)
                (Browser.getFault env i) (Browser.putFault env i) i b acc c)
    as [Hm Hd].
  destruct (Browser.summarizeBlock apiUrl (Browser.reply env i)
              (Browser.getFault env i) (Browser.putFault env i) i b acc c)
    as [[acc'|] c1]; simpl in *; [|done].
  destruct (IH (S i) acc' c1) as [Hm' Hd'].
  split; [by etrans | by etrans].
Qed.

Lemma server_get_grows f h c :
  let r := Server.getSummaryFromCache f h c in
  blockCache c ⊆ blockCache r.2
  ∧ durable r.2 = durable c
  ∧ (r.1 = None -> blockCache c !! h = None ∧ r.2 = c).
Proof.
  unfold Server.getSummaryFromCache.
  destruct (blockCache c !! h) as [s|] eqn:Emem; [done|].
  destruct f; [|done].
  destruct (durable c !! h) as [s|]; simpl; [|done].
  split; [by apply insert_subseteq|done].
Qed.

Lemma server_block_grows apiUrl r gf pf i block acc c :
  let c' := (Server.summarizeBlock apiUrl r gf pf i block acc c).2 in
  blockCache c ⊆ blockCache c' ∧ dom (durable c) ⊆ dom (durable c').
Proof.
  unfold Server.summarizeBlock.
  destruct (server_get_grows gf (hash block) c) as (Hm & Hd & Hmiss).
  destruct (Server.getSummaryFromCache gf (hash block) c) as [[s|] c1];
    simpl in *; [by rewrite Hd|].
  destruct (Hmiss eq_refl) as [Hnone ->].
  destruct (Server.callSummarizationApi apiUrl r) as [s|]; [|done].
  destruct pf; simpl; (split; [by apply insert_subseteq|]); try done.
  apply keys_grow_insert.
Qed.

Lemma server_loop_grows apiUrl env rest : ∀ i acc c,
  let c' := (Server.summarizeLoop apiUrl env i rest acc c).2 in
  blockCache c ⊆ blockCache c' ∧ dom (durable c) ⊆ dom (durable c').
Proof.
  induction rest as [|b rest IH]; intros i acc c; simpl; [done|].
  pose proof (server_block_grows apiUrl (Server.reply env i)
                (Server.getFault env i) (Server.putFault env i) i b acc c)
    as [Hm Hd].
  destruct (Server.summarizeBlock apiUrl (Server.reply env i)
              (Server.getFault env i) (Server.putFault env i) i b acc c)
    as [acc' c1]; simpl in *.
  destruct (IH (S i) acc' c1) as [Hm' Hd'].
  split; [by etrans | by etrans].
Qed.

(** X9. A run of either host only adds to the cache: whatever the
    endpoint and the durable layer do, and also when the browser run
    rejects, every in-memory entry present before the run is present and
    unchanged after it, and no durable key is lost. *)
Theorem run_only_adds_to_cache (apiUrl : string) (benv : Browser.Env)
    (senv : Server.Env) (blocks : list Block) (c : Cache) :
  (let c' := (Browser.summarizeAllBlocks apiUrl benv blocks c).2 in
   blockCache c ⊆ blockCache c' ∧ dom (durable c) ⊆ dom (durable c'))
  ∧ (let c' := (Server.summarizeLoop apiUrl senv 0 blocks [] c).2 in
     blockCache c ⊆ blockCache c' ∧ dom (durable c) ⊆ dom (durable c')).
Proof.
  split.
  - apply browser_loop_grows.
  - apply server_loop_grows.
Qed.

Lemma browser_block_clean apiUrl r gf pf i block acc c acc1 c1 :
  Browser.summarizeBlock apiUrl r gf pf i block acc c = (Returned acc1, c1) ->
  hasError acc1 = false ->
  hasError acc = false
  ∧ ∃ x, blockSummaries acc1 = blockSummaries acc ++ [x]
         ∧ blockCache c1 !! hash block = Some x.
Proof.
  unfold Browser.summarizeBlock, bind, ret, Browser.push.
  destruct (Browser.getSummaryFromCache gf (hash block) c) as [[[s|]|] c0]
    eqn:Eget; [| |done].
  - intros [= <- <-] Herr. simpl in *. split; [done|]. exists s.
    split; [done|].
    by destruct (browser_get_some _ _ _ _ _ Eget).
  - destruct (Browser.callSummarizationApi apiUrl r) as [s|].
    + destruct (negb (startsWith "[Error:" s)).
      * pose proof (browser_put_sets_memory pf (hash block) s c0) as Hput.
        destruct (Browser.saveSummaryToCache pf (hash block) s c0)
          as [[u|] c2]; [|done].
        intros [= <- <-] Herr. simpl in *. split; [done|]. by exists s.
      * by intros [= <- <-] Herr.
    + by intros [= <- <-] Herr.
Qed.

Lemma browser_loop_clean apiUrl env rest : ∀ i acc c res c',
  Browser.summarizeLoop apiUrl env i rest acc c = (Returned res, c') ->
  hasError res = false ->
  hasError acc = false
  ∧ ∃ more, blockSummaries res = blockSummaries acc ++ more
            ∧ Forall2 (fun b s => blockCache c' !! hash b = Some s) rest more.
Proof.
  induction rest as [|b rest IH]; intros i acc c res c'; simpl.
  - unfold ret. intros [= <- <-] Herr. split; [done|].
    exists []. by rewrite app_nil_r.
  - unfold bind.
    destruct (Browser.summarizeBlock apiUrl (Browser.reply env i)
                (Browser.getFault env i) (Browser.putFault env i) i b acc c)
      as [[acc1|] c1] eqn:E; [|done].
    intros Hloop Herr.
    destruct (IH _ _ _ _ _ Hloop Herr) as (Herr1 & more & Hm & Hall).
    destruct (browser_block_clean _ _ _ _ _ _ _ _ _ _ E Herr1)
      as (Herr0 & x & Hx & Hcached).
    split; [done|]. exists (x :: more). split.
    + by rewrite Hm, Hx, <- app_assoc.
    + constructor; [|done].
      pose proof (browser_loop_grows apiUrl env rest (S i) acc1 c1) as [Hsub _].
      rewrite Hloop in Hsub. simpl in Hsub.
      by eapply lookup_weaken.
Qed.

Lemma browser_loop_all_cached apiUrl env rest : ∀ sums i acc c,
  Forall2 (fun b s => blockCache c !! hash b = Some s) rest sums ->
  Browser.summarizeLoop apiUrl env i rest acc c
  = (Returned {| blockSummaries := blockSummaries acc ++ sums;
                 hasError := hasError acc |}, c).
Proof.
  induction rest as [|b rest IH]; intros sums i acc c Hall.
  - apply Forall2_nil_inv_l in Hall as ->. simpl. unfold ret.
    rewrite app_nil_r. by destruct acc.
  - apply Forall2_cons_inv_l in Hall as (s & sums' & Hb & Hall & ->).
    simpl. unfold bind.
    rewrite (browser_block_cached apiUrl _ _ _ i b acc c s c
               (browser_get_memory_hit _ _ _ _ Hb)).
    rewrite (IH sums' (S i) (Browser.push s acc) c Hall). simpl.
    by rewrite <- app_assoc.
Qed.

(** X10. After a browser run that returned without the error flag, every
    block's summary is in the in-memory layer; so a second run over the
    same blocks returns the same summaries, again without the flag, and
    leaves the cache as it is, whatever endpoint is configured and
    whatever the endpoint and IndexedDB would do: it makes no request. *)
Theorem clean_run_makes_rerun_free (apiUrl : string) (env : Browser.Env)
    (blocks : list Block) (c : Cache) (res : SumState) (c' : Cache) :
  Browser.summarizeAllBlocks apiUrl env blocks c = (Returned res, c') ->
  hasError res = false ->
  Forall2 (fun b s => blockCache c' !! hash b = Some s)
          blocks (blockSummaries res)
  ∧ ∀ apiUrl' env',
      Browser.summarizeAllBlocks apiUrl' env' blocks c' = (Returned res, c').
Proof.
  intros Hrun Herr.
  destruct (browser_loop_clean _ _ _ _ _ _ _ _ Hrun Herr)
    as (_ & more & Hm & Hall).
  simpl in Hm. rewrite Hm. split; [done|].
  intros apiUrl' env'. unfold Browser.summarizeAllBlocks.
  rewrite (browser_loop_all_cached apiUrl' env' blocks more 0 sumInit c' Hall).
  simpl. destruct res as [sums err]. simpl in *. by subst.
Qed.

Lemma clean_run_makes_rerun_free_witness :
  let blocks := [ {| hash := "h1"; details := [mkBlockMsg "U" true "one"] |};
                  {| hash := "h2"; details := [mkBlockMsg "A" false "two"] |} ] in
  let env := Browser.mkEnv (fun _ => OkBody (Some "genuine"))
               (fun _ => Browser.DbOk) (fun _ => Browser.DbOpenFails) in
  let offline := Browser.mkEnv (fun _ => FetchFails)
                   (fun _ => Browser.DbRequestFails)
                   (fun _ => Browser.DbRequestFails) in
  let c := {| blockCache := ∅; durable := ∅ |} in
  ∃ res c',
    Browser.summarizeAllBlocks "http://api" env blocks c = (Returned res, c')
    ∧ hasError res = false
    ∧ Browser.summarizeAllBlocks "" offline blocks c' = (Returned res, c').
Proof.
  intros blocks env offline c.
  eexists _, _. split; [reflexivity|]. split; [reflexivity|].
  eapply (clean_run_makes_rerun_free "http://api" env blocks c);
    reflexivity.
Defined.

Lemma browser_loop_returns_upto apiUrl env rest : ∀ i acc c,
  (∀ j, i ≤ j < i + length rest ->
        Browser.getFault env j ≠ Browser.DbRequestFails
        ∧ Browser.putFault env j ≠ Browser.DbRequestFails) ->
  ∃ res c', Browser.summarizeLoop apiUrl env i rest acc c = (Returned res, c').
Proof.
  induction rest as [|b rest IH]; intros i acc c Hnf; simpl.
  - unfold ret. by eauto.
  - destruct (Hnf i) as [Hgf Hpf]; [simpl; lia|].
    destruct (browser_block_returns apiUrl (Browser.reply env i) _ _ i b acc c
                Hgf Hpf) as (acc' & c' & E).
    unfold bind. rewrite E. apply IH.
    intros j Hj. apply Hnf. simpl. lia.
Qed.

(** X11. An IndexedDB request error aborts the browser run. If the first
    request that fails is the lookup of block k (a block not yet in
    memory), or the save of the summary just fetched for block k, the run
    rejects: no summaries array is returned and no later block is
    processed. The cache keeps what the earlier blocks added, and in the
    second case also the in-memory entry of block k. *)
Theorem request_error_aborts_run (apiUrl : string) (env : Browser.Env)
    (blocks : list Block) (c : Cache) (k : nat) (block : Block) :
  blocks !! k = Some block ->
  (∀ j, j < k -> Browser.getFault env j ≠ Browser.DbRequestFails
                 ∧ Browser.putFault env j ≠ Browser.DbRequestFails) ->
  let ck := browserCacheAt apiUrl env blocks c k in
  (blockCache ck !! hash block = None ->
   Browser.getFault env k = Browser.DbRequestFails ->
   Browser.summarizeAllBlocks apiUrl env blocks c = (Thrown, ck))
  ∧ (∀ s,
       browserMiss (Browser.getFault env k) block ck ->
       Browser.callSummarizationApi apiUrl (Browser.reply env k) = Some s ->
       startsWith "[Error:" s = false ->
       Browser.putFault env k = Browser.DbRequestFails ->
       Browser.summarizeAllBlocks apiUrl env blocks c
       = (Thrown, setMem (hash block) s ck)).
Proof.
  intros Hk Hnf ck.
  destruct (browser_loop_returns_upto apiUrl env (take k blocks) 0 sumInit c)
    as (acck & c0 & Epre).
  { intros j Hj. apply Hnf. rewrite length_take in Hj. lia. }
  assert (Hck : ck = c0).
  { unfold ck, browserCacheAt. by rewrite Epre. }
  assert (Hrun : Browser.summarizeAllBlocks apiUrl env blocks c
                 = match Browser.summarizeBlock apiUrl (Browser.reply env k)
                           (Browser.getFault env k) (Browser.putFault env k)
                           k block acck ck with
                   | (Returned acc', c1) =>
                       Browser.summarizeLoop apiUrl env (S k)
                         (drop (S k) blocks) acc' c1
                   | (Thrown, c1) => (Thrown, c1)
                   end).
  { unfold Browser.summarizeAllBlocks.
    rewrite <- (take_drop_middle blocks k block Hk) at 1.
    rewrite browser_loop_app, Epre, length_take.
    replace (0 + k `min` length blocks) with k
      by (apply lookup_lt_Some in Hk; lia).
    simpl. unfold bind. by rewrite Hck. }
  rewrite Hrun. split.
  - intros Hmem Hgf.
    unfold Browser.summarizeBlock, bind, Browser.getSummaryFromCache.
    by rewrite Hmem, Hgf.
  - intros s Hmiss Hapi Hpre Hpf.
    unfold browserMiss in Hmiss.
    destruct (browser_get_grows (Browser.getFault env k) (hash block) ck)
      as (_ & _ & Hsame).
    destruct (Hsame Hmiss) as [_ Hc].
    unfold Browser.summarizeBlock, bind.
    destruct (Browser.getSummaryFromCache (Browser.getFault env k)
                (hash block) ck) as [o c1].
    simpl in Hmiss, Hc. subst o c1.
    rewrite Hapi, Hpre. simpl. by rewrite Hpf.
Qed.

Lemma request_error_aborts_run_witness :
  let blocks := [ {| hash := "h1"; details := [mkBlockMsg "U" true "one"] |};
                  {| hash := "h2"; details := [mkBlockMsg "A" false "two"] |};
                  {| hash := "h3"; details := [mkBlockMsg "U" true "three"] |} ] in
  let env := Browser.mkEnv (fun _ => OkBody (Some "genuine"))
               (fun i => if bool_decide (i = 1) then Browser.DbRequestFails
                         else Browser.DbOk)
               (fun _ => Browser.DbOk) in
  let c := {| blockCache := ∅; durable := ∅ |} in
  Browser.summarizeAllBlocks "http://api" env blocks c
  = (Thrown, {| blockCache := {[ "h1" := "genuine" ]};
                durable := {[ "h1" := "genuine" ]} |}).
Proof.
  intros blocks env c.
  destruct (request_error_aborts_run "http://api" env blocks c 1
              {| hash := "h2"; details := [mkBlockMsg "A" false "two"] |}
              eq_refl) as [Hget _].
  { intros j Hj. assert (j = 0) as -> by lia. split; discriminate. }
  rewrite (Hget eq_refl eq_refl). reflexivity.
Defined.

Lemma server_block_answered apiUrl r gf pf i block acc c :
  Server.callSummarizationApi apiUrl r ≠ None ->
  ∃ x, (Server.summarizeBlock apiUrl r gf pf i block acc c).1 = acc ++ [x]
       ∧ blockCache (Server.summarizeBlock apiUrl r gf pf i block acc c).2
           !! hash block = Some x.
Proof.
  intros Hapi. unfold Server.summarizeBlock.
  destruct (Server.getSummaryFromCache gf (hash block) c) as [[s|] c1] eqn:Eget.
  - exists s. simpl. split; [done|].
    by destruct (server_get_some _ _ _ _ _ Eget).
  - destruct (Server.callSummarizationApi apiUrl r) as [s|]; [|done].
    pose proof (server_put_sets_memory pf (hash block) s c1) as Hput.
    destruct (Server.saveSummaryToCache pf (hash block) s c1) as [u c2].
    by exists s.
Qed.

Lemma server_loop_answered apiUrl env rest : ∀ i acc c,
  (∀ j, Server.callSummarizationApi apiUrl (Server.reply env j) ≠ None) ->
  ∃ more,
    (Server.summarizeLoop apiUrl env i rest acc c).1 = acc ++ more
    ∧ Forall2 (fun b s =>
                 blockCache (Server.summarizeLoop apiUrl env i rest acc c).2
                   !! hash b = Some s) rest more.
Proof.
  induction rest as [|b rest IH]; intros i acc c Hans; simpl.
  - exists []. by rewrite app_nil_r.
  - destruct (server_block_answered apiUrl (Server.reply env i)
                (Server.getFault env i) (Server.putFault env i) i b acc c
                (Hans i)) as (x & Hx & Hcached).
    destruct (Server.summarizeBlock apiUrl (Server.reply env i)
                (Server.getFault env i) (Server.putFault env i) i b acc c)
      as [acc1 c1]. simpl in Hx, Hcached. subst acc1.
    destruct (IH (S i) (acc ++ [x]) c1 Hans) as (more & Hm & Hall).
    exists (x :: more). split; [by rewrite Hm, <- app_assoc|].
    constructor; [|done].
    pose proof (server_loop_grows apiUrl env rest (S i) (acc ++ [x]) c1)
      as [Hsub _].
    by eapply lookup_weaken.
Qed.

Lemma server_loop_all_cached apiUrl env rest : ∀ sums i acc c,
  Forall2 (fun b s => blockCache c !! hash b = Some s) rest sums ->
  Server.summarizeLoop apiUrl env i rest acc c = (acc ++ sums, c).
Proof.
  induction rest as [|b rest IH]; intros sums i acc c Hall.
  - apply Forall2_nil_inv_l in Hall as ->. simpl. by rewrite app_nil_r.
  - apply Forall2_cons_inv_l in Hall as (s & sums' & Hb & Hall & ->).
    simpl.
    assert (Hget : (Server.getSummaryFromCache (Server.getFault env i)
                      (hash b) c).1 = Some s).
    { by rewrite (server_get_memory_hit _ _ _ _ Hb). }
    rewrite (server_block_cached apiUrl (Server.reply env i) _
               (Server.putFault env i) i b acc c s Hget).
    rewrite (server_get_memory_hit _ _ _ _ Hb). simpl.
    rewrite (IH sums' (S i) (acc ++ [s]) c Hall).
    by rewrite <- app_assoc.
Qed.

(** X12. The server host re-summarizes the whole history at every prompt;
    the cache makes that free. If the endpoint answers every request of a
    run with a summary, then after the run every block's summary is in the
    in-memory layer, and a second run over the same blocks returns the
    same summaries and leaves the cache as it is, whatever the endpoint and
    the file system would do. *)
Theorem server_rerun_is_free (apiUrl : string) (env : Server.Env)
    (blocks : list Block) (c : Cache) :
  (∀ j, Server.callSummarizationApi apiUrl (Server.reply env j) ≠ None) ->
  let out := (Server.summarizeLoop apiUrl env 0 blocks [] c).1 in
  let c' := (Server.summarizeLoop apiUrl env 0 blocks [] c).2 in
  Forall2 (fun b s => blockCache c' !! hash b = Some s) blocks out
  ∧ ∀ apiUrl' env',
      Server.summarizeLoop apiUrl' env' 0 blocks [] c' = (out, c').
Proof.
  intros Hans out c'.
  destruct (server_loop_answered apiUrl env blocks 0 [] c Hans)
    as (more & Hm & Hall).
  fold out in Hm. fold c' in Hall. simpl in Hm. subst more.
  split; [done|]. intros apiUrl' env'.
  by rewrite (server_loop_all_cached apiUrl' env' blocks out 0 [] c' Hall).
Qed.

Lemma server_rerun_is_free_witness :
  let blocks := [ {| hash := "h1"; details := [mkBlockMsg "U" true "one"] |};
                  {| hash := "h2"; details := [mkBlockMsg "A" false "two"] |} ] in
  let env := Server.mkEnv (fun _ => OkBody (Some "genuine"))
               (fun _ => Server.FsOk) (fun _ => Server.FsFails) in
  let offline := Server.mkEnv (fun _ => FetchFails)
                   (fun _ => Server.FsFails) (fun _ => Server.FsFails) in
  let c := {| blockCache := ∅; durable := ∅ |} in
  (∀ j, Server.callSummarizationApi "http://api" (Server.reply env j) ≠ None)
  ∧ Server.summarizeLoop "" offline 0 blocks []
      (Server.summarizeLoop "http://api" env 0 blocks [] c).2
    = Server.summarizeLoop "http://api" env 0 blocks [] c.
Proof.
  intros blocks env offline c.
  assert (Hans : ∀ j, Server.callSummarizationApi "http://api"
                        (Server.reply env j) ≠ None) by (intros j; discriminate).
  split; [exact Hans|].
  destruct (server_rerun_is_free "http://api" env blocks c Hans) as [_ Hre].
  rewrite (Hre "" offline).
  by destruct (Server.summarizeLoop "http://api" env 0 blocks [] c).
Defined.

(** X13. A summary saved under a block's hash (the manual edit path) is
    what the next run uses for that block, verbatim: in either host the
    loop body appends exactly that text, makes no request, writes nothing
    and, in the browser host, leaves the error flag as it was. This holds
    for every text, the empty one and one that starts with "[Error:"
    included. *)
Theorem saved_summary_is_used (apiUrl : string) (r : HttpReply) (i : nat)
    (block : Block) (summary : string) (c : Cache) :
  (∀ fp gf pf acc,
     let c1 := (Browser.saveSummaryToCache fp (hash block) summary c).2 in
     Browser.summarizeBlock apiUrl r gf pf i block acc c1
     = (Returned {| blockSummaries := blockSummaries acc ++ [summary];
                    hasError := hasError acc |}, c1))
  ∧ (∀ fp gf pf acc,
       let c1 := (Server.saveSummaryToCache fp (hash block) summary c).2 in
       Server.summarizeBlock apiUrl r gf pf i block acc c1
       = (acc ++ [summary], c1)).
Proof.
  split.
  - intros fp gf pf acc c1.
    apply (browser_block_cached apiUrl r gf pf i block acc c1 summary c1).
    apply browser_get_memory_hit, browser_put_sets_memory.
  - intros fp gf pf acc c1.
    pose proof (server_get_memory_hit gf (hash block) summary c1
                  (server_put_sets_memory fp (hash block) summary c)) as Hget.
    rewrite (server_block_cached apiUrl r gf pf i block acc c1 summary)
      by (by rewrite Hget).
    by rewrite Hget.
Qed.

(** ** Prompt truncation: monotonicity and the two extremes *)

Lemma truncateLoop_extends remaining newestFirst : ∀ truncated currentChars,
  truncated `suffix_of`
    Server.truncateLoop remaining newestFirst truncated currentChars.
Proof.
  induction newestFirst as [|m l IH]; intros truncated currentChars; simpl.
  - done.
  - case_bool_decide; [|done].
    etrans; [|apply IH]. by apply suffix_cons_r.
Qed.

Lemma truncateLoop_mono r r' newestFirst : ∀ truncated currentChars,
  (r ≤ r')%Z ->
  Server.truncateLoop r newestFirst truncated currentChars
    `suffix_of` Server.truncateLoop r' newestFirst truncated currentChars.
Proof.
  induction newestFirst as [|m l IH]; intros truncated currentChars Hle; simpl.
  - done.
  - destruct (bool_decide (Z.of_nat (currentChars + Server.msgChars m) ≤ r)%Z)
      eqn:E.
    + apply bool_decide_eq_true in E.
      rewrite bool_decide_eq_true_2 by lia. by apply IH.
    + clear E.
      destruct (bool_decide (Z.of_nat (currentChars + Server.msgChars m) ≤ r')%Z);
        [|done].
      etrans; [|apply truncateLoop_extends]. by apply suffix_cons_r.
Qed.

(** X14. The truncation is monotone in the budget: with a larger history
    size, or a shorter template result, the messages kept before are still
    kept; the old result is a suffix of the new one. *)
Theorem larger_budget_keeps_more (historySize historySize' : Z)
    (templateResult templateResult' : string) (recentMessages : list Message) :
  (historySize ≤ historySize')%Z ->
  String.length templateResult' ≤ String.length templateResult ->
  Server.truncateHistory historySize templateResult recentMessages
    `suffix_of`
  Server.truncateHistory historySize' templateResult' recentMessages.
Proof.
  intros Hh Ht. unfold Server.truncateHistory.
  apply truncateLoop_mono.
  unfold Server.remainingCharsForHistory. lia.
Qed.

Lemma larger_budget_keeps_more_witness :
  let msgs := [ mkMessage "Al" true "aaaa" false;
                mkMessage "Bo" false "bbbb" false;
                mkMessage "Al" true "cccc" false ] in
  (2 ≤ 5)%Z
  ∧ String.length "1234" ≤ String.length "12345678"
  ∧ Server.truncateHistory 2 "12345678" msgs = []
  ∧ Server.truncateHistory 5 "1234" msgs = drop 1 msgs
  ∧ Server.truncateHistory 2 "12345678" msgs
      `suffix_of` Server.truncateHistory 5 "1234" msgs.
Proof.
  intros msgs.
  assert (H1 : (2 ≤ 5)%Z) by lia.
  assert (H2 : String.length "1234" ≤ String.length "12345678")
    by (simpl; lia).
  split; [exact H1|]. split; [exact H2|].
  split; [reflexivity|]. split; [reflexivity|].
  exact (larger_budget_keeps_more 2 5 "12345678" "1234" msgs H1 H2).
Defined.

(** X15. The two extremes of the truncation: every recent message is kept
    exactly when their total cost fits the remaining budget, and when the
    most recent message alone does not fit, nothing is kept, however
    small the older messages are. *)
Theorem truncation_all_or_nothing (historySize : Z)
    (templateResult : string) (recentMessages : list Message) :
  let remaining := Server.remainingCharsForHistory historySize templateResult in
  (Server.truncateHistory historySize templateResult recentMessages
   = recentMessages
   ↔ (Z.of_nat (totalChars recentMessages) ≤ remaining)%Z)
  ∧ (∀ older newest,
       recentMessages = older ++ [newest] ->
       (remaining < Z.of_nat (Server.msgChars newest))%Z ->
       Server.truncateHistory historySize templateResult recentMessages = []).
Proof.
  intros remaining. split.
  - destruct (truncateLoop_suffix remaining (rev recentMessages) [] 0)
      as (dropped & Hd & Hk & Hov).
    { reflexivity. }
    { unfold remaining, Server.remainingCharsForHistory. lia. }
    rewrite rev_involutive, app_nil_r in Hd.
    change (Server.truncateLoop remaining (rev recentMessages) [] 0)
      with (Server.truncateHistory historySize templateResult recentMessages)
      in Hd, Hk, Hov.
    split.
    + intros E. by rewrite E in Hk.
    + intros Hfit.
      destruct dropped as [|d dropped _] using rev_ind; [done|].
      specialize (Hov dropped d eq_refl).
      assert (totalChars recentMessages
              = totalChars dropped + Server.msgChars d
                + totalChars (Server.truncateHistory historySize templateResult
                                recentMessages)) as Htot.
      { rewrite Hd at 1. unfold totalChars.
        rewrite !map_app, !list_sum_app. simpl. lia. }
      lia.
  - intros older newest -> Hbig.
    unfold Server.truncateHistory. rewrite rev_unit. simpl.
    fold remaining. by rewrite bool_decide_eq_false_2 by lia.
Qed.

Lemma truncation_all_or_nothing_witness :
  let older := [ mkMessage "" true "a" false ] in
  let newest := mkMessage "Bo" false "a long final message" false in
  (Server.remainingCharsForHistory 5 "1234"
   < Z.of_nat (Server.msgChars newest))%Z
  ∧ Server.truncateHistory 5 "1234" (older ++ [newest]) = [].
Proof.
  intros older newest.
  assert (H : (Server.remainingCharsForHistory 5 "1234"
               < Z.of_nat (Server.msgChars newest))%Z) by (vm_compute; done).
  split; [exact H|].
  destruct (truncation_all_or_nothing 5 "1234" (older ++ [newest])) as [_ Hn].
  exact (Hn older newest eq_refl H).
Defined.

(** ** The trigger: forcing, and what follows a pass *)

(** X16. "Summarize Now" resets the message counter and then goes through
    the ordinary trigger. With the extension enabled and no pass in flight
    it starts a pass, over the chat without its last message, exactly when
    the chat has at least triggerThreshold countable messages; on a
    shorter chat it starts nothing, touches no cache entry and only
    re-applies the last summary to the prompt, leaving the counter at 0. *)
Theorem force_needs_threshold (trim : string -> string)
    (substitute : string -> string -> string) (w : Browser.World) :
  let g := Browser.globals w in
  let n := length (filter Browser.countable (Browser.chat w)) in
  let w' := Browser.forceSummarize trim substitute w in
  Browser.enabled (Browser.settings g) = true ->
  Browser.inApiCall g = false ->
  ((Browser.triggerThreshold (Browser.settings g) ≤ Z.of_nat n)%Z ->
   Browser.inFlight w'
   = Browser.inFlight w ++
     [ {| Browser.currentMessageCount := n;
          Browser.phase := Browser.Segmenting (removelast (Browser.chat w)) |} ]
   ∧ Browser.inApiCall (Browser.globals w') = true
   ∧ Browser.forceUpdateDisabled (Browser.globals w') = true)
  ∧ ((Z.of_nat n < Browser.triggerThreshold (Browser.settings g))%Z ->
     Browser.inFlight w' = Browser.inFlight w
     ∧ Browser.inApiCall (Browser.globals w') = false
     ∧ Browser.cache (Browser.globals w') = Browser.cache g
     ∧ Browser.lastMessageCount (Browser.globals w') = 0
     ∧ Browser.lastSummaryContent (Browser.globals w')
       = Browser.lastSummaryContent g).
Proof.
  intros g n w' Hen Hidle.
  unfold w', Browser.forceSummarize, Browser.checkAndSummarize. simpl.
  fold g. rewrite Hen, Hidle. simpl. fold n.
  rewrite Z.sub_0_r.
  split; intros Hthr.
  - by rewrite bool_decide_eq_true_2 by done.
  - by rewrite bool_decide_eq_false_2 by lia.
Qed.

Lemma force_needs_threshold_witness :
  let st := Browser.mkSettings true "http://api" 10 3 "{{summary_content}}" in
  let w := Browser.initWorld st {| blockCache := ∅; durable := ∅ |}
             [ mkMessage "U" true "hi" false;
               mkMessage "A" false "hello" false ] in
  Browser.enabled (Browser.settings (Browser.globals w)) = true
  ∧ Browser.inApiCall (Browser.globals w) = false
  ∧ (2 < 3)%Z
  ∧ Browser.inFlight (Browser.forceSummarize (fun s => s) (fun _ s => s) w) = [].
Proof.
  intros st w.
  split; [reflexivity|]. split; [reflexivity|]. split; [lia|].
  destruct (force_needs_threshold (fun s => s) (fun _ s => s) w
              eq_refl eq_refl) as [_ Hshort].
  destruct Hshort as [Hnone _]; [simpl; lia|].
  exact Hnone.
Defined.

(** X17. What follows a pass. A pass that completes records the message
    count it saw at its trigger, so with a threshold of at least 1 the
    next trigger on an unchanged chat starts no new pass. A pass that
    fails runs only the catch and finally clauses, which clear the prompt
    and the flag but leave the counter alone, so the next trigger on the
    unchanged chat starts the pass again. *)
Theorem success_settles_failure_retries (trim : string -> string)
    (substitute : string -> string -> string)
    (g : Browser.Globals) (chat : list Message) (p : Browser.Pass)
    (acc : SumState) :
  let n := length (filter Browser.countable chat) in
  Browser.enabled (Browser.settings g) = true ->
  (1 ≤ Browser.triggerThreshold (Browser.settings g))%Z ->
  Browser.currentMessageCount p = n ->
  (let done := Browser.completePass trim substitute p acc g in
   let w' := Browser.checkAndSummarize trim substitute
               {| Browser.globals := done; Browser.chat := chat;
                  Browser.inFlight := [] |} in
   Browser.inFlight w' = []
   ∧ Browser.inApiCall (Browser.globals w') = false
   ∧ Browser.lastMessageCount (Browser.globals w') = n)
  ∧ ((Browser.triggerThreshold (Browser.settings g)
      ≤ Z.of_nat n - Z.of_nat (Browser.lastMessageCount g))%Z ->
     let failed := Browser.catchClause trim substitute g in
     let w' := Browser.checkAndSummarize trim substitute
                 {| Browser.globals := failed; Browser.chat := chat;
                    Browser.inFlight := [] |} in
     Browser.extensionPrompt failed = ""
     ∧ Browser.lastMessageCount failed = Browser.lastMessageCount g
     ∧ Browser.inFlight w'
       = [ {| Browser.currentMessageCount := n;
              Browser.phase := Browser.Segmenting (removelast chat) |} ]
     ∧ Browser.inApiCall (Browser.globals w') = true).
Proof.
  intros n Hen Hthr Hcount. split.
  - unfold Browser.checkAndSummarize, Browser.completePass. simpl.
    destruct (truthy _); simpl; rewrite Hen; simpl; fold n; rewrite Hcount;
      rewrite bool_decide_eq_false_2 by lia; done.
  - intros Hreach.
    unfold Browser.checkAndSummarize, Browser.catchClause. simpl.
    rewrite Hen. simpl. fold n.
    by rewrite bool_decide_eq_true_2 by done.
Qed.

Lemma success_settles_failure_retries_witness :
  let st := Browser.mkSettings true "http://api" 10 1 "{{summary_content}}" in
  let g := Browser.mkGlobals st {| blockCache := ∅; durable := ∅ |} true 0
             "" "" true in
  let chat := [ mkMessage "U" true "hi" false;
                mkMessage "A" false "hello" false ] in
  let p := Browser.mkPass 2 (Browser.Summarizing [] 0 sumInit) in
  Browser.inFlight
    (Browser.checkAndSummarize (fun s => s) (fun _ s => s)
       {| Browser.globals :=
            Browser.completePass (fun s => s) (fun _ s => s) p
              {| blockSummaries := ["short"]; hasError := false |} g;
          Browser.chat := chat; Browser.inFlight := [] |}) = []
  ∧ length
      (Browser.inFlight
         (Browser.checkAndSummarize (fun s => s) (fun _ s => s)
            {| Browser.globals := Browser.catchClause (fun s => s) (fun _ s => s) g;
               Browser.chat := chat; Browser.inFlight := [] |})) = 1.
Proof.
  intros st g chat p.
  destruct (success_settles_failure_retries (fun s => s) (fun _ s => s)
              g chat p {| blockSummaries := ["short"]; hasError := false |})
    as [Hdone Hfail]; [reflexivity | simpl; lia | reflexivity |].
  split.
  - by destruct Hdone as [H _].
  - destruct Hfail as (_ & _ & H & _); [simpl; lia|].
    by rewrite H.
Defined.

(** ** The preview panel of the browser host *)

Lemma clamp_in_range (index : Z) (total : nat) :
  total ≠ 0 ->
  let idx := Z.max 0 (Z.min index (Z.of_nat total - 1)) in
  (0 ≤ idx < Z.of_nat total)%Z ∧ Z.to_nat idx < total.
Proof. intros Ht idx. unfold idx. lia. Qed.

(** X18. Whatever index is asked for, the browser preview lands on an
    existing block. For a non-empty chat and a preview state whose block
    count matches its memoized blocks, [loadPreview] rejects only when the
    IndexedDB request fails; the block count still matches afterwards; and
    when there are blocks, the index is the requested one clamped into
    [0, totalBlocks), the stored hash is the hash of the block at that
    index, and the navigation buttons are disabled exactly at the two
    ends. The preview makes no request and never writes the durable
    store: the cache can only gain in-memory copies of durable entries. *)
Theorem preview_lands_on_a_block (digestMessage : string -> string)
    (blockSize : nat) (f : Browser.DbFault) (index : Z) (chat : list Message)
    (ps : BrowserPanel.PreviewState) (pn : BrowserPanel.Panel) (c : Cache) :
  chat ≠ [] ->
  BrowserPanel.totalBlocks ps = length (BrowserPanel.allBlocks ps) ->
  let r := BrowserPanel.loadPreview digestMessage blockSize f index chat ps pn c in
  let ps' := r.2.1.1 in
  let pn' := r.2.1.2 in
  let c' := r.2.2 in
  BrowserPanel.totalBlocks ps' = length (BrowserPanel.allBlocks ps')
  ∧ (r.1 = Thrown -> f = Browser.DbRequestFails)
  ∧ durable c' = durable c
  ∧ blockCache c ⊆ blockCache c'
  ∧ (BrowserPanel.allBlocks ps' ≠ [] ->
     BrowserPanel.blockIndex ps'
     = Z.max 0 (Z.min index (Z.of_nat (BrowserPanel.totalBlocks ps') - 1))
     ∧ ∃ b, showing ps' b
            ∧ BrowserPanel.blockContentPreview pn' = renderBlock (details b)
            ∧ (BrowserPanel.prevBlockDisabled pn' = true
               ↔ BrowserPanel.blockIndex ps' = 0%Z)
            ∧ (BrowserPanel.nextBlockDisabled pn' = true
               ↔ BrowserPanel.blockIndex ps'
                 = (Z.of_nat (BrowserPanel.totalBlocks ps') - 1)%Z)).
Proof.
  intros Hchat Hcoh. unfold BrowserPanel.loadPreview.
  rewrite (bool_decide_eq_false_2 (length chat = 0))
    by (by destruct chat).
  set (ps1 := if bool_decide (length (BrowserPanel.allBlocks ps) = 0)
              then _ else ps).
  assert (Hcoh1 : BrowserPanel.totalBlocks ps1
                  = length (BrowserPanel.allBlocks ps1)).
  { unfold ps1. by case_bool_decide. }
  case_bool_decide as Htot; simpl.
  { split; [done|]. split; [done|]. split; [done|]. split; [done|].
    intros Hne. exfalso. rewrite Htot in Hcoh1.
    by destruct (BrowserPanel.allBlocks ps1). }
  destruct (clamp_in_range index (BrowserPanel.totalBlocks ps1) Htot)
    as [Hrange Hnat].
  set (idx := Z.max 0 (Z.min index (Z.of_nat (BrowserPanel.totalBlocks ps1) - 1)))
    in *.
  destruct (BrowserPanel.allBlocks ps1 !! Z.to_nat idx) as [b|] eqn:Eb.
  2: { apply lookup_ge_None in Eb. lia. }
  destruct (browser_get_grows f (hash b) c) as (Hsub & Hdur & _).
  assert (Hshow : showing (BrowserPanel.mkPreviewState idx
                             (BrowserPanel.totalBlocks ps1) (Some (hash b))
                             (BrowserPanel.allBlocks ps1)) b).
  { unfold showing. simpl. split; [done|]. split; [lia|]. by split. }
  assert (Hthrow : (Browser.getSummaryFromCache f (hash b) c).1 = Thrown ->
                   f = Browser.DbRequestFails).
  { unfold Browser.getSummaryFromCache.
    destruct (blockCache c !! hash b); [done|].
    destruct f; simpl; try done. by destruct (durable c !! hash b). }
  destruct (Browser.getSummaryFromCache f (hash b) c) as [[o|] c1];
    simpl in *.
  - split; [done|]. split; [done|]. split; [done|]. split; [done|].
    intros _. split; [done|]. exists b. split; [done|]. split; [done|].
    by rewrite !bool_decide_eq_true.
  - split; [done|]. split; [by intros _; apply Hthrow|].
    split; [done|]. split; [done|].
    intros _. split; [done|]. exists b. split; [done|]. split; [done|].
    by rewrite !bool_decide_eq_true.
Qed.

Lemma preview_lands_on_a_block_witness :
  let chat := [ mkMessage "U" true "hello" false;
                mkMessage "A" false "hi" false ] in
  let ps := BrowserPanel.mkPreviewState 0 0 None [] in
  let pn := BrowserPanel.mkPanel "" "" false false "" "" "" true in
  let r := BrowserPanel.loadPreview (fun s => s) 3 Browser.DbOk 7 chat ps pn
             {| blockCache := ∅; durable := ∅ |} in
  chat ≠ []
  ∧ BrowserPanel.totalBlocks ps = length (BrowserPanel.allBlocks ps)
  ∧ BrowserPanel.blockIndex r.2.1.1 = 1%Z
  ∧ BrowserPanel.totalBlocks r.2.1.1 = 2.
Proof.
  intros chat ps pn r.
  assert (H1 : chat ≠ []) by discriminate.
  assert (H2 : BrowserPanel.totalBlocks ps
               = length (BrowserPanel.allBlocks ps)) by reflexivity.
  split; [exact H1|]. split; [exact H2|].
  destruct (preview_lands_on_a_block (fun s => s) 3 Browser.DbOk 7 chat ps pn
              {| blockCache := ∅; durable := ∅ |} H1 H2)
    as (_ & _ & _ & _ & Hblocks).
  fold r in Hblocks.
  destruct Hblocks as [Hidx _]; [discriminate|].
  split; [by rewrite Hidx | reflexivity].
Defined.

(** X19. The preview works on a memoized segmentation. While blocks are
    memoized, [loadPreview] does not look at the chat or at the block size:
    it gives the same result for any two non-empty chats, so new messages
    do not show up. [refreshPreview] drops the memo: afterwards the blocks
    are those of the current chat under the current block size. *)
Theorem preview_is_memoized (digestMessage : string -> string)
    (f : Browser.DbFault) (index : Z) (ps : BrowserPanel.PreviewState)
    (pn : BrowserPanel.Panel) (c : Cache) (chat : list Message)
    (blockSize : nat) :
  chat ≠ [] ->
  (BrowserPanel.allBlocks ps ≠ [] ->
   ∀ chat' blockSize', chat' ≠ [] ->
     BrowserPanel.loadPreview digestMessage blockSize' f index chat' ps pn c
     = BrowserPanel.loadPreview digestMessage blockSize f index chat ps pn c)
  ∧ BrowserPanel.allBlocks
      (BrowserPanel.refreshPreview digestMessage blockSize f chat ps pn c).2.1.1
    = Browser.generateBlocks digestMessage blockSize chat.
Proof.
  intros Hchat. split.
  - intros Hmemo chat' blockSize' Hchat'. unfold BrowserPanel.loadPreview.
    rewrite (bool_decide_eq_false_2 (length chat = 0)) by (by destruct chat).
    rewrite (bool_decide_eq_false_2 (length chat' = 0)) by (by destruct chat').
    by rewrite (bool_decide_eq_false_2 (length (BrowserPanel.allBlocks ps) = 0))
      by (by destruct (BrowserPanel.allBlocks ps)).
  - unfold BrowserPanel.refreshPreview, BrowserPanel.loadPreview.
    rewrite (bool_decide_eq_false_2 (length chat = 0)) by (by destruct chat).
    simpl. case_bool_decide; [done|].
    destruct (Browser.generateBlocks digestMessage blockSize chat !! _);
      [|done].
    by destruct (Browser.getSummaryFromCache f (hash b) c) as [[o|] c1].
Qed.

Lemma preview_is_memoized_witness :
  let old := [ mkMessage "U" true "hello" false ] in
  let new := old ++ [ mkMessage "A" false "a reply" false ] in
  let pn := BrowserPanel.mkPanel "" "" false false "" "" "" true in
  let c := {| blockCache := ∅; durable := ∅ |} in
  let ps := (BrowserPanel.loadPreview (fun s => s) 5 Browser.DbOk 0 old
               (BrowserPanel.mkPreviewState 0 0 None []) pn c).2.1.1 in
  new ≠ []
  ∧ BrowserPanel.allBlocks ps ≠ []
  ∧ length (BrowserPanel.allBlocks
              (BrowserPanel.loadPreview (fun s => s) 5 Browser.DbOk 1 new
                 ps pn c).2.1.1) = 1
  ∧ length (BrowserPanel.allBlocks
              (BrowserPanel.refreshPreview (fun s => s) 5 Browser.DbOk new
                 ps pn c).2.1.1) = 2.
Proof.
  intros old new pn c ps.
  assert (H1 : new ≠ []) by discriminate.
  assert (H2 : BrowserPanel.allBlocks ps ≠ []) by discriminate.
  split; [exact H1|]. split; [exact H2|].
  destruct (preview_is_memoized (fun s => s) Browser.DbOk 1 ps pn c new 5 H1)
    as [_ Hrefresh].
  split; [reflexivity|]. by rewrite Hrefresh.
Defined.

(** X20. An edit made in the preview is what the preview shows next. With
    a block shown whose hash is not the empty string, [saveEditedSummary]
    stores the text of the summary field under that block's hash in the
    in-memory layer whatever IndexedDB does, and reports "Saved!" unless
    the request itself failed; the next [loadPreview] at the same index
    then shows exactly that text, keeps the preview state, and does not
    touch the cache, again whatever IndexedDB does. *)
Theorem edited_summary_is_previewed (digestMessage : string -> string)
    (blockSize : nat) (chat : list Message) (ps : BrowserPanel.PreviewState)
    (pn : BrowserPanel.Panel) (c : Cache) (b : Block) (f : Browser.DbFault) :
  showing ps b ->
  truthy (hash b) = true ->
  chat ≠ [] ->
  let r := BrowserPanel.saveEditedSummary f ps pn c in
  (f ≠ Browser.DbRequestFails ->
   r.1 = Returned tt ∧ BrowserPanel.editStatus r.2.1 = "Saved!")
  ∧ blockCache r.2.2 !! hash b = Some (BrowserPanel.summaryPreview pn)
  ∧ ∀ f' pn',
      let r' := BrowserPanel.loadPreview digestMessage blockSize f'
                  (BrowserPanel.blockIndex ps) chat ps pn' r.2.2 in
      r'.1 = Returned tt
      ∧ r'.2.1.1 = ps
      ∧ BrowserPanel.summaryPreview r'.2.1.2 = BrowserPanel.summaryPreview pn
      ∧ r'.2.2 = r.2.2.
Proof.
  intros (Hcoh & Hpos & Hb & Hhash) Htruthy Hchat r.
  assert (Hr : r.2.2 = (Browser.saveSummaryToCache f (hash b)
                          (BrowserPanel.summaryPreview pn) c).2
               ∧ (f ≠ Browser.DbRequestFails ->
                  r.1 = Returned tt ∧ BrowserPanel.editStatus r.2.1 = "Saved!")).
  { unfold r, BrowserPanel.saveEditedSummary. rewrite Hhash, Htruthy. simpl.
    by destruct f. }
  destruct Hr as [Hc Hok].
  assert (Hmem : blockCache r.2.2 !! hash b = Some (BrowserPanel.summaryPreview pn)).
  { rewrite Hc. apply browser_put_sets_memory. }
  split; [exact Hok|]. split; [exact Hmem|].
  intros f' pn'. unfold BrowserPanel.loadPreview.
  rewrite (bool_decide_eq_false_2 (length chat = 0)) by (by destruct chat).
  assert (Hlen : Z.to_nat (BrowserPanel.blockIndex ps)
                 < length (BrowserPanel.allBlocks ps))
    by (by eapply lookup_lt_Some).
  rewrite (bool_decide_eq_false_2 (length (BrowserPanel.allBlocks ps) = 0))
    by lia.
  rewrite (bool_decide_eq_false_2 (BrowserPanel.totalBlocks ps = 0)) by lia.
  replace (Z.max 0 (Z.min (BrowserPanel.blockIndex ps)
                      (Z.of_nat (BrowserPanel.totalBlocks ps) - 1)))
    with (BrowserPanel.blockIndex ps) by lia.
  rewrite Hb.
  rewrite (browser_get_memory_hit f' (hash b) _ _ Hmem). simpl.
  repeat split. destruct ps. simpl in *. by rewrite Hhash.
Qed.

Lemma edited_summary_is_previewed_witness :
  let chat := [ mkMessage "U" true "hello" false ] in
  let b := {| hash := "U:hello"; details := [mkBlockMsg "U" true "hello"] |} in
  let ps := BrowserPanel.mkPreviewState 0 1 (Some "U:hello") [b] in
  let pn := BrowserPanel.mkPanel "" "Block 1 / 1" true true "U: hello"
              "my own summary" "" false in
  let c := {| blockCache := ∅; durable := ∅ |} in
  showing ps b
  ∧ truthy (hash b) = true
  ∧ chat ≠ []
  ∧ BrowserPanel.summaryPreview
      (BrowserPanel.loadPreview (fun s => s) 10 Browser.DbRequestFails 0 chat ps
         (BrowserPanel.mkPanel "" "" false false "" "" "" true)
         (BrowserPanel.saveEditedSummary Browser.DbOpenFails ps pn c).2.2).2.1.2
    = "my own summary".
Proof.
  intros chat b ps pn c.
  assert (H1 : showing ps b) by (by repeat split).
  assert (H2 : truthy (hash b) = true) by reflexivity.
  assert (H3 : chat ≠ []) by discriminate.
  split; [exact H1|]. split; [exact H2|]. split; [exact H3|].
  destruct (edited_summary_is_previewed (fun s => s) 10 chat ps pn c b
              Browser.DbOpenFails H1 H2 H3) as (_ & _ & Hnext).
  destruct (Hnext Browser.DbRequestFails
              (BrowserPanel.mkPanel "" "" false false "" "" "" true))
    as (_ & _ & Hshown & _).
  exact Hshown.
Defined.

(** ** The message handlers of the server host *)

Lemma server_cacheAt_step apiUrl env blocks c i block :
  blocks !! i = Some block ->
  Server.summarizeLoop apiUrl env 0 (take (S i) blocks) [] c
  = Server.summarizeBlock apiUrl (Server.reply env i) (Server.getFault env i)
      (Server.putFault env i) i block
      (Server.summarizeLoop apiUrl env 0 (take i blocks) [] c).1
      (serverCacheAt apiUrl env blocks c i).
Proof.
  intros Hi. rewrite (take_S_r blocks i block Hi), server_loop_app.
  rewrite length_take.
  replace (0 + i `min` length blocks) with i
    by (apply lookup_lt_Some in Hi; lia).
  simpl. unfold serverCacheAt.
  by destruct (Server.summarizeBlock _ _ _ _ _ _ _ _).
Qed.

Lemma server_final_from apiUrl env blocks c i :
  blockCache (serverCacheAt apiUrl env blocks c i)
  ⊆ blockCache (Server.summarizeLoop apiUrl env 0 blocks [] c).2.
Proof.
  unfold serverCacheAt.
  rewrite <- (take_drop i blocks) at 2. rewrite server_loop_app.
  apply server_loop_grows.
Qed.

(** A block for which the run obtained a summary, from the cache or from
    the endpoint, has that summary in memory when the run ends. *)
Lemma server_entry_after_run apiUrl env blocks c i block :
  blocks !! i = Some block ->
  Server.callSummarizationApi apiUrl (Server.reply env i) ≠ None
  ∨ ¬ serverMiss (Server.getFault env i) block (serverCacheAt apiUrl env blocks c i) ->
  ∃ s, (Server.summarizeLoop apiUrl env 0 blocks [] c).1 !! i = Some s
       ∧ blockCache (Server.summarizeLoop apiUrl env 0 blocks [] c).2
           !! hash block = Some s.
Proof.
  intros Hi Hgot.
  set (ci := serverCacheAt apiUrl env blocks c i) in *.
  set (acci := (Server.summarizeLoop apiUrl env 0 (take i blocks) [] c).1).
  assert (Hstep : ∃ s,
            Server.summarizeBlock apiUrl (Server.reply env i)
              (Server.getFault env i) (Server.putFault env i) i block acci ci
            = (acci ++ [s],
               (Server.summarizeBlock apiUrl (Server.reply env i)
                  (Server.getFault env i) (Server.putFault env i) i block
                  acci ci).2)
            ∧ blockCache
                (Server.summarizeBlock apiUrl (Server.reply env i)
                   (Server.getFault env i) (Server.putFault env i) i block
                   acci ci).2 !! hash block = Some s).
  { unfold serverMiss in Hgot.
    destruct ((Server.getSummaryFromCache (Server.getFault env i)
                 (hash block) ci).1) as [s|] eqn:Eget.
    - exists s.
      rewrite (server_block_cached _ _ _ _ _ _ _ _ s Eget). simpl.
      split; [done|].
      destruct (Server.getSummaryFromCache (Server.getFault env i)
                  (hash block) ci) as [o c1] eqn:E.
      simpl in Eget. subst o. by destruct (server_get_some _ _ _ _ _ E).
    - destruct Hgot as [Hapi|Hhit]; [|done].
      destruct (Server.callSummarizationApi apiUrl (Server.reply env i))
        as [s|] eqn:Eapi; [|done].
      exists s.
      rewrite (server_block_fetched _ _ _ _ _ _ _ _ s Eget Eapi). simpl.
      split; [done|]. apply server_put_sets_memory. }
  destruct Hstep as (s & Hblock & Hmem).
  exists s. split.
  - apply (server_run_at apiUrl env blocks c i block Hi).
    fold acci ci. by rewrite Hblock.
  - pose proof (server_final_from apiUrl env blocks c (S i)) as Hsub.
    unfold serverCacheAt in Hsub at 1.
    rewrite (server_cacheAt_step apiUrl env blocks c i block Hi) in Hsub.
    fold acci ci in Hsub.
    by eapply lookup_weaken.
Qed.

(** X21. The server's preview handler answers with block data exactly for
    an index inside the segmentation of the non-system history, an absent
    index counting as 0; a negative or too large index, like a history
    without text, gets an error. The handler runs the whole summarization
    first, so whenever that run obtained a summary for the requested block,
    from the cache or from the endpoint, the preview shows that summary
    and not the "not yet cached" text. *)
Theorem server_preview_answers (md5hex : string -> string)
    (st : ServerHost.Settings) (env : Server.Env) (gf : Server.FsFault)
    (dataBlockIndex : option Z) (chat : list Message) (c : Cache) :
  let chatHistory := filter (fun msg => negb (is_system msg)) chat in
  let blocks := Server.segmentHistory md5hex (ServerHost.blockSize st)
                  chatHistory in
  let idx := default 0%Z dataBlockIndex in
  let i := Z.to_nat idx in
  let run := Server.summarizeLoop (ServerHost.apiUrl st) env 0 blocks [] c in
  let r := ServerHost.getPreview md5hex st env gf dataBlockIndex chat c in
  ((idx < 0)%Z ∨ (Z.of_nat (length blocks) ≤ idx)%Z -> ∃ e, r.1 = ServerHost.PreviewError e)
  ∧ (∀ b, (0 ≤ idx)%Z -> blocks !! i = Some b ->
       ∃ summary,
         r.1 = ServerHost.PreviewData idx (length blocks)
                 (renderBlock (details b)) summary (hash b)
         ∧ (Server.callSummarizationApi (ServerHost.apiUrl st)
              (Server.reply env i) ≠ None
            ∨ ¬ serverMiss (Server.getFault env i) b
                  (serverCacheAt (ServerHost.apiUrl st) env blocks c i) ->
            run.1 !! i = Some summary)).
Proof.
  intros chatHistory blocks idx i run r.
  assert (Hidx : match dataBlockIndex with
                 | Some z => if bool_decide (z = 0)%Z then 0%Z else z
                 | None => 0%Z
                 end = idx).
  { unfold idx. destruct dataBlockIndex as [z|]; simpl; [|done].
    by case_bool_decide. }
  assert (Hempty : chatHistory = [] -> blocks = []).
  { intros E. unfold blocks. by rewrite E. }
  unfold r, ServerHost.getPreview. fold chatHistory.
  unfold Server.processHistoryForSummarization. fold blocks. fold run.
  destruct run as [out c1] eqn:Erun.
  rewrite Hidx. split.
  - intros Hout.
    case_bool_decide; [by eauto|].
    case_bool_decide; [by eauto|].
    rewrite (proj2 (orb_true_iff _ _)); [by eauto|].
    rewrite !bool_decide_eq_true. lia.
  - intros b Hpos Hb.
    assert (Hlt : i < length blocks) by (by eapply lookup_lt_Some).
    rewrite bool_decide_eq_false_2.
    2: { intros E. apply length_zero_iff_nil in E.
         rewrite (Hempty E) in Hlt. simpl in Hlt. lia. }
    rewrite bool_decide_eq_false_2 by lia.
    rewrite (proj2 (orb_false_iff _ _)).
    2: { rewrite !bool_decide_eq_false. unfold i in Hlt. lia. }
    fold i. rewrite Hb.
    destruct (Server.getSummaryFromCache gf (hash b) c1) as [cached c2] eqn:Eget.
    eexists. split; [reflexivity|].
    intros Hgot.
    destruct (server_entry_after_run (ServerHost.apiUrl st) env blocks c i b
                Hb Hgot) as (s & Hout & Hmem).
    fold run in Hout, Hmem. rewrite Erun in Hout, Hmem. simpl in Hout, Hmem.
    rewrite (server_get_memory_hit gf (hash b) s c1 Hmem) in Eget.
    injection Eget as <- _. exact Hout.
Qed.

Lemma server_preview_answers_witness :
  let st := ServerHost.mkSettings "http://api" 3 150 2048 "{{summary_content}}" true in
  let env := Server.mkEnv (fun _ => OkBody (Some "short"))
               (fun _ => Server.FsOk) (fun _ => Server.FsFails) in
  let chat := [ mkMessage "sys" false "be nice" true;
                mkMessage "U" true "hello" false;
                mkMessage "A" false "hi" false ] in
  let c := {| blockCache := ∅; durable := ∅ |} in
  (ServerHost.getPreview (fun s => s) st env Server.FsFails (Some 1%Z) chat c).1
  = ServerHost.PreviewData 1 2 "A: hi" "short" "C:hi"
  ∧ ∃ e, (ServerHost.getPreview (fun s => s) st env Server.FsOk (Some 2%Z)
            chat c).1 = ServerHost.PreviewError e.
Proof.
  intros st env chat c. split; [reflexivity|].
  destruct (server_preview_answers (fun s => s) st env Server.FsOk (Some 2%Z)
              chat c) as [Herr _].
  apply Herr. right. vm_compute. discriminate.
Defined.

(** X22. The server's update handler accepts exactly a non-empty hash
    together with a string summary; anything else is refused and leaves
    the cache untouched. An accepted update answers success whether or not
    the cache file could be written; the in-memory layer holds the new
    summary either way, so it is what the next lookup returns, but after a
    failed write the durable store still holds what it held before. The
    summary may be the empty string. *)
Theorem server_update_summary (f : Server.FsFault)
    (blockHash newSummary : option string) (c : Cache) :
  let r := ServerHost.updateSummary f blockHash newSummary c in
  (r.1 = ServerHost.UpdateOk
   ↔ ∃ h s, blockHash = Some h ∧ newSummary = Some s ∧ truthy h = true)
  ∧ (r.1 ≠ ServerHost.UpdateOk -> r.2 = c)
  ∧ (∀ h s, blockHash = Some h -> newSummary = Some s -> truthy h = true ->
       (∀ f', Server.getSummaryFromCache f' h r.2 = (Some s, r.2))
       ∧ (f = Server.FsFails -> durable r.2 = durable c)
       ∧ (f = Server.FsOk -> durable r.2 !! h = Some s)).
Proof.
  unfold ServerHost.updateSummary.
  destruct blockHash as [h|], newSummary as [s|]; simpl.
  2-4: split; [split; [done | by intros (? & ? & ? & ? & ?)] |];
       split; [done | by intros ? ? ? ?].
  destruct (truthy h) eqn:Eh; simpl.
  - split; [split; [by eauto | done]|]. split; [done|].
    intros h' s' [= <-] [= <-] _. split.
    + intros f'. apply server_get_memory_hit, server_put_sets_memory.
    + split; intros ->; simpl; [done|]. apply lookup_insert_eq.
  - split.
    + split; [done|]. intros (h' & s' & [= <-] & _ & Ht). congruence.
    + split; [done|]. intros h' s' [= <-] _ Ht. congruence.
Qed.

Lemma server_update_summary_witness :
  let c := {| blockCache := {[ "h" := "old" ]}; durable := {[ "h" := "old" ]} |} in
  let r := ServerHost.updateSummary Server.FsFails (Some "h") (Some "") c in
  truthy "h" = true
  ∧ r.1 = ServerHost.UpdateOk
  ∧ Server.getSummaryFromCache Server.FsOk "h" r.2 = (Some "", r.2)
  ∧ durable r.2 !! "h" = Some "old".
Proof.
  intros c r.
  destruct (server_update_summary Server.FsFails (Some "h") (Some "") c)
    as (_ & _ & Hok).
  destruct (Hok "h" "" eq_refl eq_refl eq_refl) as (Hget & Hdur & _).
  split; [reflexivity|]. split; [reflexivity|].
  split; [apply Hget|].
  fold r in Hdur. by rewrite (Hdur eq_refl).
Defined.




(** ** Prompt assembly in the server host *)

Lemma filter_cons_bool {A} (P : A -> bool) (x : A) (l : list A) :
  filter P (x :: l) = if P x then x :: filter P l else filter P l.
Proof.
  destruct (P x) eqn:E.
  - rewrite filter_cons_True; [done | rewrite E; exact I].
  - rewrite filter_cons_False; [done | rewrite E; exact id].
Qed.

Lemma inject_found prompt l : ∀ acc,
  fold_left (ServerHost.injectStep prompt) l (acc, true)
  = (acc ++ filter originalSystemPrompt l, true).
Proof.
  induction l as [|m l IH]; intros acc; simpl.
  - by rewrite app_nil_r.
  - rewrite filter_cons_bool.
    change (is_system (ServerHost.cm_message m)
            && negb (ServerHost.is_summary_prompt m))
      with (originalSystemPrompt m).
    destruct (originalSystemPrompt m); simpl.
    + rewrite IH. by rewrite <- app_assoc.
    + apply IH.
Qed.

Lemma inject_not_found prompt l : ∀ acc,
  fold_left (ServerHost.injectStep prompt) l (acc, false)
  = match filter originalSystemPrompt l with
    | [] => (acc, false)
    | first :: rest => (acc ++ first :: prompt :: rest, true)
    end.
Proof.
  induction l as [|m l IH]; intros acc; simpl; [done|].
  rewrite filter_cons_bool.
  change (is_system (ServerHost.cm_message m)
          && negb (ServerHost.is_summary_prompt m))
    with (originalSystemPrompt m).
  destruct (originalSystemPrompt m); simpl.
  - rewrite inject_found. by rewrite <- !app_assoc.
  - apply IH.
Qed.

Lemma context_truncate_suffix remaining newestFirst : ∀ truncated currentChars,
  ServerHost.truncateLoop remaining newestFirst truncated currentChars
    `suffix_of` rev newestFirst ++ truncated.
Proof.
  induction newestFirst as [|m l IH]; intros truncated currentChars; simpl.
  - done.
  - case_bool_decide.
    + rewrite <- app_assoc. apply IH.
    + by apply suffix_app_r.
Qed.

Lemma context_truncate_map remaining newestFirst : ∀ truncated currentChars,
  map ServerHost.cm_message
    (ServerHost.truncateLoop remaining newestFirst truncated currentChars)
  = Server.truncateLoop remaining (map ServerHost.cm_message newestFirst)
      (map ServerHost.cm_message truncated) currentChars.
Proof.
  induction newestFirst as [|m l IH]; intros truncated currentChars; simpl.
  - done.
  - case_bool_decide; [|done]. by rewrite IH.
Qed.

Lemma filter_none {A} (P Q : A -> bool) (l : list A) :
  (∀ x, P x = true -> Q x = false) -> filter Q (filter P l) = [].
Proof.
  intros H. induction l as [|x l IH]; [done|].
  rewrite filter_cons_bool. destruct (P x) eqn:E; [|done].
  by rewrite filter_cons_bool, (H x E).
Qed.

Lemma filter_suffix_none {A} (Q : A -> bool) (l k : list A) :
  k `suffix_of` l -> filter Q l = [] -> filter Q k = [].
Proof.
  intros [pre ->] H. rewrite filter_app in H.
  by apply app_eq_nil in H as [_ H].
Qed.

Lemma filter_all {A} (P : A -> bool) (l : list A) :
  Forall (fun x => P x = true) l -> filter P l = l.
Proof.
  induction 1 as [|x l Hx _ IH]; [done|].
  by rewrite filter_cons_bool, Hx, IH.
Qed.

Lemma filter_nothing {A} (P : A -> bool) (l : list A) :
  Forall (fun x => P x = false) l -> filter P l = [].
Proof.
  induction 1 as [|x l Hx _ IH]; [done|].
  by rewrite filter_cons_bool, Hx, IH.
Qed.

Lemma Forall_filter_true {A} (P : A -> bool) (l : list A) :
  Forall (fun x => P x = true) (filter P l).
Proof.
  induction l as [|x l IH]; [constructor|].
  rewrite filter_cons_bool. destruct (P x) eqn:E; [by constructor | done].
Qed.

Lemma withSummaryPrompt_filters prompt originals truncated :
  injectedSummaryPrompt prompt = true ->
  Forall (fun m => originalSystemPrompt m = true) originals ->
  Forall (fun m => ServerHost.notSystem m = true) truncated ->
  filter injectedSummaryPrompt (withSummaryPrompt prompt originals ++ truncated)
  = [prompt]
  ∧ filter originalSystemPrompt (withSummaryPrompt prompt originals ++ truncated)
    = originals.
Proof.
  intros Hp Ho Ht.
  assert (Hpo : originalSystemPrompt prompt = false).
  { unfold injectedSummaryPrompt, originalSystemPrompt in *.
    apply andb_true_iff in Hp as [-> ->]. done. }
  assert (Hoi : Forall (fun m => injectedSummaryPrompt m = false) originals).
  { eapply Forall_impl; [exact Ho|]. intros m Hm. simpl in *.
    unfold injectedSummaryPrompt, originalSystemPrompt in *.
    apply andb_true_iff in Hm as [-> Hm]. apply negb_true_iff in Hm.
    by rewrite Hm. }
  assert (Hti : Forall (fun m => injectedSummaryPrompt m = false) truncated).
  { eapply Forall_impl; [exact Ht|]. intros m Hm. simpl in *.
    unfold injectedSummaryPrompt, ServerHost.notSystem in *.
    apply negb_true_iff in Hm. by rewrite Hm. }
  assert (Hto : Forall (fun m => originalSystemPrompt m = false) truncated).
  { eapply Forall_impl; [exact Ht|]. intros m Hm. simpl in *.
    unfold originalSystemPrompt, ServerHost.notSystem in *.
    apply negb_true_iff in Hm. by rewrite Hm. }
  rewrite !filter_app, (filter_nothing _ _ Hti), (filter_nothing _ _ Hto),
    !app_nil_r.
  destruct originals as [|first rest]; simpl.
  - by rewrite !filter_cons_bool, Hp, Hpo.
  - apply Forall_cons in Ho as [Hf Hr]. apply Forall_cons in Hoi as [Hfi Hri].
    rewrite !filter_cons_bool, Hf, Hfi, Hp, Hpo.
    by rewrite (filter_nothing _ _ Hri), (filter_all _ _ Hr).
Qed.

(** X24. What [onPromptInput] does to the chat. With the extension
    disabled, no endpoint configured, or no non-system message that has
    text, chat and cache come back unchanged. Otherwise the new chat is:
    the host's own system prompts in their order, with one summary prompt
    inserted right after the first of them (or put in front when there is
    none), followed by the most recent non-system messages that fit the
    budget left by that prompt. Summary prompts injected by an earlier
    call are dropped, so the result holds exactly one; the host's system
    prompts are all kept. *)
Theorem prompt_assembly (md5hex : string -> string)
    (substitute : string -> string -> string) (st : ServerHost.Settings)
    (env : Server.Env) (chat : list ServerHost.ContextMessage) (c : Cache) :
  let r := ServerHost.onPromptInput md5hex substitute st env chat c in
  let chatHistory := filter ServerHost.notSystem chat in
  let texts := filter keptServer (map ServerHost.cm_message chatHistory) in
  (ServerHost.enabled st = false ∨ truthy (ServerHost.apiUrl st) = false
   ∨ texts = [] -> r = (chat, c))
  ∧ (ServerHost.enabled st = true -> truthy (ServerHost.apiUrl st) = true ->
     texts ≠ [] ->
     let run := Server.processHistoryForSummarization md5hex
                  (ServerHost.blockSize st) (ServerHost.apiUrl st) env
                  (map ServerHost.cm_message chatHistory) c in
     let summaryPromptPart :=
       substitute (ServerHost.promptTemplate st)
         (String.concat (String "010" (String "010" "")) run.1.2) in
     let prompt := ServerHost.summarySystemPrompt summaryPromptPart in
     ∃ truncated,
       r = (withSummaryPrompt prompt (filter originalSystemPrompt chat)
            ++ truncated, run.2)
       ∧ truncated `suffix_of` chatHistory
       ∧ map ServerHost.cm_message truncated
         = Server.truncateHistory (ServerHost.historySize st) summaryPromptPart
             (map ServerHost.cm_message chatHistory)
       ∧ filter injectedSummaryPrompt r.1 = [prompt]
       ∧ filter originalSystemPrompt r.1 = filter originalSystemPrompt chat).
Proof.
  intros r chatHistory texts.
  destruct (server_segmentation_facts md5hex (ServerHost.blockSize st)
              (map ServerHost.cm_message chatHistory)) as (_ & Hne & Hcat).
  destruct (block_count_facts _ _ Hne Hcat) as [_ Hnil]. fold texts in Hnil.
  assert (Hlen : ∀ blocks, length (Server.summarizeLoop (ServerHost.apiUrl st)
                                     env 0 blocks [] c).1 = length blocks).
  { intros blocks.
    destruct (server_loop_extends (ServerHost.apiUrl st) env blocks 0 [] c)
      as (more & Hm & Hl). by rewrite Hm. }
  unfold r, ServerHost.onPromptInput. fold chatHistory.
  unfold Server.processHistoryForSummarization.
  set (blocks := Server.segmentHistory md5hex (ServerHost.blockSize st)
                   (map ServerHost.cm_message chatHistory)) in *.
  specialize (Hlen blocks).
  split.
  - intros [Hoff|[Hurl|Htexts]].
    + by rewrite Hoff.
    + rewrite Hurl. by rewrite orb_true_r.
    + destruct (negb (ServerHost.enabled st)
                || negb (truthy (ServerHost.apiUrl st))); [done|].
      case_bool_decide; [done|].
      apply Hnil in Htexts. rewrite Htexts. simpl. done.
  - intros Hon Hurl Htexts. rewrite Hon, Hurl. simpl.
    assert (Hblocks : blocks ≠ []) by (by rewrite Hnil).
    rewrite bool_decide_eq_false_2.
    2: { intros E. apply length_zero_iff_nil in E. apply Htexts.
         unfold texts. by rewrite E. }
    destruct (Server.summarizeLoop (ServerHost.apiUrl st) env 0 blocks [] c)
      as [blockSummaries c'] eqn:Erun. simpl in Hlen.
    rewrite bool_decide_eq_false_2.
    2: { rewrite Hlen. intros E. by apply length_zero_iff_nil in E. }
    rewrite inject_not_found. simpl.
    set (summaryPromptPart := substitute _ _).
    set (truncated := ServerHost.truncateLoop _ _ _ _).
    exists truncated.
    assert (Hshape :
      (let '(finalChat, firstSystemPromptFound) :=
         match filter originalSystemPrompt chat with
         | [] => ([], false)
         | first :: rest =>
             (first :: ServerHost.summarySystemPrompt summaryPromptPart
                 :: rest, true)
         end in
       ((if negb firstSystemPromptFound
         then ServerHost.summarySystemPrompt summaryPromptPart :: finalChat
         else finalChat) ++ truncated, c'))
      = (withSummaryPrompt (ServerHost.summarySystemPrompt summaryPromptPart)
           (filter originalSystemPrompt chat) ++ truncated, c')).
    { by destruct (filter originalSystemPrompt chat). }
    rewrite Hshape. simpl.
    assert (Hsuf : truncated `suffix_of` chatHistory).
    { pose proof (context_truncate_suffix
                    (Server.remainingCharsForHistory (ServerHost.historySize st)
                       summaryPromptPart) (rev chatHistory) [] 0) as H.
      by rewrite rev_involutive, app_nil_r in H. }
    split; [done|]. split; [exact Hsuf|]. split.
    { unfold truncated. rewrite context_truncate_map.
      unfold Server.truncateHistory. by rewrite map_rev. }
    apply withSummaryPrompt_filters.
    + reflexivity.
    + apply Forall_filter_true.
    + destruct Hsuf as [pre Hpre].
      pose proof (Forall_filter_true ServerHost.notSystem chat) as Hall.
      fold chatHistory in Hall. rewrite Hpre in Hall.
      by apply Forall_app in Hall as [_ Hall].
Qed.

Lemma prompt_assembly_witness :
  let st := ServerHost.mkSettings "http://api" 100 150 10
              "Summary: {{summary_content}}" true in
  let env := Server.mkEnv (fun _ => OkBody (Some "they greeted"))
               (fun _ => Server.FsOk) (fun _ => Server.FsOk) in
  let sys := ServerHost.mkContextMessage (mkMessage "System" false "be nice" true) false in
  let stale := ServerHost.mkContextMessage (mkMessage "System" false "old summary" true) true in
  let m1 := ServerHost.mkContextMessage (mkMessage "U" true "hello there, how are you" false) false in
  let m2 := ServerHost.mkContextMessage (mkMessage "A" false "fine" false) false in
  let chat := [sys; stale; m1; m2] in
  let r := ServerHost.onPromptInput (fun s => s) (fun _ s => s) st env chat
             {| blockCache := ∅; durable := ∅ |} in
  ServerHost.enabled st = true
  ∧ truthy (ServerHost.apiUrl st) = true
  ∧ r.1 = [sys; ServerHost.summarySystemPrompt "they greeted"; m2]
  ∧ filter injectedSummaryPrompt r.1
    = [ServerHost.summarySystemPrompt "they greeted"].
Proof.
  intros st env sys stale m1 m2 chat r.
  split; [reflexivity|]. split; [reflexivity|]. split; [reflexivity|].
  destruct (prompt_assembly (fun s => s) (fun _ s => s) st env chat
              {| blockCache := ∅; durable := ∅ |}) as [_ Hgo].
  destruct (Hgo eq_refl eq_refl) as (truncated & _ & _ & _ & Hone & _);
    [discriminate|].
  exact Hone.
Defined.
